(** * Identity resolver: the [/identify] request handler

    A shallow embedding of [src/routes/identify.ts] and the properties of
    its contact-consolidation algorithm.

    The handler is an [async] function that talks to the store through
    [prisma.contact.findMany], [create] and [update].  It is embedded as a
    finite tree of storage operations ([prog]): every [await] is a node,
    the code after it is the continuation.  Three interpreters run such a
    tree: [run] (one request alone, no storage failure), [run_faulty]
    (storage operations may throw) and [run2] (two requests whose storage
    operations interleave at the [await]s, as on the Node event loop). *)

From Stdlib Require Import List ZArith String Bool Lia Relations Permutation.
Import ListNotations.
Open Scope string_scope.
Open Scope list_scope.
Open Scope Z_scope.

(** ** Data model *)

Inductive LinkPrecedence := primary | secondary.

Definition LinkPrecedence_eqb (a b : LinkPrecedence) : bool :=
  match a, b with
  | primary, primary => true
  | secondary, secondary => true
  | _, _ => false
  end.

(** Modelled from the spec: the [Contact] type is generated by Prisma from a
    schema that is not part of the sources; the fields are those of the
    data model (section 3), with the names the handler uses.  Nullable
    columns are [option]s, timestamps are milliseconds. *)
Record Contact := mkContact {
  id : Z;
  email : option string;
  phoneNumber : option string;
  linkPrecedence : LinkPrecedence;
  linkedId : option Z;
  createdAt : Z;
  updatedAt : Z
}.

(** The projections under names that the handler's parameters [email] and
    [phoneNumber] do not hide. *)
Abbreviation Contact_email := email (only parsing).
Abbreviation Contact_phoneNumber := phoneNumber (only parsing).

(** A field of the request body: [email?: string | null]. *)
Inductive field := Absent | Null | Str (s : string).

(** JavaScript truthiness of such a field: [undefined], [null] and the
    empty string are falsy. *)
Definition truthy (f : field) : bool :=
  match f with
  | Str s => negb (s =? "")%string
  | _ => false
  end.

(** [f === ""] *)
Definition is_empty_string (f : field) : bool :=
  match f with
  | Str s => (s =? "")%string
  | _ => false
  end.

(** [f ?? undefined]: the argument of a [string?] parameter. *)
Definition orUndefined (f : field) : option string :=
  match f with
  | Str s => Some s
  | _ => None
  end.

(** [f ?? null]: the value of a nullable column. *)
Definition orNull (f : field) : option string :=
  match f with
  | Str s => Some s
  | _ => None
  end.

Definition opt_string_eqb (a b : option string) : bool :=
  match a, b with
  | Some x, Some y => (x =? y)%string
  | None, None => true
  | _, _ => false
  end.

Definition opt_Z_eqb (a b : option Z) : bool :=
  match a, b with
  | Some x, Some y => x =? y
  | None, None => true
  | _, _ => false
  end.

Definition mem_string (x : string) (l : list string) : bool :=
  existsb (fun y => (y =? x)%string) l.

(** ** Pure helpers of the handler *)

(** [new Set(...)] keeps the first occurrence of every value, in insertion
    order. *)
Fixpoint set_from (seen : list string) (l : list string) : list string :=
  match l with
  | [] => []
  | x :: xs =>
      if mem_string x seen then set_from seen xs
      else x :: set_from (x :: seen) xs
  end.

Fixpoint filter_non_null (arr : list (option string)) : list string :=
  match arr with
  | [] => []
  | Some v :: xs => v :: filter_non_null xs
  | None :: xs => filter_non_null xs
  end.

Definition uniqueNonNull (arr : list (option string)) : list string :=
  set_from [] (filter_non_null arr).

(** A [where] clause is an [OR] of these conditions. *)
Inductive clause :=
| EmailEq (e : string)
| PhoneEq (p : string)
| EmailIn (es : list string)
| PhoneIn (ps : list string)
| IdEq (i : Z)
| LinkedIdEq (i : Z).

Definition buildWhereOrForSingleLookup (email phoneNumber : option string)
  : list clause :=
  let OR :=
    ((match email with Some e => [EmailEq e] | None => [] end) ++
     (match phoneNumber with Some p => [PhoneEq p] | None => [] end))%list in
  if (0 <? Z.of_nat (List.length OR)) then OR else [IdEq (-1)].

(** A comparison with a [NULL] column is never true. *)
Definition matches (c : Contact) (cl : clause) : bool :=
  match cl with
  | EmailEq e => match email c with Some x => (x =? e)%string | None => false end
  | PhoneEq p => match phoneNumber c with Some x => (x =? p)%string | None => false end
  | EmailIn es => match email c with Some x => mem_string x es | None => false end
  | PhoneIn ps => match phoneNumber c with Some x => mem_string x ps | None => false end
  | IdEq i => id c =? i
  | LinkedIdEq i => match linkedId c with Some x => x =? i | None => false end
  end.

(** [findMany({ where: { OR } })] over the rows, in storage order. *)
Definition findMany (OR : list clause) (rows : list Contact) : list Contact :=
  filter (fun c => existsb (matches c) OR) rows.

(** Step 3: the [where] of the expansion query, from the seeds. *)
Definition whereExpansion (email phoneNumber : field)
    (existingContacts : list Contact) : list clause :=
  let seedsEmails := uniqueNonNull (map Contact_email existingContacts) in
  let seedsPhones := uniqueNonNull (map Contact_phoneNumber existingContacts) in
  let orForExpansion :=
    ((if 0 <? Z.of_nat (List.length seedsEmails) then [EmailIn seedsEmails] else []) ++
     (if 0 <? Z.of_nat (List.length seedsPhones) then [PhoneIn seedsPhones] else []))%list in
  if 0 <? Z.of_nat (List.length orForExpansion) then orForExpansion
  else buildWhereOrForSingleLookup (orUndefined email) (orUndefined phoneNumber).

(** Step 4: [allLinkedContacts.reduce(..., allLinkedContacts[0])]. *)
Definition older (oldest curr : Contact) : Contact :=
  if createdAt curr <? createdAt oldest then curr else oldest.

Definition selectPrimary (first : Contact) (allLinkedContacts : list Contact)
  : Contact :=
  fold_left older allLinkedContacts first.

(** Step 5: the rows to update. *)
Definition toDowngrade (p : Contact) (allLinkedContacts : list Contact)
  : list Contact :=
  filter (fun c =>
            negb (id c =? id p) &&
            (negb (LinkPrecedence_eqb (linkPrecedence c) secondary) ||
             negb (opt_Z_eqb (linkedId c) (Some (id p)))))
         allLinkedContacts.

(** Step 6. *)
Definition hasSameTuple (email phoneNumber : field)
    (allLinkedContacts : list Contact) : bool :=
  existsb (fun c =>
             opt_string_eqb (orNull email) (Contact_email c) &&
             opt_string_eqb (orNull phoneNumber) (Contact_phoneNumber c))
          allLinkedContacts.

Definition alreadyHasEmail (email : field) (allLinkedContacts : list Contact)
  : bool :=
  if truthy email
  then existsb (fun c => opt_string_eqb (Contact_email c) (orNull email))
               allLinkedContacts
  else true.

Definition alreadyHasPhone (phoneNumber : field)
    (allLinkedContacts : list Contact) : bool :=
  if truthy phoneNumber
  then existsb (fun c =>
                  opt_string_eqb (Contact_phoneNumber c) (orNull phoneNumber))
               allLinkedContacts
  else true.

Definition introducesNewInfo (email phoneNumber : field)
    (allLinkedContacts : list Contact) : bool :=
  negb (hasSameTuple email phoneNumber allLinkedContacts) &&
  ((truthy email && negb (alreadyHasEmail email allLinkedContacts)) ||
   (truthy phoneNumber && negb (alreadyHasPhone phoneNumber allLinkedContacts))).

(** Step 8: [if (!val) return arr; return [val, ...arr.filter(x => x !== val)]]. *)
Definition prependIfPresent (arr : list string) (val : option string)
  : list string :=
  match val with
  | None => arr
  | Some v =>
      if (v =? "")%string then arr
      else v :: filter (fun x => negb (x =? v)%string) arr
  end.

(** ** Responses *)

#[local] Unset Elimination Schemes.
Inductive json :=
| JNum (n : Z)
| JStr (s : string)
| JArr (l : list json)
| JObj (members : list (string * json)).
#[local] Set Elimination Schemes.

Record response := mkResponse { status : Z; body : json }.

(** [res.status(400).json({ error: "Email or phoneNumber required" })] *)
Definition badRequest : response :=
  mkResponse 400 (JObj [("error", JStr "Email or phoneNumber required")]).

(** The [catch] branch. *)
Definition internalError : response :=
  mkResponse 500 (JObj [("error", JStr "Internal Server Error")]).

(** [res.status(200).json({ contact: { ... } })], with the keys as the
    handler spells them. *)
Definition contactView (primaryId : Z) (emails phoneNumbers : list string)
    (secondaryContactIds : list Z) : response :=
  mkResponse 200
    (JObj [("contact",
            JObj [("primaryContatctId", JNum primaryId);
                  ("emails", JArr (map JStr emails));
                  ("phoneNumbers", JArr (map JStr phoneNumbers));
                  ("secondaryContactIds", JArr (map JNum secondaryContactIds))])]).

(** ** The handler as a tree of storage operations *)

Record createData := mkCreate {
  new_email : option string;
  new_phoneNumber : option string;
  new_linkPrecedence : LinkPrecedence;
  new_linkedId : option Z
}.

Record updateData := mkUpdate {
  set_linkPrecedence : LinkPrecedence;
  set_linkedId : option Z
}.

(** [FindMany], [Create]: one awaited call each.  [UpdateAll ids d k] is
    [await Promise.all(ids.map(id => update({ where: { id }, data: d })))]
    followed by [k]. *)
Inductive prog :=
| Respond (r : response)
| FindMany (OR : list clause) (k : list Contact -> prog)
| Create (d : createData) (k : Contact -> prog)
| UpdateAll (ids : list Z) (d : updateData) (k : prog).

(** Steps 2 and 3 (defensive branch): create a new primary and return it. *)
Definition createNewPrimary (email phoneNumber : field) : prog :=
  Create (mkCreate (orNull email) (orNull phoneNumber) primary None)
    (fun created =>
       Respond (contactView (id created)
                  (uniqueNonNull [Contact_email created])
                  (uniqueNonNull [Contact_phoneNumber created])
                  [])).

(** Steps 7 and 8: the final snapshot and the response. *)
Definition formatView (thePrimary : Contact) (finalContacts : list Contact)
  : response :=
  let finalEmails := uniqueNonNull (map Contact_email finalContacts) in
  let finalPhones := uniqueNonNull (map Contact_phoneNumber finalContacts) in
  let secondaryIds :=
    map id (filter (fun c => LinkPrecedence_eqb (linkPrecedence c) secondary)
                   finalContacts) in
  contactView (id thePrimary)
    (prependIfPresent finalEmails (Contact_email thePrimary))
    (prependIfPresent finalPhones (Contact_phoneNumber thePrimary))
    secondaryIds.

Definition snapshot (thePrimary : Contact) : prog :=
  FindMany [IdEq (id thePrimary); LinkedIdEq (id thePrimary)]
    (fun finalContacts => Respond (formatView thePrimary finalContacts)).

(** Steps 4 to 8, once the expansion query has returned a first row. *)
Definition consolidate (email phoneNumber : field)
    (first : Contact) (allLinkedContacts : list Contact) : prog :=
  let thePrimary := selectPrimary first allLinkedContacts in
  let downgrades := toDowngrade thePrimary allLinkedContacts in
  let insertThenSnapshot :=
    if introducesNewInfo email phoneNumber allLinkedContacts
    then Create (mkCreate (orNull email) (orNull phoneNumber)
                   secondary (Some (id thePrimary)))
           (fun _ => snapshot thePrimary)
    else snapshot thePrimary in
  if 0 <? Z.of_nat (List.length downgrades)
  then UpdateAll (map id downgrades)
         (mkUpdate secondary (Some (id thePrimary))) insertThenSnapshot
  else insertThenSnapshot.

(** Step 3, from the seeds. *)
Definition expand (email phoneNumber : field)
    (existingContacts : list Contact) : prog :=
  FindMany (whereExpansion email phoneNumber existingContacts)
    (fun allLinkedContacts =>
       match allLinkedContacts with
       | [] => createNewPrimary email phoneNumber
       | first :: _ => consolidate email phoneNumber first allLinkedContacts
       end).

(** The body of [router.post("/", ...)]. *)
Definition identify (email phoneNumber : field) : prog :=
  if (negb (truthy email) || is_empty_string email) &&
     (negb (truthy phoneNumber) || is_empty_string phoneNumber)
  then Respond badRequest
  else
    FindMany (buildWhereOrForSingleLookup
                (orUndefined email) (orUndefined phoneNumber))
      (fun existingContacts =>
         if Z.of_nat (List.length existingContacts) =? 0
         then createNewPrimary email phoneNumber
         else expand email phoneNumber existingContacts).

(** ** The store *)

(** Modelled from the spec: the storage collaborator.  [rows] in storage
    return order, [next_id] the autoincrement counter behind [id], [now]
    the clock behind the [createdAt] and [updatedAt] defaults. *)
Record Store := mkStore {
  rows : list Contact;
  next_id : Z;
  now : Z
}.

Definition create (d : createData) (s : Store) : Contact * Store :=
  let c := mkContact (next_id s) (new_email d) (new_phoneNumber d)
             (new_linkPrecedence d) (new_linkedId d) (now s) (now s) in
  (c, mkStore (rows s ++ [c]) (next_id s + 1) (now s)).

(** The row after an update at time [t]; [updatedAt] follows the clock. *)
Definition apply_update (d : updateData) (t : Z) (c : Contact) : Contact :=
  mkContact (id c) (email c) (phoneNumber c)
    (set_linkPrecedence d) (set_linkedId d) (createdAt c) t.

(** The storage return order after an update: the rows the update did
    not touch keep their order, and the updated row is returned after
    them (a table read without [orderBy] returns the new version of a row
    last). *)
Definition update_rows (i : Z) (d : updateData) (t : Z) (l : list Contact)
  : list Contact :=
  filter (fun c => negb (id c =? i)) l ++
  map (apply_update d t) (filter (fun c => id c =? i) l).

(** [update({ where: { id: i }, data: d })]; [None] when no row has that
    id (the call throws). *)
Definition update (i : Z) (d : updateData) (s : Store) : option Store :=
  if existsb (fun c => id c =? i) (rows s)
  then Some (mkStore (update_rows i d (now s) (rows s)) (next_id s) (now s))
  else None.

(** ** Interpreters *)

(** [faults n] tells whether the [n]-th storage call of the request
    throws.  A call that throws changes nothing. *)
Definition faults := nat -> bool.

Definition no_fault : faults := fun _ => false.

(** The updates of one [Promise.all] are all issued; each one that does
    not throw is applied, whatever happens to its siblings.  The boolean
    tells whether all of them succeeded. *)
Fixpoint updateAll (f : faults) (n : nat) (ids : list Z) (d : updateData)
    (s : Store) : bool * Store :=
  match ids with
  | [] => (true, s)
  | i :: rest =>
      if f n then (false, snd (updateAll f (S n) rest d s))
      else
        match update i d s with
        | Some s1 => updateAll f (S n) rest d s1
        | None => (false, snd (updateAll f (S n) rest d s))
        end
  end.

(** One request, from its [n]-th storage call on; an exception ends it in
    the [catch] branch. *)
Fixpoint run_faulty (f : faults) (n : nat) (p : prog) (s : Store)
  : response * Store :=
  match p with
  | Respond r => (r, s)
  | FindMany OR k =>
      if f n then (internalError, s)
      else run_faulty f (S n) (k (findMany OR (rows s))) s
  | Create d k =>
      if f n then (internalError, s)
      else let (c, s1) := create d s in run_faulty f (S n) (k c) s1
  | UpdateAll ids d k =>
      let (ok, s1) := updateAll f n ids d s in
      if ok then run_faulty f (n + List.length ids) k s1
      else (internalError, s1)
  end.

(** One request alone, the store never failing. *)
Definition run (p : prog) (s : Store) : response * Store :=
  run_faulty no_fault 0 p s.

(** One storage call of a request (none if it has responded). *)
Definition step (p : prog) (s : Store) : prog * Store :=
  match p with
  | Respond r => (p, s)
  | FindMany OR k => (k (findMany OR (rows s)), s)
  | Create d k => let (c, s1) := create d s in (k c, s1)
  | UpdateAll ids d k =>
      let (ok, s1) := updateAll no_fault 0 ids d s in
      if ok then (k, s1) else (Respond internalError, s1)
  end.

(** Two requests on the event loop: [sched] says whose storage call runs
    next ([true]: the first request); when it is exhausted the first
    request runs to its end, then the second.  The updates of one
    [Promise.all] are taken as one step. *)
Fixpoint run2 (sched : list bool) (p1 p2 : prog) (s : Store)
  : (response * response) * Store :=
  match sched with
  | [] =>
      let (r1, s1) := run p1 s in
      let (r2, s2) := run p2 s1 in
      ((r1, r2), s2)
  | true :: sc => let (p1', s1) := step p1 s in run2 sc p1' p2 s1
  | false :: sc => let (p2', s1) := step p2 s in run2 sc p1 p2' s1
  end.

(** ** The values the handler computes, as functions of the store *)

(** Step 1: the seeds. *)
Definition existingContacts (email phoneNumber : field) (l : list Contact)
  : list Contact :=
  findMany (buildWhereOrForSingleLookup
              (orUndefined email) (orUndefined phoneNumber)) l.

(** Step 3: what the expansion query returns. *)
Definition allLinkedContacts (email phoneNumber : field) (l : list Contact)
  : list Contact :=
  findMany (whereExpansion email phoneNumber
              (existingContacts email phoneNumber l)) l.

(** The request is rejected by the first test of the handler. *)
Definition rejected (email phoneNumber : field) : bool :=
  (negb (truthy email) || is_empty_string email) &&
  (negb (truthy phoneNumber) || is_empty_string phoneNumber).

Definition has_id (i : Z) (l : list Contact) : bool :=
  existsb (fun c => id c =? i) l.

(** The rows after the updates of step 5. *)
Definition downgradeRows (thePrimary : Contact) (targets : list Contact)
    (t : Z) (l : list Contact) : list Contact :=
  fold_left
    (fun acc i => update_rows i (mkUpdate secondary (Some (id thePrimary))) t acc)
    (map id targets) l.

(** The row step 6 inserts, if any. *)
Definition newSecondary (email phoneNumber : field) (thePrimary : Contact)
    (s : Store) : Contact :=
  mkContact (next_id s) (orNull email) (orNull phoneNumber)
    secondary (Some (id thePrimary)) (now s) (now s).

(** The row steps 2 and 3 insert. *)
Definition newPrimary (email phoneNumber : field) (s : Store) : Contact :=
  mkContact (next_id s) (orNull email) (orNull phoneNumber)
    primary None (now s) (now s).

(** The store after steps 5 and 6. *)
Definition afterWrites (email phoneNumber : field) (first : Contact)
    (found : list Contact) (s : Store) : Store :=
  let thePrimary := selectPrimary first found in
  let l1 := downgradeRows thePrimary (toDowngrade thePrimary found)
              (now s) (rows s) in
  if introducesNewInfo email phoneNumber found
  then mkStore (l1 ++ [newSecondary email phoneNumber thePrimary s])
         (next_id s + 1) (now s)
  else mkStore l1 (next_id s) (now s).

(** The response and the store a request leaves when it runs alone and
    the store does not fail. *)
Definition resolve (email phoneNumber : field) (s : Store)
  : response * Store :=
  run (identify email phoneNumber) s.

(** The primary step 4 selects, when the request reaches step 4. *)
Definition selectedPrimary (email phoneNumber : field) (l : list Contact)
  : option Contact :=
  match existingContacts email phoneNumber l,
        allLinkedContacts email phoneNumber l with
  | _ :: _, first :: rest => Some (selectPrimary first (first :: rest))
  | _, _ => None
  end.

(** The primary of the response: the selected one, or the one the request
    creates. *)
Definition primaryOf (email phoneNumber : field) (s : Store) : Contact :=
  match selectedPrimary email phoneNumber (rows s) with
  | Some c => c
  | None => newPrimary email phoneNumber s
  end.

(** The response shape as the specification words it: the four members at
    the top level, the first one spelled [primaryContactId]. *)
Definition specShape (b : json) : Prop :=
  exists (primaryId : Z) (emails phoneNumbers : list string) (ids : list Z),
    b = JObj [("primaryContactId", JNum primaryId);
              ("emails", JArr (map JStr emails));
              ("phoneNumbers", JArr (map JStr phoneNumbers));
              ("secondaryContactIds", JArr (map JNum ids))].

Definition emptyStore : Store := mkStore [] 1 1000.

(** ** Reading a response, as the tests do ([res.body.contact.emails]) *)

Fixpoint member (key : string) (members : list (string * json)) : option json :=
  match members with
  | [] => None
  | (k, v) :: rest => if (k =? key)%string then Some v else member key rest
  end.

Definition contactOf (r : response) : list (string * json) :=
  match body r with
  | JObj top => match member "contact" top with
                | Some (JObj ms) => ms
                | _ => []
                end
  | _ => []
  end.

Fixpoint strings (l : list json) : list string :=
  match l with
  | JStr s :: rest => s :: strings rest
  | _ :: rest => strings rest
  | [] => []
  end.

Definition response_emails (r : response) : list string :=
  match member "emails" (contactOf r) with
  | Some (JArr l) => strings l
  | _ => []
  end.

Definition response_phoneNumbers (r : response) : list string :=
  match member "phoneNumbers" (contactOf r) with
  | Some (JArr l) => strings l
  | _ => []
  end.

(** A store in which the oldest row, the primary, has the empty string as
    its email and comes second in storage order. *)
Definition storeEmptyEmailPrimary : Store :=
  mkStore
    [ mkContact 2 (Some "a@x") (Some "1") secondary (Some 1) 5 5;
      mkContact 1 (Some "") (Some "1") primary None 1 1 ]
    3 1000.

(** ** The claims that fail, as the specification states them *)

(** C7 as stated: no duplicates, and the primary's own value first
    whenever it has one. *)
Definition primary_value_first_as_stated (email phoneNumber : field)
    (s : Store) : Prop :=
  status (fst (resolve email phoneNumber s)) = 200 ->
  NoDup (response_emails (fst (resolve email phoneNumber s))) /\
  NoDup (response_phoneNumbers (fst (resolve email phoneNumber s))) /\
  (forall v, Contact_email (primaryOf email phoneNumber s) = Some v ->
             hd_error (response_emails (fst (resolve email phoneNumber s)))
             = Some v) /\
  (forall v, Contact_phoneNumber (primaryOf email phoneNumber s) = Some v ->
             hd_error (response_phoneNumbers (fst (resolve email phoneNumber s)))
             = Some v).

(** C8 as stated. *)
Definition response_shape_as_stated (email phoneNumber : field)
    (s : Store) : Prop :=
  status (fst (resolve email phoneNumber s)) = 200 ->
  specShape (body (fst (resolve email phoneNumber s))).

(** C3 as stated: the selected primary has the smallest [createdAt] of
    the rows found, and the smallest id among those that have it. *)
Definition primary_selection_as_stated (email phoneNumber : field)
    (l : list Contact) : Prop :=
  forall thePrimary,
    selectedPrimary email phoneNumber l = Some thePrimary ->
    In thePrimary (allLinkedContacts email phoneNumber l) /\
    (forall c, In c (allLinkedContacts email phoneNumber l) ->
               createdAt thePrimary <= createdAt c) /\
    (forall c, In c (allLinkedContacts email phoneNumber l) ->
               createdAt c = createdAt thePrimary ->
               id thePrimary <= id c).

(** A primary and its secondary, created in the same millisecond, which
    storage returns with the larger id first. *)
Definition rowsSameInstant : list Contact :=
  [ mkContact 2 (Some "a@x") (Some "2") secondary (Some 1) 5 5;
    mkContact 1 (Some "a@x") (Some "1") primary None 5 5 ].

Definition storeSameInstant : Store := mkStore rowsSameInstant 3 1000.

(** Rows in id order. *)
Definition ascendingIds (l : list Contact) : Prop :=
  forall before c after d,
    l = before ++ c :: after -> In d after -> id c < id d.

(** ** Components *)

(** Two rows share an email or a phone value ([null] is not a value). *)
Definition shares (c d : Contact) : Prop :=
  (exists v, Contact_email c = Some v /\ Contact_email d = Some v) \/
  (exists v, Contact_phoneNumber c = Some v /\ Contact_phoneNumber d = Some v).

(** Transitively connected by sharing, through rows of [l]. *)
Definition connected (l : list Contact) : Contact -> Contact -> Prop :=
  clos_refl_trans Contact (fun c d => In c l /\ In d l /\ shares c d).

(** The component of the input: the rows connected to a seed. *)
Definition inComponent (email phoneNumber : field) (l : list Contact)
    (c : Contact) : Prop :=
  In c l /\
  exists sd, In sd (existingContacts email phoneNumber l) /\ connected l sd c.

(** C2 as stated: with a seed, the expansion query returns exactly the
    component. *)
Definition expansion_is_component_as_stated (email phoneNumber : field)
    (l : list Contact) : Prop :=
  rejected email phoneNumber = false ->
  existingContacts email phoneNumber l <> [] ->
  forall c, In c (allLinkedContacts email phoneNumber l) <->
            inComponent email phoneNumber l c.

(** Three rows in a chain: the first two share a phone, the last two an
    email. *)
Definition rowsChain : list Contact :=
  [ mkContact 1 (Some "e1") (Some "p1") primary None 1 1;
    mkContact 2 (Some "e2") (Some "p1") secondary (Some 1) 2 2;
    mkContact 3 (Some "e2") (Some "p3") secondary (Some 1) 3 3 ].

Definition storeChain : Store := mkStore rowsChain 4 1000.

(** ** New-fact detection *)

(** The incoming pair is on one row, as it is. *)
Definition pairPresent (email phoneNumber : field) (found : list Contact)
  : Prop :=
  exists c, In c found /\
            Contact_email c = orNull email /\
            Contact_phoneNumber c = orNull phoneNumber.

(** The request gives an email (a phone) that no row found carries. *)
Definition emailUnseen (email : field) (found : list Contact) : Prop :=
  exists v, email = Str v /\ forall c, In c found -> Contact_email c <> Some v.

Definition phoneUnseen (phoneNumber : field) (found : list Contact) : Prop :=
  exists v, phoneNumber = Str v /\
            forall c, In c found -> Contact_phoneNumber c <> Some v.

(** The same, for a non-empty string. *)
Definition emailNew (email : field) (found : list Contact) : Prop :=
  exists v, email = Str v /\ v <> "" /\
            forall c, In c found -> Contact_email c <> Some v.

Definition phoneNew (phoneNumber : field) (found : list Contact) : Prop :=
  exists v, phoneNumber = Str v /\ v <> "" /\
            forall c, In c found -> Contact_phoneNumber c <> Some v.

(** The request adds one row to the store: a secondary linked to the
    selected primary, with the request's email and phone. *)
Definition insertsSecondary (email phoneNumber : field) (s : Store) : Prop :=
  exists kept thePrimary,
    selectedPrimary email phoneNumber (rows s) = Some thePrimary /\
    rows (snd (resolve email phoneNumber s))
    = kept ++ [newSecondary email phoneNumber thePrimary s] /\
    List.length kept = List.length (rows s).

(** C5 as stated. *)
Definition new_fact_as_stated (email phoneNumber : field) (s : Store) : Prop :=
  rejected email phoneNumber = false ->
  existingContacts email phoneNumber (rows s) <> [] ->
  (insertsSecondary email phoneNumber s <->
   ~ pairPresent email phoneNumber
       (allLinkedContacts email phoneNumber (rows s)) /\
   (emailUnseen email (allLinkedContacts email phoneNumber (rows s)) \/
    phoneUnseen phoneNumber (allLinkedContacts email phoneNumber (rows s)))).

Definition storeOneContact : Store :=
  mkStore [ mkContact 1 (Some "a@x") (Some "1") primary None 5 5 ] 2 1000.

(** ** Failures of the store *)

Definition mem_Z (i : Z) (l : list Z) : bool := existsb (Z.eqb i) l.

(** The rows after the updates of the ids in [done], one after the
    other. *)
Definition appliedUpdates (done : list Z) (d : updateData) (t : Z)
    (l : list Contact) : list Contact :=
  fold_left (fun acc i => update_rows i d t acc) done l.

(** The same rows, each at the place it had before the updates. *)
Definition updatedRows (done : list Z) (d : updateData) (t : Z)
    (l : list Contact) : list Contact :=
  map (fun c => if mem_Z (id c) done then apply_update d t c else c) l.

(** The request, run on a store whose calls fail as [f] says. *)
Definition resolve_faulty (f : faults) (email phoneNumber : field) (s : Store)
  : response * Store :=
  run_faulty f 0 (identify email phoneNumber) s.

(** C4 as stated: whatever fails, the store shows all the writes of the
    request or none of them. *)
Definition atomic_writes_as_stated (f : faults) (email phoneNumber : field)
    (s : Store) : Prop :=
  rows (snd (resolve_faulty f email phoneNumber s)) = rows s \/
  rows (snd (resolve_faulty f email phoneNumber s))
  = rows (snd (resolve email phoneNumber s)).

(** An old primary, a younger primary and the younger one's secondary. *)
Definition storeTwoComponents : Store :=
  mkStore
    [ mkContact 1 (Some "a@x") (Some "1") primary None 1 1;
      mkContact 2 (Some "b@x") (Some "2") primary None 2 2;
      mkContact 3 (Some "c@x") (Some "2") secondary (Some 2) 3 3 ]
    4 1000.

(** The fourth storage call of the request fails (calls are counted from
    0): here, the second update of the downgrade pass. *)
Definition fourthCallFails : faults := fun n => Nat.eqb n 3.

(** ** Two requests *)

(** No two primaries in one component. *)
Definition onePrimaryPerComponent (l : list Contact) : Prop :=
  forall c d, In c l -> In d l -> connected l c d ->
              linkPrecedence c = primary -> linkPrecedence d = primary ->
              c = d.

(** The two requests have an email or a phone in common. *)
Definition overlapping (email1 phoneNumber1 email2 phoneNumber2 : field)
  : Prop :=
  (exists v, email1 = Str v /\ email2 = Str v) \/
  (exists v, phoneNumber1 = Str v /\ phoneNumber2 = Str v).

(** C9 as stated: whatever the interleaving of two overlapping requests,
    the store never holds two primaries of one component. *)
Definition serialized_as_stated (sched : list bool)
    (email1 phoneNumber1 email2 phoneNumber2 : field) (s : Store) : Prop :=
  overlapping email1 phoneNumber1 email2 phoneNumber2 ->
  onePrimaryPerComponent (rows s) ->
  onePrimaryPerComponent
    (rows (snd (run2 sched (identify email1 phoneNumber1)
                  (identify email2 phoneNumber2) s))).

(** Both seed lookups run before either insert. *)
Definition lookupsFirst : list bool := [true; false; true; false].

(** ** Invariants of the store *)

(** C1's invariants, as stated, over the components of the sharing
    relation: every component has exactly one primary, its other rows are
    secondaries linked to it, and no secondary is linked to a
    secondary. *)
Definition componentInvariants (l : list Contact) : Prop :=
  (forall c, In c l ->
     exists p,
       In p l /\ connected l c p /\ linkPrecedence p = primary /\
       (forall q, In q l -> connected l c q ->
                  linkPrecedence q = primary -> q = p) /\
       (forall d, In d l -> connected l c d -> d <> p ->
                  linkPrecedence d = secondary /\ linkedId d = Some (id p)))
  /\
  (forall c d, In c l -> In d l ->
               linkPrecedence c = secondary -> linkedId c = Some (id d) ->
               linkPrecedence d <> secondary).

Definition invariants_preserved_as_stated (email phoneNumber : field)
    (s : Store) : Prop :=
  rejected email phoneNumber = false ->
  componentInvariants (rows s) ->
  componentInvariants (rows (snd (resolve email phoneNumber s))).

(** Ids are unique and below the autoincrement counter. *)
Definition uniqueIds (s : Store) : Prop :=
  NoDup (map id (rows s)) /\ forall c, In c (rows s) -> id c < next_id s.

(** The row step 4 selects is a primary already. *)
Definition selectedIsPrimary (email phoneNumber : field) (l : list Contact)
  : Prop :=
  forall thePrimary,
    selectedPrimary email phoneNumber l = Some thePrimary ->
    linkPrecedence thePrimary = primary.

(** Two primaries that share nothing. *)
Definition storeTwoPrimaries : Store :=
  mkStore
    [ mkContact 1 (Some "d@x") (Some "2") primary None 3 3;
      mkContact 2 (Some "a@x") (Some "1") primary None 5 5 ]
    3 1000.

(** ** The scenario of the repository's tests *)

Definition afterLorraine : Store :=
  snd (resolve (Str "lorraine@hillvalley.edu") (Str "123456") emptyStore).

Definition afterMcfly : Store :=
  snd (resolve (Str "mcfly@hillvalley.edu") (Str "123456") afterLorraine).

Definition afterPhoneOnly : Store :=
  snd (resolve Absent (Str "123456") afterMcfly).

(** ** Further notions *)

(** The row carries the email or the phone of the request. *)
Definition carries (email phoneNumber : field) (c : Contact) : Prop :=
  (exists v, email = Str v /\ Contact_email c = Some v) \/
  (exists v, phoneNumber = Str v /\ Contact_phoneNumber c = Some v).

(** The columns of a row that no request writes. *)
Definition frozen (c : Contact) : Z * option string * option string * Z :=
  (id c, Contact_email c, Contact_phoneNumber c, createdAt c).

Fixpoint numbers (l : list json) : list Z :=
  match l with
  | JNum n :: rest => n :: numbers rest
  | _ :: rest => numbers rest
  | [] => []
  end.

Definition response_secondaryContactIds (r : response) : list Z :=
  match member "secondaryContactIds" (contactOf r) with
  | Some (JArr l) => numbers l
  | _ => []
  end.

(** The row is the primary [p] or is linked to it: what the snapshot of
    step 7 selects. *)
Definition inViewOf (p c : Contact) : Prop :=
  id c = id p \/ linkedId c = Some (id p).

(** The store at another time. *)
Definition at_time (t : Z) (s : Store) : Store :=
  mkStore (rows s) (next_id s) t.

(** A rewriting of rows that leaves the columns no request writes. *)
Definition keepsColumns (g : Contact -> Contact) : Prop :=
  forall c, frozen (g c) = frozen c.

(** What the downgrade pass does to one row. *)
Definition downgradeRow (targets : list Z) (d : updateData) (t : Z)
    (c : Contact) : Contact :=
  if mem_Z (id c) targets then apply_update d t c else c.

(** The second storage call of the request fails. *)
Definition secondCallFails : faults := fun n => Nat.eqb n 1.

(** The ids whose update did not throw, among the updates of one
    [Promise.all] issued as calls [n], [n + 1], ... *)
Fixpoint succeeded (f : faults) (n : nat) (ids : list Z) : list Z :=
  match ids with
  | [] => []
  | i :: rest =>
      if f n then succeeded f (S n) rest else i :: succeeded f (S n) rest
  end.

(** None of the [k] calls from call [n] on throws. *)
Fixpoint noFailure (f : faults) (n k : nat) : bool :=
  match k with
  | O => true
  | S k' => negb (f n) && noFailure f (S n) k'
  end.

(** The number of storage calls the request issues when none fails: the
    two queries, the updates, the insert if any, the snapshot. *)
Definition calls (email phoneNumber : field) (s : Store) : nat :=
  if rejected email phoneNumber then 0%nat
  else
    match existingContacts email phoneNumber (rows s),
          allLinkedContacts email phoneNumber (rows s) with
    | [], _ => 2%nat
    | _ :: _, [] => 3%nat
    | _ :: _, first :: rest =>
        (2 + List.length
               (toDowngrade (selectPrimary first (first :: rest))
                  (first :: rest))
         + (if introducesNewInfo email phoneNumber (first :: rest)
            then 1 else 0)
         + 1)%nat
    end.

(** The store after the requests [(e1, p1)], [(e2, p1)], [(e2, p3)] on the
    empty store, one second apart: a primary and two secondaries linked to
    it, the last one two sharing hops from it. *)
Definition storeThreeRequests : Store :=
  at_time 4000
    (snd (resolve (Str "e2") (Str "p3")
            (at_time 3000
               (snd (resolve (Str "e2") (Str "p1")
                       (at_time 2000
                          (snd (resolve (Str "e1") (Str "p1")
                                  emptyStore)))))))).

(** * Properties *)

(** ** The tests of the repository ([tests/identify.tests.ts]) *)

Example creates_a_new_primary_on_first_request :
  fst (resolve (Str "lorraine@hillvalley.edu") (Str "123456") emptyStore)
  = contactView 1 ["lorraine@hillvalley.edu"] ["123456"] [].
Proof. reflexivity. Qed.

Example creates_a_secondary_when_new_email_but_same_phone :
  fst (resolve (Str "mcfly@hillvalley.edu") (Str "123456") afterLorraine)
  = contactView 1 ["lorraine@hillvalley.edu"; "mcfly@hillvalley.edu"]
      ["123456"] [2].
Proof. reflexivity. Qed.

Example returns_the_same_merged_record_when_queried_by_phone_only :
  resolve Absent (Str "123456") afterMcfly
  = (contactView 1 ["lorraine@hillvalley.edu"; "mcfly@hillvalley.edu"]
       ["123456"] [2],
     afterMcfly).
Proof. reflexivity. Qed.

Example creates_a_new_primary_for_unique_email_and_phone :
  fst (resolve (Str "doc@fluxcapacitor.com") (Str "555000") afterPhoneOnly)
  = contactView 3 ["doc@fluxcapacitor.com"] ["555000"] [].
Proof. reflexivity. Qed.

(** ** What a request does when it runs alone *)

Lemma has_id_In (i : Z) (l : list Contact) :
  has_id i l = true <-> exists c, In c l /\ id c = i.
Proof.
  unfold has_id. rewrite existsb_exists.
  split; intros [c [Hc He]]; exists c; split; auto; lia.
Qed.

(** An update rewrites the rows with the given id and moves them; up to
    the order of the rows, it rewrites them in place. *)
Lemma update_rows_perm (i : Z) (d : updateData) (t : Z) (l : list Contact) :
  Permutation (update_rows i d t l)
    (map (fun c => if id c =? i then apply_update d t c else c) l).
Proof.
  unfold update_rows. induction l as [|a l IH]; cbn [filter map app].
  - constructor.
  - destruct (id a =? i); cbn [negb map app].
    + apply Permutation_sym, Permutation_cons_app, Permutation_sym, IH.
    + now apply perm_skip.
Qed.

Lemma map_id_update_rows (i : Z) (d : updateData) (t : Z) (l : list Contact) :
  Permutation (map id (update_rows i d t l)) (map id l).
Proof.
  rewrite (Permutation_map id (update_rows_perm i d t l)), map_map.
  rewrite (map_ext (fun c => id (if id c =? i then apply_update d t c else c))
             id); [reflexivity|].
  intros c. destruct (id c =? i); reflexivity.
Qed.

Lemma has_id_map_id (i : Z) (l l' : list Contact) :
  Permutation (map id l) (map id l') -> has_id i l = has_id i l'.
Proof.
  intros H.
  assert (E : forall m, has_id i m = true <-> In i (map id m)).
  { intros m. rewrite has_id_In, in_map_iff.
    split; intros [c Hc]; exists c; tauto. }
  destruct (has_id i l) eqn:A, (has_id i l') eqn:B; try reflexivity.
  - apply E, (Permutation_in _ H), E in A. congruence.
  - apply E, (Permutation_in _ (Permutation_sym H)), E in B. congruence.
Qed.

Lemma map_id_fold_update (d : updateData) (t : Z) (ids : list Z) :
  forall l,
    Permutation
      (map id (fold_left (fun acc i => update_rows i d t acc) ids l))
      (map id l).
Proof.
  induction ids as [|i ids IH]; intros l; simpl; [reflexivity|].
  rewrite IH. apply map_id_update_rows.
Qed.

Lemma updateAll_no_fault (d : updateData) (ids : list Z) :
  forall (n : nat) (s : Store),
    (forall i, In i ids -> has_id i (rows s) = true) ->
    updateAll no_fault n ids d s
    = (true,
       mkStore (fold_left (fun acc i => update_rows i d (now s) acc) ids (rows s))
               (next_id s) (now s)).
Proof.
  induction ids as [|i ids IH]; intros n s H.
  - destruct s; reflexivity.
  - cbn [updateAll no_fault]. unfold update.
    fold (has_id i (rows s)). rewrite (H i (or_introl eq_refl)).
    rewrite IH.
    + reflexivity.
    + intros j Hj. cbn [rows].
      rewrite (has_id_map_id j _ (rows s)) by apply map_id_update_rows.
      apply H. now right.
Qed.

Lemma run_createNewPrimary (email phoneNumber : field) (n : nat) (s : Store) :
  run_faulty no_fault n (createNewPrimary email phoneNumber) s
  = (contactView (next_id s)
       (uniqueNonNull [orNull email]) (uniqueNonNull [orNull phoneNumber]) [],
     mkStore (rows s ++ [newPrimary email phoneNumber s])
       (next_id s + 1) (now s)).
Proof. reflexivity. Qed.

Lemma run_consolidate (email phoneNumber : field) (first : Contact)
    (found : list Contact) (n : nat) (s : Store) :
  (forall c, In c found -> has_id (id c) (rows s) = true) ->
  run_faulty no_fault n (consolidate email phoneNumber first found) s
  = (formatView (selectPrimary first found)
       (findMany [IdEq (id (selectPrimary first found));
                  LinkedIdEq (id (selectPrimary first found))]
          (rows (afterWrites email phoneNumber first found s))),
     afterWrites email phoneNumber first found s).
Proof.
  intros Hids. unfold consolidate, afterWrites, downgradeRows.
  set (p := selectPrimary first found).
  set (dg := toDowngrade p found).
  assert (Hdg : forall i, In i (map id dg) -> has_id i (rows s) = true).
  { intros i Hi. apply in_map_iff in Hi. destruct Hi as [c [<- Hc]].
    apply Hids. unfold dg, toDowngrade in Hc. apply filter_In in Hc. tauto. }
  destruct (0 <? Z.of_nat (List.length dg)) eqn:Elen.
  - cbn [run_faulty]. rewrite (updateAll_no_fault _ _ n s Hdg).
    destruct (introducesNewInfo email phoneNumber found); reflexivity.
  - assert (dg = []) as ->.
    { destruct dg; [reflexivity|]. cbn [List.length] in Elen.
      apply Z.ltb_ge in Elen. lia. }
    destruct s as [l ni t].
    destruct (introducesNewInfo email phoneNumber found); reflexivity.
Qed.

Lemma findMany_In (OR : list clause) (l : list Contact) (c : Contact) :
  In c (findMany OR l) <-> In c l /\ existsb (matches c) OR = true.
Proof. unfold findMany. apply filter_In. Qed.

Lemma allLinkedContacts_has_id (email phoneNumber : field) (s : Store) :
  forall c, In c (allLinkedContacts email phoneNumber (rows s)) ->
            has_id (id c) (rows s) = true.
Proof.
  intros c Hc. apply findMany_In in Hc. apply has_id_In.
  exists c. tauto.
Qed.

(** The three outcomes of a request that runs alone. *)
Lemma resolve_cases (email phoneNumber : field) (s : Store) :
  resolve email phoneNumber s =
  if rejected email phoneNumber then (badRequest, s)
  else
    match existingContacts email phoneNumber (rows s),
          allLinkedContacts email phoneNumber (rows s) with
    | _ :: _, first :: rest =>
        (formatView (selectPrimary first (first :: rest))
           (findMany [IdEq (id (selectPrimary first (first :: rest)));
                      LinkedIdEq (id (selectPrimary first (first :: rest)))]
              (rows (afterWrites email phoneNumber first (first :: rest) s))),
         afterWrites email phoneNumber first (first :: rest) s)
    | _, _ =>
        (contactView (next_id s)
           (uniqueNonNull [orNull email]) (uniqueNonNull [orNull phoneNumber]) [],
         mkStore (rows s ++ [newPrimary email phoneNumber s])
           (next_id s + 1) (now s))
    end.
Proof.
  unfold resolve, run, identify. fold (rejected email phoneNumber).
  destruct (rejected email phoneNumber); [reflexivity|].
  cbn [run_faulty no_fault]. fold (existingContacts email phoneNumber (rows s)).
  destruct (existingContacts email phoneNumber (rows s)) as [|sd sds] eqn:Es.
  - reflexivity.
  - cbn [List.length]. 
    replace (Z.of_nat (S (List.length sds)) =? 0) with false
      by (symmetry; apply Z.eqb_neq; lia).
    unfold expand. cbn [run_faulty no_fault].
    rewrite <- Es. fold (allLinkedContacts email phoneNumber (rows s)).
    pose proof (allLinkedContacts_has_id email phoneNumber s) as Hids.
    destruct (allLinkedContacts email phoneNumber (rows s)) as [|first rest].
    + reflexivity.
    + apply run_consolidate. exact Hids.
Qed.

(** The store after an accepted request without a seed. *)
Lemma resolve_unseeded (email phoneNumber : field) (s : Store) :
  rejected email phoneNumber = false ->
  existingContacts email phoneNumber (rows s) = [] ->
  snd (resolve email phoneNumber s)
  = mkStore (rows s ++ [newPrimary email phoneNumber s])
      (next_id s + 1) (now s).
Proof.
  intros R E. rewrite resolve_cases, R, E. reflexivity.
Qed.

Lemma resolve_rejected (email phoneNumber : field) (s : Store) :
  rejected email phoneNumber = true ->
  resolve email phoneNumber s = (badRequest, s).
Proof. intros R. now rewrite resolve_cases, R. Qed.

Lemma resolve_status (email phoneNumber : field) (s : Store) :
  status (fst (resolve email phoneNumber s))
  = if rejected email phoneNumber then 400 else 200.
Proof.
  rewrite resolve_cases. destruct (rejected email phoneNumber); [reflexivity|].
  destruct (existingContacts email phoneNumber (rows s));
    destruct (allLinkedContacts email phoneNumber (rows s)); reflexivity.
Qed.

(** ** Validation *)

(** C6: a request whose email and phone are both absent, null or the empty
    string is answered with status 400 before any storage call: the handler
    is the bare response, and however it is run, failures or not, the store
    is left as it was. *)
Theorem invalid_request_rejected (email phoneNumber : field) :
  In email [Absent; Null; Str ""] ->
  In phoneNumber [Absent; Null; Str ""] ->
  identify email phoneNumber = Respond badRequest /\
  status badRequest = 400 /\
  (forall (f : faults) (n : nat) (s : Store),
      run_faulty f n (identify email phoneNumber) s = (badRequest, s)) /\
  (forall s : Store,
      step (identify email phoneNumber) s = (identify email phoneNumber, s)).
Proof.
  intros He Hp.
  assert (E : identify email phoneNumber = Respond badRequest).
  { cbn in He, Hp.
    destruct He as [<-|[<-|[<-|[]]]]; destruct Hp as [<-|[<-|[<-|[]]]];
      reflexivity. }
  rewrite E. repeat split.
Qed.

Lemma invalid_request_rejected_witness :
  identify Null (Str "") = Respond badRequest /\
  status badRequest = 400 /\
  (forall (f : faults) (n : nat) (s : Store),
      run_faulty f n (identify Null (Str "")) s = (badRequest, s)) /\
  (forall s : Store,
      step (identify Null (Str "")) s = (identify Null (Str ""), s)).
Proof.
  apply (invalid_request_rejected Null (Str "")); simpl; auto.
Defined.

Lemma matches_EmailEq (c : Contact) (e : string) :
  matches c (EmailEq e) = true <-> Contact_email c = Some e.
Proof.
  cbn. destruct (Contact_email c) as [x|].
  - rewrite String.eqb_eq. split; congruence.
  - split; discriminate.
Qed.

Lemma matches_PhoneEq (c : Contact) (p : string) :
  matches c (PhoneEq p) = true <-> Contact_phoneNumber c = Some p.
Proof.
  cbn. destruct (Contact_phoneNumber c) as [x|].
  - rewrite String.eqb_eq. split; congruence.
  - split; discriminate.
Qed.

Lemma eqb_empty_false (p : string) : p <> "" -> (p =? "")%string = false.
Proof. intros H. now apply String.eqb_neq. Qed.

(** ** The response *)

Lemma strings_map_JStr (l : list string) : strings (map JStr l) = l.
Proof. induction l as [|x l IH]; cbn; [reflexivity | now rewrite IH]. Qed.

Lemma response_emails_contactView (i : Z) (es ps : list string) (ids : list Z) :
  response_emails (contactView i es ps ids) = es.
Proof. cbn. apply strings_map_JStr. Qed.

Lemma response_phoneNumbers_contactView (i : Z) (es ps : list string)
    (ids : list Z) :
  response_phoneNumbers (contactView i es ps ids) = ps.
Proof. cbn. apply strings_map_JStr. Qed.

Lemma mem_string_In (x : string) (l : list string) :
  mem_string x l = true <-> In x l.
Proof.
  unfold mem_string. rewrite existsb_exists. split.
  - intros [y [Hy E]]. apply String.eqb_eq in E. now subst.
  - intros H. exists x. split; [assumption | apply String.eqb_refl].
Qed.

Lemma set_from_In (l : list string) :
  forall (seen : list string) (x : string),
    In x (set_from seen l) <-> In x l /\ ~ In x seen.
Proof.
  induction l as [|a l IH]; intros seen x; cbn [set_from].
  - cbn. tauto.
  - destruct (mem_string a seen) eqn:E.
    + apply mem_string_In in E. rewrite IH. cbn. split.
      * tauto.
      * intros [[->|H] N]; [contradiction | tauto].
    + assert (N : ~ In a seen).
      { intros H. apply mem_string_In in H. congruence. }
      cbn. rewrite IH. cbn. split.
      * intros [->|[H1 H2]]; [tauto|]. split; [tauto|]. tauto.
      * intros [[->|H] H2]; [tauto|].
        destruct (string_dec a x) as [->|D]; [tauto|]. right. tauto.
Qed.

Lemma set_from_NoDup (l : list string) :
  forall seen : list string, NoDup (set_from seen l).
Proof.
  induction l as [|a l IH]; intros seen; cbn [set_from].
  - constructor.
  - destruct (mem_string a seen); [apply IH|].
    constructor; [|apply IH].
    rewrite set_from_In. cbn. tauto.
Qed.

Lemma filter_non_null_In (arr : list (option string)) (x : string) :
  In x (filter_non_null arr) <-> In (Some x) arr.
Proof.
  induction arr as [|[v|] arr IH]; cbn.
  - tauto.
  - rewrite IH. split; intros [H|H]; auto; left; congruence.
  - rewrite IH. split; [auto|]. intros [H|H]; [discriminate | assumption].
Qed.

Lemma uniqueNonNull_In (arr : list (option string)) (x : string) :
  In x (uniqueNonNull arr) <-> In (Some x) arr.
Proof.
  unfold uniqueNonNull. rewrite set_from_In, filter_non_null_In. cbn. tauto.
Qed.

Lemma uniqueNonNull_NoDup (arr : list (option string)) :
  NoDup (uniqueNonNull arr).
Proof. apply set_from_NoDup. Qed.

Lemma prependIfPresent_NoDup (arr : list string) (val : option string) :
  NoDup arr -> NoDup (prependIfPresent arr val).
Proof.
  intros H. unfold prependIfPresent. destruct val as [v|]; [|assumption].
  destruct (v =? "")%string; [assumption|].
  constructor.
  - rewrite filter_In. intros [_ E]. rewrite String.eqb_refl in E. discriminate.
  - now apply NoDup_filter.
Qed.

Lemma prependIfPresent_head (arr : list string) (v : string) :
  v <> "" -> hd_error (prependIfPresent arr (Some v)) = Some v.
Proof.
  intros H. unfold prependIfPresent. now rewrite (eqb_empty_false v H).
Qed.

(** The response of an accepted request, in terms of the primary. *)
Lemma resolve_response (email phoneNumber : field) (s : Store) :
  rejected email phoneNumber = false ->
  exists (arrE arrP : list string) (ids : list Z),
    NoDup arrE /\ NoDup arrP /\
    fst (resolve email phoneNumber s)
    = contactView (id (primaryOf email phoneNumber s))
        (prependIfPresent arrE (Contact_email (primaryOf email phoneNumber s)))
        (prependIfPresent arrP (Contact_phoneNumber (primaryOf email phoneNumber s)))
        ids.
Proof.
  intros R. rewrite resolve_cases, R. unfold primaryOf, selectedPrimary.
  assert (Hnew : exists (arrE arrP : list string) (ids : list Z),
    NoDup arrE /\ NoDup arrP /\
    contactView (next_id s)
      (uniqueNonNull [orNull email]) (uniqueNonNull [orNull phoneNumber]) []
    = contactView (id (newPrimary email phoneNumber s))
        (prependIfPresent arrE (Contact_email (newPrimary email phoneNumber s)))
        (prependIfPresent arrP (Contact_phoneNumber (newPrimary email phoneNumber s)))
        ids).
  { exists (uniqueNonNull [orNull email]), (uniqueNonNull [orNull phoneNumber]), [].
    split; [apply uniqueNonNull_NoDup|]. split; [apply uniqueNonNull_NoDup|].
    cbn [newPrimary id Contact_email Contact_phoneNumber].
    f_equal.
    - destruct (orNull email) as [e|]; [|reflexivity].
      cbn. destruct (e =? "")%string; [reflexivity|].
      cbn. now rewrite String.eqb_refl.
    - destruct (orNull phoneNumber) as [e|]; [|reflexivity].
      cbn. destruct (e =? "")%string; [reflexivity|].
      cbn. now rewrite String.eqb_refl. }
  destruct (existingContacts email phoneNumber (rows s)) as [|sd sds];
    [exact Hnew|].
  destruct (allLinkedContacts email phoneNumber (rows s)) as [|first rest];
    [exact Hnew|].
  cbn [fst]. unfold formatView.
  eexists _, _, _. split; [apply uniqueNonNull_NoDup|].
  split; [apply uniqueNonNull_NoDup|]. reflexivity.
Qed.

Lemma accepted_of_status (email phoneNumber : field) (s : Store) :
  status (fst (resolve email phoneNumber s)) = 200 ->
  rejected email phoneNumber = false.
Proof.
  rewrite resolve_status. destruct (rejected email phoneNumber);
    [discriminate | reflexivity].
Qed.

(** C7, counterexample: the primary's email is the empty string; it is in
    the list, after the email of the secondary that storage returns
    first. *)
Lemma primary_value_first_fails :
  ~ primary_value_first_as_stated Absent (Str "1") storeEmptyEmailPrimary.
Proof.
  intros H. destruct (H eq_refl) as [_ [_ [He _]]].
  specialize (He "" eq_refl). vm_compute in He. discriminate He.
Qed.

(** C7, amended: in every successful response the emails and the
    phoneNumbers have no duplicates, and the primary's own email (phone),
    when it is a non-empty string, is the first element of its list. *)
Theorem response_lists_deduplicated (email phoneNumber : field) (s : Store) :
  status (fst (resolve email phoneNumber s)) = 200 ->
  NoDup (response_emails (fst (resolve email phoneNumber s))) /\
  NoDup (response_phoneNumbers (fst (resolve email phoneNumber s))) /\
  (forall v, Contact_email (primaryOf email phoneNumber s) = Some v ->
             v <> "" ->
             hd_error (response_emails (fst (resolve email phoneNumber s)))
             = Some v) /\
  (forall v, Contact_phoneNumber (primaryOf email phoneNumber s) = Some v ->
             v <> "" ->
             hd_error (response_phoneNumbers (fst (resolve email phoneNumber s)))
             = Some v).
Proof.
  intros H. apply accepted_of_status in H.
  destruct (resolve_response email phoneNumber s H)
    as [arrE [arrP [ids [NE [NP E]]]]].
  rewrite E, response_emails_contactView, response_phoneNumbers_contactView.
  split; [now apply prependIfPresent_NoDup|].
  split; [now apply prependIfPresent_NoDup|].
  split; intros v -> Hv; now apply prependIfPresent_head.
Qed.

Lemma response_lists_deduplicated_witness :
  status (fst (resolve (Str "a@x") (Str "1") storeEmptyEmailPrimary)) = 200 /\
  NoDup (response_emails
           (fst (resolve (Str "a@x") (Str "1") storeEmptyEmailPrimary))) /\
  hd_error (response_phoneNumbers
              (fst (resolve (Str "a@x") (Str "1") storeEmptyEmailPrimary)))
  = Some "1".
Proof.
  pose proof (response_lists_deduplicated
                (Str "a@x") (Str "1") storeEmptyEmailPrimary eq_refl) as T.
  split; [reflexivity|]. split.
  - exact (proj1 T).
  - apply (proj2 (proj2 (proj2 T))); [reflexivity | discriminate].
Defined.

(** C8, counterexample: the first request on an empty store succeeds and
    its body is [{ contact: { primaryContatctId: 1, ... } }]: the four
    members are not at the top level and none is named
    [primaryContactId]. *)
Lemma response_shape_fails :
  ~ response_shape_as_stated (Str "a@x") (Str "1") emptyStore.
Proof.
  intros H. destruct (H eq_refl) as [i [es [ps [ids E]]]].
  vm_compute in E. discriminate E.
Qed.

(** C8, amended: every successful response is
    [{ contact: { primaryContatctId, emails, phoneNumbers,
    secondaryContactIds } }] with an integer, two lists of strings and a
    list of integers, and [primaryContatctId] is the id of the selected
    primary, or of the primary row the request has just created. *)
Theorem response_shape (email phoneNumber : field) (s : Store) :
  status (fst (resolve email phoneNumber s)) = 200 ->
  (exists (emails phoneNumbers : list string) (ids : list Z),
      fst (resolve email phoneNumber s)
      = contactView (id (primaryOf email phoneNumber s))
          emails phoneNumbers ids) /\
  (selectedPrimary email phoneNumber (rows s) = None ->
   primaryOf email phoneNumber s = newPrimary email phoneNumber s /\
   linkPrecedence (primaryOf email phoneNumber s) = primary /\
   In (primaryOf email phoneNumber s) (rows (snd (resolve email phoneNumber s)))).
Proof.
  intros H. apply accepted_of_status in H. split.
  - destruct (resolve_response email phoneNumber s H)
      as [arrE [arrP [ids [_ [_ E]]]]].
    rewrite E. eexists _, _, _. reflexivity.
  - intros N. unfold primaryOf. rewrite N.
    split; [reflexivity|]. split; [reflexivity|].
    rewrite resolve_cases, H. unfold selectedPrimary in N.
    destruct (existingContacts email phoneNumber (rows s)) as [|sd sds].
    + cbn. apply in_or_app. right. now left.
    + destruct (allLinkedContacts email phoneNumber (rows s)) as [|f r];
        [|discriminate].
      cbn. apply in_or_app. right. now left.
Qed.

Lemma response_shape_witness :
  status (fst (resolve (Str "a@x") (Str "1") emptyStore)) = 200 /\
  exists (emails phoneNumbers : list string) (ids : list Z),
    fst (resolve (Str "a@x") (Str "1") emptyStore)
    = contactView 1 emails phoneNumbers ids.
Proof.
  split; [reflexivity|].
  exact (proj1 (response_shape (Str "a@x") (Str "1") emptyStore eq_refl)).
Defined.

(** ** Primary selection *)

Lemma fold_older (l : list Contact) :
  forall init : Contact,
    (fold_left older l init = init /\
     forall c, In c l -> createdAt init <= createdAt c)
    \/
    (exists before after,
        l = before ++ fold_left older l init :: after /\
        createdAt (fold_left older l init) < createdAt init /\
        (forall c, In c before ->
                   createdAt (fold_left older l init) < createdAt c) /\
        (forall c, In c after ->
                   createdAt (fold_left older l init) <= createdAt c)).
Proof.
  induction l as [|a l IH]; intros init.
  - left. split; [reflexivity | intros c []].
  - cbn [fold_left]. unfold older at 2 4 6 8 10.
    destruct (createdAt a <? createdAt init) eqn:E.
    + apply Z.ltb_lt in E. right.
      destruct (IH a) as [[Hp Hall] | [b [af [Hl [Hlt [Hb Ha]]]]]].
      * exists [], l. rewrite Hp. cbn. repeat split; auto.
        intros c [].
      * exists (a :: b), af. split; [cbn; now rewrite <- Hl|].
        split; [lia|]. split; [|assumption].
        intros c [<-|Hc]; [assumption | now apply Hb].
    + apply Z.ltb_ge in E.
      destruct (IH init) as [[Hp Hall] | [b [af [Hl [Hlt [Hb Ha]]]]]].
      * left. split; [assumption|].
        intros c [<-|Hc]; [assumption | now apply Hall].
      * right. exists (a :: b), af. split; [cbn; now rewrite <- Hl|].
        split; [assumption|]. split; [|assumption].
        intros c [<-|Hc]; [lia | now apply Hb].
Qed.

Lemma selectPrimary_first_minimum (first : Contact) (rest : list Contact) :
  exists before after,
    first :: rest = before ++ selectPrimary first (first :: rest) :: after /\
    (forall c, In c before ->
               createdAt (selectPrimary first (first :: rest)) < createdAt c) /\
    (forall c, In c after ->
               createdAt (selectPrimary first (first :: rest)) <= createdAt c).
Proof.
  unfold selectPrimary. cbn [fold_left]. unfold older at 2 4 6.
  rewrite Z.ltb_irrefl.
  destruct (fold_older rest first) as [[Hp Hall] | [b [af [Hl [Hlt [Hb Ha]]]]]].
  - exists [], rest. rewrite Hp. cbn. repeat split; auto. intros c [].
  - exists (first :: b), af. split; [cbn; now rewrite <- Hl|].
    split; [|assumption].
    intros c [<-|Hc]; [assumption | now apply Hb].
Qed.

(** C3, counterexample: two rows found with the same [createdAt]; the
    one storage returns first is selected, and it has the larger id. *)
Lemma primary_selection_fails :
  ~ primary_selection_as_stated (Str "a@x") Absent rowsSameInstant.
Proof.
  intros H. destruct (H _ eq_refl) as [_ [_ Hid]].
  specialize (Hid (mkContact 1 (Some "a@x") (Some "1") primary None 5 5)).
  cbn in Hid. assert (2 <= 1) by (apply Hid; auto). lia.
Qed.

(** C3, amended: the selected primary, whose id the response carries, is
    a row the expansion query found, none of the rows found has a smaller
    [createdAt], whatever the [linkPrecedence] of any of them, and among
    the rows that share the smallest [createdAt] it is the one storage
    returned first (hence the one with the smallest id when storage
    returns rows in id order). *)
Theorem primary_selection (email phoneNumber : field) (s : Store)
    (thePrimary : Contact) :
  selectedPrimary email phoneNumber (rows s) = Some thePrimary ->
  (rejected email phoneNumber = false ->
   exists (emails phoneNumbers : list string) (ids : list Z),
     fst (resolve email phoneNumber s)
     = contactView (id thePrimary) emails phoneNumbers ids) /\
  In thePrimary (allLinkedContacts email phoneNumber (rows s)) /\
  (forall c, In c (allLinkedContacts email phoneNumber (rows s)) ->
             createdAt thePrimary <= createdAt c) /\
  (exists before after,
      allLinkedContacts email phoneNumber (rows s)
      = before ++ thePrimary :: after /\
      forall c, In c before -> createdAt thePrimary < createdAt c) /\
  (ascendingIds (allLinkedContacts email phoneNumber (rows s)) ->
   forall c, In c (allLinkedContacts email phoneNumber (rows s)) ->
             createdAt c = createdAt thePrimary -> id thePrimary <= id c).
Proof.
  intros Hsel. split.
  { intros R.
    destruct (resolve_response email phoneNumber s R)
      as [arrE [arrP [ids [_ [_ E]]]]].
    unfold primaryOf in E. rewrite Hsel in E.
    eexists _, _, _. exact E. }
  revert Hsel. unfold selectedPrimary.
  destruct (existingContacts email phoneNumber (rows s)) as [|sd sds];
    [discriminate|].
  destruct (allLinkedContacts email phoneNumber (rows s)) as [|first rest];
    [discriminate|].
  intros E.
  assert (thePrimary = selectPrimary first (first :: rest)) as ->
      by congruence.
  clear E.
  destruct (selectPrimary_first_minimum first rest)
    as [before [after [Hl [Hb Ha]]]].
  set (p := selectPrimary first (first :: rest)) in *.
  assert (Hmin : forall c, In c (first :: rest) -> createdAt p <= createdAt c).
  { intros c Hc. rewrite Hl in Hc. apply in_app_or in Hc.
    destruct Hc as [Hc | [<- | Hc]];
      [specialize (Hb c Hc); lia | lia | now apply Ha]. }
  split; [rewrite Hl; apply in_or_app; right; now left|].
  split; [exact Hmin|]. split.
  - exists before, after. split; assumption.
  - intros Hasc c Hc Heq. rewrite Hl in Hc. apply in_app_or in Hc.
    destruct Hc as [Hc | [<- | Hc]].
    + specialize (Hb c Hc). lia.
    + lia.
    + specialize (Hasc before p after c Hl Hc). lia.
Qed.

Lemma primary_selection_witness :
  selectedPrimary (Str "a@x") Absent (rows storeSameInstant)
  = Some (mkContact 2 (Some "a@x") (Some "2") secondary (Some 1) 5 5) /\
  forall c, In c (allLinkedContacts (Str "a@x") Absent (rows storeSameInstant)) ->
            5 <= createdAt c.
Proof.
  split; [reflexivity|].
  exact (proj1 (proj2 (proj2 (primary_selection (Str "a@x") Absent
                                storeSameInstant _ eq_refl)))).
Defined.

(** ** Seeds and expansion *)

Lemma opt_string_eqb_eq (a b : option string) :
  opt_string_eqb a b = true <-> a = b.
Proof.
  destruct a as [x|], b as [y|]; cbn; try (split; congruence).
  rewrite String.eqb_eq. split; congruence.
Qed.

(** A seed of an accepted request carries the request's email or its
    phone. *)
Lemma seed_carries_input (email phoneNumber : field) (l : list Contact)
    (sd : Contact) :
  rejected email phoneNumber = false ->
  In sd (existingContacts email phoneNumber l) ->
  In sd l /\
  ((exists v, email = Str v /\ Contact_email sd = Some v) \/
   (exists v, phoneNumber = Str v /\ Contact_phoneNumber sd = Some v)).
Proof.
  intros R H. unfold existingContacts in H. apply findMany_In in H.
  destruct H as [Hin Hm]. split; [assumption|].
  destruct email as [| |e], phoneNumber as [| |p];
    try (cbn in R; discriminate R);
    cbn in Hm; rewrite ?orb_false_r in Hm.
  - right. exists p. split; [reflexivity|]. now apply matches_PhoneEq.
  - right. exists p. split; [reflexivity|]. now apply matches_PhoneEq.
  - left. exists e. split; [reflexivity|]. now apply matches_EmailEq.
  - left. exists e. split; [reflexivity|]. now apply matches_EmailEq.
  - apply orb_true_iff in Hm. destruct Hm as [Hm|Hm].
    + left. exists e. split; [reflexivity|]. now apply matches_EmailEq.
    + right. exists p. split; [reflexivity|]. now apply matches_PhoneEq.
Qed.

Lemma existingContacts_In (email phoneNumber : field) (l : list Contact)
    (c : Contact) :
  rejected email phoneNumber = false ->
  (In c (existingContacts email phoneNumber l) <->
   In c l /\
   ((exists v, email = Str v /\ Contact_email c = Some v) \/
    (exists v, phoneNumber = Str v /\ Contact_phoneNumber c = Some v))).
Proof.
  intros R. split; [now apply seed_carries_input|].
  intros [Hin H]. unfold existingContacts. apply findMany_In.
  split; [assumption|].
  destruct H as [[v [-> E]] | [v [-> E]]].
  - apply matches_EmailEq in E. cbn [orUndefined buildWhereOrForSingleLookup].
    destruct (orUndefined phoneNumber); cbn [app List.length Z.of_nat];
      cbn; cbn in E; rewrite E; reflexivity.
  - apply matches_PhoneEq in E.
    destruct email as [| |e]; cbn; cbn in E; rewrite E;
      rewrite ?orb_true_r; reflexivity.
Qed.

Lemma expansion_clauses (c : Contact) (E P : list string) :
  existsb (matches c)
    ((if 0 <? Z.of_nat (List.length E) then [EmailIn E] else []) ++
     (if 0 <? Z.of_nat (List.length P) then [PhoneIn P] else []))
  = (match Contact_email c with Some x => mem_string x E | None => false end
     || match Contact_phoneNumber c with Some x => mem_string x P | None => false end).
Proof.
  destruct E as [|e E], P as [|p P]; cbn [List.length];
    repeat match goal with
      | |- context [0 <? Z.of_nat (S ?n)] =>
          replace (0 <? Z.of_nat (S n)) with true
            by (symmetry; apply Z.ltb_lt; lia)
      end;
    unfold mem_string;
    cbn [Z.of_nat Z.ltb Z.compare app existsb matches];
    destruct (Contact_email c), (Contact_phoneNumber c);
    rewrite ?orb_false_r; reflexivity.
Qed.

Lemma whereExpansion_matches (email phoneNumber : field)
    (seeds : list Contact) (c : Contact) :
  (exists sd v, In sd seeds /\
                (Contact_email sd = Some v \/ Contact_phoneNumber sd = Some v)) ->
  (existsb (matches c) (whereExpansion email phoneNumber seeds) = true <->
   exists sd, In sd seeds /\ shares sd c).
Proof.
  intros Hne. unfold whereExpansion.
  set (E := uniqueNonNull (map Contact_email seeds)).
  set (P := uniqueNonNull (map Contact_phoneNumber seeds)).
  assert (HE : forall v, In v E <-> exists sd, In sd seeds /\ Contact_email sd = Some v).
  { intros v. unfold E. rewrite uniqueNonNull_In, in_map_iff.
    split; intros [sd H]; exists sd; tauto. }
  assert (HP : forall v, In v P <->
                         exists sd, In sd seeds /\ Contact_phoneNumber sd = Some v).
  { intros v. unfold P. rewrite uniqueNonNull_In, in_map_iff.
    split; intros [sd H]; exists sd; tauto. }
  assert (Hlen : (0 <? Z.of_nat
                    (List.length
                       ((if 0 <? Z.of_nat (List.length E) then [EmailIn E] else []) ++
                        (if 0 <? Z.of_nat (List.length P) then [PhoneIn P] else []))))
                 = true).
  { destruct Hne as [sd [v [Hsd [Hv|Hv]]]].
    - assert (In v E) by (apply HE; eauto).
      destruct E; [contradiction|]. reflexivity.
    - assert (In v P) by (apply HP; eauto).
      destruct P; [contradiction|].
      destruct (0 <? Z.of_nat (List.length E)); reflexivity. }
  rewrite Hlen, expansion_clauses, orb_true_iff. unfold shares. split.
  - intros [H|H].
    + destruct (Contact_email c) as [x|]; [|discriminate].
      apply mem_string_In, HE in H. destruct H as [sd [Hsd Hx]].
      exists sd. split; [assumption|]. left. exists x. tauto.
    + destruct (Contact_phoneNumber c) as [x|]; [|discriminate].
      apply mem_string_In, HP in H. destruct H as [sd [Hsd Hx]].
      exists sd. split; [assumption|]. right. exists x. tauto.
  - intros [sd [Hsd [[v [H1 H2]] | [v [H1 H2]]]]].
    + left. rewrite H2. apply mem_string_In, HE. eauto.
    + right. rewrite H2. apply mem_string_In, HP. eauto.
Qed.

(** What the expansion query returns: the rows that share an email or a
    phone with a seed. *)
Lemma allLinkedContacts_In (email phoneNumber : field) (l : list Contact)
    (c : Contact) :
  rejected email phoneNumber = false ->
  existingContacts email phoneNumber l <> [] ->
  (In c (allLinkedContacts email phoneNumber l) <->
   In c l /\ exists sd, In sd (existingContacts email phoneNumber l) /\
                        shares sd c).
Proof.
  intros R Hne. unfold allLinkedContacts. rewrite findMany_In.
  rewrite whereExpansion_matches; [reflexivity|].
  destruct (existingContacts email phoneNumber l) as [|sd sds] eqn:Es;
    [contradiction|].
  assert (Hsd : In sd (existingContacts email phoneNumber l))
    by (rewrite Es; now left).
  destruct (seed_carries_input _ _ _ _ R Hsd) as [_ [[v [_ H]]|[v [_ H]]]];
    exists sd, v; split; try (now left); tauto.
Qed.

Lemma shares_refl_seed (email phoneNumber : field) (l : list Contact)
    (sd : Contact) :
  rejected email phoneNumber = false ->
  In sd (existingContacts email phoneNumber l) -> shares sd sd.
Proof.
  intros R H.
  destruct (seed_carries_input _ _ _ _ R H) as [_ [[v [_ E]]|[v [_ E]]]];
    [left | right]; exists v; tauto.
Qed.

Lemma seeds_in_allLinkedContacts (email phoneNumber : field)
    (l : list Contact) (sd : Contact) :
  rejected email phoneNumber = false ->
  In sd (existingContacts email phoneNumber l) ->
  In sd (allLinkedContacts email phoneNumber l).
Proof.
  intros R H. apply allLinkedContacts_In; [assumption | | ].
  - intros E. rewrite E in H. contradiction.
  - split; [apply (seed_carries_input _ _ _ _ R H)|].
    exists sd. split; [assumption|]. now apply shares_refl_seed with email phoneNumber l.
Qed.

(** With a seed, an accepted request reaches step 4. *)
Lemma seeded_selects (email phoneNumber : field) (l : list Contact) :
  rejected email phoneNumber = false ->
  existingContacts email phoneNumber l <> [] ->
  exists sd sds first rest,
    existingContacts email phoneNumber l = sd :: sds /\
    allLinkedContacts email phoneNumber l = first :: rest /\
    selectedPrimary email phoneNumber l
    = Some (selectPrimary first (first :: rest)).
Proof.
  intros R Hne. unfold selectedPrimary.
  destruct (existingContacts email phoneNumber l) as [|sd sds] eqn:Es;
    [contradiction|].
  assert (Hsd : In sd (allLinkedContacts email phoneNumber l)).
  { apply seeds_in_allLinkedContacts; [assumption|]. rewrite Es. now left. }
  destruct (allLinkedContacts email phoneNumber l) as [|first rest];
    [contradiction|].
  exists sd, sds, first, rest. repeat split.
Qed.

(** With a seed, the handler goes on from the expansion query to steps 4
    to 8 with the rows that query returned. *)
Lemma resolve_consolidates (email phoneNumber : field) (s : Store) :
  rejected email phoneNumber = false ->
  existingContacts email phoneNumber (rows s) <> [] ->
  exists first rest,
    allLinkedContacts email phoneNumber (rows s) = first :: rest /\
    resolve email phoneNumber s
    = run (consolidate email phoneNumber first (first :: rest)) s.
Proof.
  intros R Hne.
  destruct (seeded_selects email phoneNumber (rows s) R Hne)
    as [sd [sds [first [rest [Es [Ea _]]]]]].
  exists first, rest. split; [assumption|].
  rewrite resolve_cases, R, Es, Ea. symmetry. apply run_consolidate.
  rewrite <- Ea. apply allLinkedContacts_has_id.
Qed.

(** C2, counterexample: the request matches the first row of the chain;
    the expansion query finds the second through the shared phone, but not
    the third, which only the second's email reaches. *)
Lemma expansion_is_component_fails :
  ~ expansion_is_component_as_stated (Str "e1") Absent rowsChain.
Proof.
  intros H.
  assert (Hne : existingContacts (Str "e1") Absent rowsChain <> [])
    by (vm_compute; discriminate).
  pose proof (proj2 (H eq_refl Hne
                       (mkContact 3 (Some "e2") (Some "p3") secondary (Some 1) 3 3)))
    as Hin.
  assert (Hc : inComponent (Str "e1") Absent rowsChain
                 (mkContact 3 (Some "e2") (Some "p3") secondary (Some 1) 3 3)).
  { split; [cbn; tauto|].
    exists (mkContact 1 (Some "e1") (Some "p1") primary None 1 1).
    split; [vm_compute; tauto|].
    apply rt_trans
      with (y := mkContact 2 (Some "e2") (Some "p1") secondary (Some 1) 2 2);
      apply rt_step; (split; [cbn; tauto|]); (split; [cbn; tauto|]).
    - right. exists "p1". split; reflexivity.
    - left. exists "e2". split; reflexivity. }
  specialize (Hin Hc). vm_compute in Hin.
  destruct Hin as [Hin|[Hin|[]]]; discriminate Hin.
Qed.

(** C2, amended: with a seed, the handler goes on with the rows the
    expansion query returns, and these are exactly the rows that share an
    email or a phone with some seed (one sharing hop from a seed); they
    include every seed and all belong to the component of the input. *)
Theorem expansion_is_one_hop (email phoneNumber : field) (s : Store) :
  rejected email phoneNumber = false ->
  existingContacts email phoneNumber (rows s) <> [] ->
  (exists first rest,
      allLinkedContacts email phoneNumber (rows s) = first :: rest /\
      resolve email phoneNumber s
      = run (consolidate email phoneNumber first (first :: rest)) s) /\
  (forall c, In c (allLinkedContacts email phoneNumber (rows s)) <->
             In c (rows s) /\
             exists sd, In sd (existingContacts email phoneNumber (rows s)) /\
                        shares sd c) /\
  (forall sd, In sd (existingContacts email phoneNumber (rows s)) ->
              In sd (allLinkedContacts email phoneNumber (rows s))) /\
  (forall c, In c (allLinkedContacts email phoneNumber (rows s)) ->
             inComponent email phoneNumber (rows s) c).
Proof.
  intros R Hne. split; [now apply resolve_consolidates|]. split; [|split].
  - intros c. now apply allLinkedContacts_In.
  - intros sd. now apply seeds_in_allLinkedContacts.
  - intros c Hc. apply allLinkedContacts_In in Hc; try assumption.
    destruct Hc as [Hin [sd [Hsd Hsh]]]. split; [assumption|].
    exists sd. split; [assumption|]. apply rt_step.
    split; [apply (seed_carries_input _ _ _ _ R Hsd)|]. tauto.
Qed.

Lemma expansion_is_one_hop_witness :
  rejected (Str "e1") Absent = false /\
  existingContacts (Str "e1") Absent (rows storeChain) <> [] /\
  forall sd, In sd (existingContacts (Str "e1") Absent (rows storeChain)) ->
             In sd (allLinkedContacts (Str "e1") Absent (rows storeChain)).
Proof.
  assert (Hne : existingContacts (Str "e1") Absent (rows storeChain) <> [])
    by (vm_compute; discriminate).
  split; [reflexivity|]. split; [exact Hne|].
  exact (proj1 (proj2 (proj2 (expansion_is_one_hop (Str "e1") Absent storeChain
                                eq_refl Hne)))).
Defined.

(** ** New-fact detection *)

Lemma hasSameTuple_spec (email phoneNumber : field) (found : list Contact) :
  hasSameTuple email phoneNumber found = true <->
  pairPresent email phoneNumber found.
Proof.
  unfold hasSameTuple, pairPresent. rewrite existsb_exists.
  split; intros [c [Hc H]]; exists c; split; try assumption.
  - apply andb_true_iff in H. rewrite !opt_string_eqb_eq in H.
    destruct H; split; congruence.
  - apply andb_true_iff. rewrite !opt_string_eqb_eq.
    destruct H; split; congruence.
Qed.

Lemma existsb_false_forall {A : Type} (f : A -> bool) (l : list A) :
  existsb f l = false <-> forall x, In x l -> f x = false.
Proof.
  induction l as [|a l IH]; cbn.
  - split; [intros _ x [] | reflexivity].
  - rewrite orb_false_iff, IH. split.
    + intros [Ha Hl] x [<-|Hx]; auto.
    + intros H. split; [apply H; now left | intros x Hx; apply H; now right].
Qed.

Lemma email_is_new_spec (email : field) (found : list Contact) :
  truthy email && negb (alreadyHasEmail email found) = true <->
  emailNew email found.
Proof.
  unfold alreadyHasEmail, emailNew. destruct email as [| |v]; cbn.
  - split; [discriminate | intros [v [H _]]; discriminate H].
  - split; [discriminate | intros [v [H _]]; discriminate H].
  - destruct (v =? "")%string eqn:E; cbn.
    + apply String.eqb_eq in E. split; [discriminate|].
      intros [w [[= <-] [N _]]]. contradiction.
    + apply String.eqb_neq in E. rewrite negb_true_iff, existsb_false_forall.
      split.
      * intros H. exists v. repeat split; [assumption|].
        intros c Hc Hv. specialize (H c Hc).
        rewrite Hv in H. cbn in H. rewrite String.eqb_refl in H. discriminate.
      * intros [w [[= <-] [_ H]]] c Hc.
        destruct (opt_string_eqb (Contact_email c) (Some v)) eqn:Eq;
          [|reflexivity].
        apply opt_string_eqb_eq in Eq. now apply H in Eq.
Qed.

Lemma phone_is_new_spec (phoneNumber : field) (found : list Contact) :
  truthy phoneNumber && negb (alreadyHasPhone phoneNumber found) = true <->
  phoneNew phoneNumber found.
Proof.
  unfold alreadyHasPhone, phoneNew. destruct phoneNumber as [| |v]; cbn.
  - split; [discriminate | intros [v [H _]]; discriminate H].
  - split; [discriminate | intros [v [H _]]; discriminate H].
  - destruct (v =? "")%string eqn:E; cbn.
    + apply String.eqb_eq in E. split; [discriminate|].
      intros [w [[= <-] [N _]]]. contradiction.
    + apply String.eqb_neq in E. rewrite negb_true_iff, existsb_false_forall.
      split.
      * intros H. exists v. repeat split; [assumption|].
        intros c Hc Hv. specialize (H c Hc).
        rewrite Hv in H. cbn in H. rewrite String.eqb_refl in H. discriminate.
      * intros [w [[= <-] [_ H]]] c Hc.
        destruct (opt_string_eqb (Contact_phoneNumber c) (Some v)) eqn:Eq;
          [|reflexivity].
        apply opt_string_eqb_eq in Eq. now apply H in Eq.
Qed.

Lemma introducesNewInfo_spec (email phoneNumber : field)
    (found : list Contact) :
  introducesNewInfo email phoneNumber found = true <->
  ~ pairPresent email phoneNumber found /\
  (emailNew email found \/ phoneNew phoneNumber found).
Proof.
  unfold introducesNewInfo.
  rewrite andb_true_iff, orb_true_iff, negb_true_iff,
    email_is_new_spec, phone_is_new_spec.
  rewrite <- hasSameTuple_spec.
  destruct (hasSameTuple email phoneNumber found); split; intros [H1 H2].
  - discriminate.
  - exfalso. now apply H1.
  - split; [discriminate | assumption].
  - split; [reflexivity | assumption].
Qed.

Lemma length_downgradeRows (p : Contact) (targets : list Contact) (t : Z)
    (l : list Contact) :
  List.length (downgradeRows p targets t l) = List.length l.
Proof.
  unfold downgradeRows.
  rewrite <- (length_map id), map_id_fold_update. apply length_map.
Qed.

(** The store after an accepted request with a seed. *)
Lemma resolve_seeded (email phoneNumber : field) (s : Store) :
  rejected email phoneNumber = false ->
  existingContacts email phoneNumber (rows s) <> [] ->
  exists first rest,
    allLinkedContacts email phoneNumber (rows s) = first :: rest /\
    selectedPrimary email phoneNumber (rows s)
    = Some (selectPrimary first (first :: rest)) /\
    snd (resolve email phoneNumber s)
    = afterWrites email phoneNumber first (first :: rest) s.
Proof.
  intros R Hne.
  destruct (seeded_selects email phoneNumber (rows s) R Hne)
    as [sd [sds [first [rest [Es [Ea Ep]]]]]].
  exists first, rest. split; [assumption|]. split; [assumption|].
  rewrite resolve_cases, R, Es, Ea. reflexivity.
Qed.

(** C5, counterexample: email [""] with a known phone.  The pair is on no
    row and the email [""] is on no row, yet no row is inserted. *)
Lemma new_fact_fails :
  ~ new_fact_as_stated (Str "") (Str "1") storeOneContact.
Proof.
  intros H.
  assert (Hne : existingContacts (Str "") (Str "1") (rows storeOneContact) <> [])
    by (vm_compute; discriminate).
  destruct (H eq_refl Hne) as [_ Hins].
  destruct Hins as [kept [p [_ [Hrows Hlen]]]].
  - split.
    + intros [c [Hc [He _]]]. vm_compute in Hc.
      destruct Hc as [<-|[]]. discriminate He.
    + left. exists "". split; [reflexivity|].
      intros c Hc. vm_compute in Hc. destruct Hc as [<-|[]]. discriminate.
  - apply (f_equal (@List.length Contact)) in Hrows.
    rewrite length_app, Hlen in Hrows. cbn in Hrows. lia.
Qed.

(** C5, amended: with a seed, a row is inserted, as a secondary linked to
    the selected primary, exactly when the incoming pair is on no row
    found and one side of it is a non-empty string that no row found
    carries.  When both sides are known, or empty, nothing is inserted. *)
Theorem new_fact_detection (email phoneNumber : field) (s : Store) :
  rejected email phoneNumber = false ->
  existingContacts email phoneNumber (rows s) <> [] ->
  (insertsSecondary email phoneNumber s <->
   ~ pairPresent email phoneNumber
       (allLinkedContacts email phoneNumber (rows s)) /\
   (emailNew email (allLinkedContacts email phoneNumber (rows s)) \/
    phoneNew phoneNumber (allLinkedContacts email phoneNumber (rows s)))) /\
  (~ insertsSecondary email phoneNumber s ->
   List.length (rows (snd (resolve email phoneNumber s)))
   = List.length (rows s)).
Proof.
  intros R Hne.
  destruct (resolve_seeded email phoneNumber s R Hne)
    as [first [rest [Ea [Ep Es]]]].
  rewrite <- introducesNewInfo_spec. unfold insertsSecondary.
  rewrite Ep, Es, Ea. unfold afterWrites.
  set (p := selectPrimary first (first :: rest)).
  destruct (introducesNewInfo email phoneNumber (first :: rest)); cbn [rows].
  - split.
    + split; [reflexivity|]. intros _.
      eexists _, p. split; [reflexivity|]. split; [reflexivity|].
      apply length_downgradeRows.
    + intros N. exfalso. apply N.
      eexists _, p. split; [reflexivity|]. split; [reflexivity|].
      apply length_downgradeRows.
  - split.
    + split; [|discriminate].
      intros [kept [q [_ [Hrows Hlen]]]].
      apply (f_equal (@List.length Contact)) in Hrows.
      rewrite length_downgradeRows, length_app, Hlen in Hrows.
      cbn in Hrows. lia.
    + intros _. apply length_downgradeRows.
Qed.

Lemma new_fact_detection_witness :
  rejected (Str "b@x") (Str "1") = false /\
  existingContacts (Str "b@x") (Str "1") (rows storeOneContact) <> [] /\
  insertsSecondary (Str "b@x") (Str "1") storeOneContact.
Proof.
  assert (Hne : existingContacts (Str "b@x") (Str "1") (rows storeOneContact)
                <> []) by (vm_compute; discriminate).
  split; [reflexivity|]. split; [exact Hne|].
  apply (proj1 (new_fact_detection (Str "b@x") (Str "1") storeOneContact
                  eq_refl Hne)).
  split.
  - intros [c [Hc [He _]]]. vm_compute in Hc.
    destruct Hc as [<-|[]]. discriminate He.
  - left. exists "b@x". split; [reflexivity|]. split; [discriminate|].
    intros c Hc. vm_compute in Hc. destruct Hc as [<-|[]]. discriminate.
Defined.

(** ** Failures of the store *)

Lemma mem_Z_In (i : Z) (l : list Z) : mem_Z i l = true <-> In i l.
Proof.
  unfold mem_Z. rewrite existsb_exists. split.
  - intros [j [Hj E]]. apply Z.eqb_eq in E. now subst.
  - intros H. exists i. split; [assumption | apply Z.eqb_refl].
Qed.

Lemma updatedRows_cons (i : Z) (done : list Z) (d : updateData) (t : Z)
    (l : list Contact) :
  Permutation (updatedRows done d t (update_rows i d t l))
    (updatedRows (i :: done) d t l).
Proof.
  unfold updatedRows at 1.
  rewrite (Permutation_map _ (update_rows_perm i d t l)).
  unfold updatedRows. rewrite map_map.
  rewrite (map_ext
             (fun c =>
                if mem_Z (id (if id c =? i then apply_update d t c else c))
                     done
                then apply_update d t
                       (if id c =? i then apply_update d t c else c)
                else if id c =? i then apply_update d t c else c)
             (fun c => if mem_Z (id c) (i :: done)
                       then apply_update d t c else c)); [reflexivity|].
  intros c. unfold mem_Z. cbn [existsb].
  destruct (id c =? i) eqn:E; cbn [orb id apply_update].
  - destruct (existsb (Z.eqb (id c)) done); reflexivity.
  - reflexivity.
Qed.

Lemma updatedRows_nil (d : updateData) (t : Z) (l : list Contact) :
  updatedRows [] d t l = l.
Proof. unfold updatedRows. cbn. apply map_id. Qed.

(** The updates of step 5, up to the order of the rows. *)
Lemma fold_update_updatedRows (d : updateData) (t : Z) (ids : list Z) :
  forall l,
    Permutation (fold_left (fun acc i => update_rows i d t acc) ids l)
      (updatedRows ids d t l).
Proof.
  induction ids as [|i ids IH]; intros l; cbn [fold_left].
  - rewrite updatedRows_nil. reflexivity.
  - rewrite IH. apply updatedRows_cons.
Qed.

Lemma appliedUpdates_updatedRows (ids : list Z) (d : updateData) (t : Z)
    (l : list Contact) :
  Permutation (appliedUpdates ids d t l) (updatedRows ids d t l).
Proof. apply fold_update_updatedRows. Qed.

(** The rows after steps 5 and 6, up to their order: the rows of the
    store, those to downgrade rewritten, and the inserted row if any. *)
Lemma afterWrites_updated (email phoneNumber : field) (first : Contact)
    (found : list Contact) (s : Store) :
  Permutation (rows (afterWrites email phoneNumber first found s))
    (updatedRows (map id (toDowngrade (selectPrimary first found) found))
       (mkUpdate secondary (Some (id (selectPrimary first found))))
       (now s) (rows s) ++
     (if introducesNewInfo email phoneNumber found
      then [newSecondary email phoneNumber (selectPrimary first found) s]
      else [])).
Proof.
  unfold afterWrites, downgradeRows.
  destruct (introducesNewInfo email phoneNumber found); cbn [rows].
  - apply Permutation_app_tail, fold_update_updatedRows.
  - rewrite app_nil_r. apply fold_update_updatedRows.
Qed.

Lemma updatedRows_partial (done ids : list Z) (d : updateData) (t : Z)
    (l : list Contact) (c : Contact) :
  incl done ids ->
  In c (updatedRows done d t l) ->
  In c l \/ In c (updatedRows ids d t l).
Proof.
  intros Hincl Hc. unfold updatedRows in *. apply in_map_iff in Hc.
  destruct Hc as [c0 [E Hc0]].
  destruct (mem_Z (id c0) done) eqn:M.
  - right. apply in_map_iff. exists c0. split; [|assumption].
    apply mem_Z_In, Hincl, mem_Z_In in M. now rewrite M.
  - left. now subst.
Qed.

(** The store after a [Promise.all] of updates, some of which fail: the
    updates of [done], a part of the ids, have been applied. *)
Lemma updateAll_rows (f : faults) (d : updateData) (ids : list Z) :
  forall (n : nat) (s : Store),
  exists done,
    incl done ids /\
    snd (updateAll f n ids d s)
    = mkStore (appliedUpdates done d (now s) (rows s)) (next_id s) (now s) /\
    (fst (updateAll f n ids d s) = true -> done = ids).
Proof.
  induction ids as [|i ids IH]; intros n s.
  - exists []. split; [apply incl_refl|]. split; [|reflexivity].
    cbn. now destruct s.
  - cbn [updateAll].
    destruct (f n).
    + destruct (IH (S n) s) as [done [Hi [Hs _]]].
      exists done. split; [now apply incl_tl|]. split; [exact Hs|].
      discriminate.
    + destruct (update i d s) as [s1|] eqn:U.
      * unfold update in U.
        destruct (existsb (fun c => id c =? i) (rows s)); [|discriminate].
        injection U as <-.
        destruct (IH (S n)
                    (mkStore (update_rows i d (now s) (rows s))
                       (next_id s) (now s)))
          as [done [Hi [Hs Hok]]].
        exists (i :: done). split.
        { intros x [<-|Hx]; [now left | right; now apply Hi]. }
        split; [exact Hs|].
        intros H. now rewrite (Hok H).
      * destruct (IH (S n) s) as [done [Hi [Hs _]]].
        exists done. split; [now apply incl_tl|]. split; [exact Hs|].
        discriminate.
Qed.

Lemma updateAll_ext (f g : faults) (d : updateData) (ids : list Z) :
  (forall n, f n = g n) ->
  forall (n : nat) (s : Store), updateAll f n ids d s = updateAll g n ids d s.
Proof.
  intros E. induction ids as [|i ids IH]; intros n s; cbn [updateAll].
  - reflexivity.
  - rewrite (E n). destruct (g n); [now rewrite IH|].
    destruct (update i d s); now rewrite IH.
Qed.

Lemma run_faulty_ext (f g : faults) (p : prog) :
  (forall n, f n = g n) ->
  forall (n : nat) (s : Store), run_faulty f n p s = run_faulty g n p s.
Proof.
  intros E. induction p as [r | OR k IH | d k IH | ids d k IH]; intros n s;
    cbn [run_faulty].
  - reflexivity.
  - rewrite (E n). destruct (g n); [reflexivity | apply IH].
  - rewrite (E n). destruct (g n); [reflexivity|].
    destruct (create d s). apply IH.
  - rewrite (updateAll_ext f g d ids E).
    destruct (updateAll g n ids d s) as [[|] s1]; [apply IH | reflexivity].
Qed.

Lemma faulty_createNewPrimary (f : faults) (n : nat)
    (email phoneNumber : field) (s : Store) :
  run_faulty f n (createNewPrimary email phoneNumber) s = (internalError, s) \/
  run_faulty f n (createNewPrimary email phoneNumber) s
  = run_faulty no_fault n (createNewPrimary email phoneNumber) s.
Proof.
  unfold createNewPrimary. cbn [run_faulty no_fault].
  destruct (f n); [now left | now right].
Qed.

Lemma faulty_snapshot (f : faults) (n : nat) (p : Contact) (s : Store) :
  snd (run_faulty f n (snapshot p) s) = s /\
  (fst (run_faulty f n (snapshot p) s) = internalError \/
   run_faulty f n (snapshot p) s = run_faulty no_fault n (snapshot p) s).
Proof.
  unfold snapshot. cbn [run_faulty no_fault].
  destruct (f n); split; auto.
Qed.

(** Step 6 and the snapshot, on a store that may fail. *)
Lemma faulty_insert (f : faults) (n : nat) (b : bool) (d : createData)
    (p : Contact) (s : Store) :
  let prog := if b then Create d (fun _ => snapshot p) else snapshot p in
  (fst (run_faulty f n prog s) = internalError \/
   run_faulty f n prog s = run_faulty no_fault n prog s) /\
  (snd (run_faulty f n prog s) = s \/
   snd (run_faulty f n prog s) = snd (run_faulty no_fault n prog s)) /\
  (forall c, In c (rows s) -> In c (rows (snd (run_faulty no_fault n prog s)))).
Proof.
  destruct b; cbn zeta.
  - cbn [run_faulty no_fault create].
    destruct (f n).
    + split; [now left|]. split; [now left|].
      intros c Hc. cbn. apply in_or_app. now left.
    + unfold snapshot. cbn [run_faulty no_fault].
      destruct (f (S n)); cbn [fst snd rows];
        (split; [auto|]); (split; [auto|]);
        intros c Hc; apply in_or_app; now left.
  - destruct (faulty_snapshot f n p s) as [Hs Hr].
    split; [exact Hr|]. split; [now left|].
    intros c Hc. now rewrite (proj1 (faulty_snapshot no_fault n p s)).
Qed.

Lemma faulty_consolidate (f : faults) (n : nat) (email phoneNumber : field)
    (first : Contact) (found : list Contact) (s : Store) :
  (forall c, In c found -> has_id (id c) (rows s) = true) ->
  (fst (run_faulty f n (consolidate email phoneNumber first found) s)
   = internalError \/
   run_faulty f n (consolidate email phoneNumber first found) s
   = run_faulty no_fault n (consolidate email phoneNumber first found) s) /\
  (forall c,
      In c (rows (snd (run_faulty f n
                         (consolidate email phoneNumber first found) s))) ->
      In c (rows s) \/
      In c (rows (snd (run_faulty no_fault n
                         (consolidate email phoneNumber first found) s)))).
Proof.
  intros Hids. unfold consolidate.
  set (p := selectPrimary first found).
  set (dg := toDowngrade p found).
  set (d := mkUpdate secondary (Some (id p))).
  set (b := introducesNewInfo email phoneNumber found).
  set (cd := mkCreate (orNull email) (orNull phoneNumber) secondary (Some (id p))).
  set (prog := if b then Create cd (fun _ => snapshot p) else snapshot p).
  assert (Hdg : forall i, In i (map id dg) -> has_id i (rows s) = true).
  { intros i Hi. apply in_map_iff in Hi. destruct Hi as [c [<- Hc]].
    apply Hids. unfold dg, toDowngrade in Hc. apply filter_In in Hc. tauto. }
  destruct (0 <? Z.of_nat (List.length dg)).
  - cbn [run_faulty].
    rewrite (updateAll_no_fault d (map id dg) n s Hdg).
    fold (appliedUpdates (map id dg) d (now s) (rows s)).
    destruct (updateAll_rows f d (map id dg) n s) as [done [Hi [Hs Hok]]].
    destruct (updateAll f n (map id dg) d s) as [ok s1].
    cbn [fst snd] in Hs, Hok. subst s1.
    set (s2 := mkStore (appliedUpdates (map id dg) d (now s) (rows s))
                 (next_id s) (now s)).
    pose proof (faulty_insert f (n + List.length (map id dg)) b cd p s2)
      as [Hr [Hsn Hsub]].
    pose proof (faulty_insert no_fault (n + List.length (map id dg)) b cd p s2)
      as [_ [_ Hsub0]].
    fold prog in Hr, Hsn, Hsub, Hsub0.
    destruct ok.
    + rewrite (Hok eq_refl). fold s2. split; [exact Hr|].
      intros c Hc. right. destruct Hsn as [E|E].
      * rewrite E in Hc. now apply Hsub.
      * now rewrite E in Hc.
    + split; [now left|]. cbn [snd rows]. intros c Hc.
      apply (Permutation_in _ (appliedUpdates_updatedRows _ _ _ _)) in Hc.
      destruct (updatedRows_partial _ _ _ _ _ _ Hi Hc) as [H|H];
        [now left | right]. apply Hsub. cbn [rows].
      now apply (Permutation_in _
                   (Permutation_sym (appliedUpdates_updatedRows _ _ _ _))).
  - pose proof (faulty_insert f n b cd p s) as [Hr [Hsn Hsub]].
    fold prog in Hr, Hsn, Hsub. split; [exact Hr|].
    intros c Hc. destruct Hsn as [E|E]; rewrite E in Hc; auto.
Qed.

(** C4, counterexample: the request merges two components and has two
    rows to downgrade, ids 2 and 3.  The update of row 3 fails: the
    response is the server error, row 2 is now a secondary of row 1 and
    row 3 is still linked to row 2.  The store shows neither none of the
    writes nor all of them. *)
Lemma atomic_writes_fails :
  ~ atomic_writes_as_stated fourthCallFails (Str "a@x") (Str "2")
      storeTwoComponents.
Proof.
  intros H. vm_compute in H. destruct H as [H|H]; discriminate H.
Qed.

(** Whatever fails, a row of the store is as it was before the request or
    as the complete request leaves it. *)
Lemma faulty_rows_old_or_new (f : faults) (email phoneNumber : field)
    (s : Store) :
  ((forall n, f n = false) ->
   resolve_faulty f email phoneNumber s = resolve email phoneNumber s) /\
  (fst (resolve_faulty f email phoneNumber s) = internalError \/
   resolve_faulty f email phoneNumber s = resolve email phoneNumber s) /\
  (forall c,
      In c (rows (snd (resolve_faulty f email phoneNumber s))) ->
      In c (rows s) \/ In c (rows (snd (resolve email phoneNumber s)))).
Proof.
  split.
  { intros E. unfold resolve_faulty, resolve, run.
    apply run_faulty_ext. exact E. }
  unfold resolve_faulty, resolve, run, identify.
  destruct ((negb (truthy email) || is_empty_string email) &&
            (negb (truthy phoneNumber) || is_empty_string phoneNumber)).
  { split; [now right | intros c Hc; now left]. }
  cbn [run_faulty no_fault].
  destruct (f 0%nat).
  { split; [now left | intros c Hc; now left]. }
  destruct (Z.of_nat
              (List.length
                 (findMany
                    (buildWhereOrForSingleLookup (orUndefined email)
                       (orUndefined phoneNumber)) (rows s))) =? 0).
  - destruct (faulty_createNewPrimary f 1 email phoneNumber s) as [E|E];
      rewrite E.
    + split; [now left | intros c Hc; now left].
    + split; [now right | intros c Hc; now right].
  - unfold expand. cbn [run_faulty no_fault].
    destruct (f 1%nat).
    { split; [now left | intros c Hc; now left]. }
    fold (existingContacts email phoneNumber (rows s)).
    fold (allLinkedContacts email phoneNumber (rows s)).
    pose proof (allLinkedContacts_has_id email phoneNumber s) as Hids.
    destruct (allLinkedContacts email phoneNumber (rows s)) as [|first rest].
    + destruct (faulty_createNewPrimary f 2 email phoneNumber s) as [E|E];
        rewrite E.
      * split; [now left | intros c Hc; now left].
      * split; [now right | intros c Hc; now right].
    + apply faulty_consolidate. exact Hids.
Qed.

Lemma noFailure_spec (f : faults) (k : nat) :
  forall n,
    noFailure f n k = true <-> forall j, (j < k)%nat -> f (n + j)%nat = false.
Proof.
  induction k as [|k IH]; intros n; cbn [noFailure].
  - split; [intros _ j Hj; lia | reflexivity].
  - rewrite andb_true_iff, negb_true_iff, IH. split.
    + intros [H0 H] j Hj. destruct j as [|j].
      * now rewrite Nat.add_0_r.
      * replace (n + S j)%nat with (S n + j)%nat by lia. apply H. lia.
    + intros H. split.
      * specialize (H 0%nat). rewrite Nat.add_0_r in H. apply H. lia.
      * intros j Hj. replace (S n + j)%nat with (n + S j)%nat by lia.
        apply H. lia.
Qed.

Lemma succeeded_all (f : faults) (ids : list Z) :
  forall n, noFailure f n (List.length ids) = true -> succeeded f n ids = ids.
Proof.
  induction ids as [|i ids IH]; intros n H; cbn in *; [reflexivity|].
  apply andb_true_iff in H. destruct H as [H0 H].
  apply negb_true_iff in H0. rewrite H0. f_equal. now apply IH.
Qed.

(** The updates of one [Promise.all]: exactly those that did not throw
    are applied, and the whole succeeds when none threw. *)
Lemma updateAll_exact (f : faults) (d : updateData) (ids : list Z) :
  forall (n : nat) (s : Store),
    (forall i, In i ids -> has_id i (rows s) = true) ->
    updateAll f n ids d s
    = (noFailure f n (List.length ids),
       mkStore (appliedUpdates (succeeded f n ids) d (now s) (rows s))
         (next_id s) (now s)).
Proof.
  induction ids as [|i ids IH]; intros n s H.
  - cbn. now destruct s.
  - cbn [updateAll List.length noFailure succeeded].
    assert (H' : forall j, In j ids -> has_id j (rows s) = true).
    { intros j Hj. apply H. now right. }
    destruct (f n); cbn [negb andb].
    + now rewrite (IH (S n) s H').
    + unfold update. fold (has_id i (rows s)).
      rewrite (H i (or_introl eq_refl)). rewrite IH.
      * reflexivity.
      * intros j Hj. cbn [rows].
        rewrite (has_id_map_id j _ (rows s)) by apply map_id_update_rows.
        now apply H'.
Qed.

(** Steps 5 to 8 on a store whose calls fail as [f] says. *)
Lemma run_faulty_consolidate (f : faults) (n : nat)
    (email phoneNumber : field) (first : Contact) (found : list Contact)
    (s : Store) :
  (forall c, In c found -> has_id (id c) (rows s) = true) ->
  run_faulty f n (consolidate email phoneNumber first found) s
  = let p := selectPrimary first found in
    let ids := map id (toDowngrade p found) in
    let k := (n + List.length ids)%nat in
    let s1 := mkStore (appliedUpdates (succeeded f n ids)
                         (mkUpdate secondary (Some (id p))) (now s) (rows s))
                (next_id s) (now s) in
    let s2 := afterWrites email phoneNumber first found s in
    let done := (formatView p
                   (findMany [IdEq (id p); LinkedIdEq (id p)] (rows s2)),
                 s2) in
    if noFailure f n (List.length ids) then
      if introducesNewInfo email phoneNumber found then
        if f k then (internalError, s1)
        else if f (S k) then (internalError, s2) else done
      else if f k then (internalError, s1) else done
    else (internalError, s1).
Proof.
  intros Hids. cbn zeta. unfold consolidate, afterWrites, downgradeRows.
  set (p := selectPrimary first found).
  set (dg := toDowngrade p found).
  set (d := mkUpdate secondary (Some (id p))).
  assert (Hdg : forall i, In i (map id dg) -> has_id i (rows s) = true).
  { intros i Hi. apply in_map_iff in Hi. destruct Hi as [c [<- Hc]].
    apply Hids. unfold dg, toDowngrade in Hc. apply filter_In in Hc. tauto. }
  destruct (0 <? Z.of_nat (List.length dg)) eqn:Elen.
  - cbn [run_faulty]. rewrite (updateAll_exact f d (map id dg) n s Hdg).
    destruct (noFailure f n (List.length (map id dg))) eqn:NF; [|reflexivity].
    rewrite (succeeded_all f (map id dg) n NF).
    unfold snapshot.
    destruct (introducesNewInfo email phoneNumber found);
      cbn [run_faulty create];
      destruct (f (n + List.length (map id dg))%nat); reflexivity.
  - assert (dg = []) as ->.
    { destruct dg; [reflexivity|]. cbn [List.length] in Elen.
      apply Z.ltb_ge in Elen. lia. }
    cbn [map List.length noFailure succeeded]. rewrite Nat.add_0_r.
    unfold appliedUpdates. cbn [fold_left]. unfold snapshot.
    destruct s as [l ni t].
    cbn [rows next_id now].
    destruct (introducesNewInfo email phoneNumber found);
      cbn [run_faulty create];
      destruct (f n); reflexivity.
Qed.

(** A failure of one of the two queries, or of the only insert. *)
Lemma resolve_faulty_early (f : faults) (email phoneNumber : field)
    (s : Store) :
  rejected email phoneNumber = false ->
  f 0%nat = true \/ f 1%nat = true ->
  resolve_faulty f email phoneNumber s = (internalError, s).
Proof.
  intros R Hf. unfold resolve_faulty, identify.
  fold (rejected email phoneNumber). rewrite R. cbn [run_faulty].
  destruct (f 0%nat) eqn:F0; [reflexivity|].
  destruct Hf as [Hf|Hf]; [discriminate Hf|].
  destruct (Z.of_nat _ =? 0).
  - unfold createNewPrimary. cbn [run_faulty]. now rewrite Hf.
  - unfold expand. cbn [run_faulty]. now rewrite Hf.
Qed.

(** Past the two queries, the request is steps 5 to 8. *)
Lemma resolve_faulty_seeded (f : faults) (email phoneNumber : field)
    (s : Store) (first : Contact) (rest : list Contact) :
  rejected email phoneNumber = false ->
  existingContacts email phoneNumber (rows s) <> [] ->
  allLinkedContacts email phoneNumber (rows s) = first :: rest ->
  f 0%nat = false -> f 1%nat = false ->
  resolve_faulty f email phoneNumber s
  = run_faulty f 2 (consolidate email phoneNumber first (first :: rest)) s.
Proof.
  intros R Hne Ea F0 F1. unfold resolve_faulty, identify.
  fold (rejected email phoneNumber). rewrite R. cbn [run_faulty].
  rewrite F0. fold (existingContacts email phoneNumber (rows s)).
  destruct (existingContacts email phoneNumber (rows s)) as [|sd sds] eqn:Es;
    [contradiction|].
  cbn [List.length].
  replace (Z.of_nat (S (List.length sds)) =? 0) with false
    by (symmetry; apply Z.eqb_neq; lia).
  unfold expand. cbn [run_faulty]. rewrite F1, <- Es.
  fold (allLinkedContacts email phoneNumber (rows s)). now rewrite Ea.
Qed.

Lemma resolve_faulty_unseeded (f : faults) (email phoneNumber : field)
    (s : Store) :
  rejected email phoneNumber = false ->
  existingContacts email phoneNumber (rows s) = [] ->
  f 0%nat = false -> f 1%nat = false ->
  resolve_faulty f email phoneNumber s = resolve email phoneNumber s.
Proof.
  intros R Es F0 F1. rewrite resolve_cases, R, Es.
  unfold resolve_faulty, identify.
  fold (rejected email phoneNumber). rewrite R. cbn [run_faulty].
  rewrite F0. fold (existingContacts email phoneNumber (rows s)).
  rewrite Es. cbn [List.length Z.of_nat Z.eqb].
  unfold createNewPrimary. cbn [run_faulty]. now rewrite F1.
Qed.

(** C4, amended: the handler opens no transaction and every write is
    committed on its own.  When none of the storage calls of the request
    fails, all its writes are applied and the response is the success
    response; when one of them fails, the response is the server error.
    Past the two queries: when an update of the downgrade pass fails,
    exactly the updates that did not fail are applied, and stay; when the
    downgrade pass succeeds and the call after it fails (the insert, or
    the snapshot if nothing is to insert), all the downgrades stay and
    nothing is inserted; when only the final snapshot fails after an
    insert, all the writes stay.  In every case a row is as it was before
    the request or as the complete request leaves it. *)
Theorem writes_commit_one_by_one (f : faults) (email phoneNumber : field)
    (s : Store) :
  ((forall n, (n < calls email phoneNumber s)%nat -> f n = false) ->
   resolve_faulty f email phoneNumber s = resolve email phoneNumber s) /\
  ((exists n, (n < calls email phoneNumber s)%nat /\ f n = true) ->
   fst (resolve_faulty f email phoneNumber s) = internalError) /\
  (forall thePrimary,
      rejected email phoneNumber = false ->
      selectedPrimary email phoneNumber (rows s) = Some thePrimary ->
      f 0%nat = false -> f 1%nat = false ->
      let ids := map id (toDowngrade thePrimary
                           (allLinkedContacts email phoneNumber (rows s))) in
      let d := mkUpdate secondary (Some (id thePrimary)) in
      (noFailure f 2 (List.length ids) = false ->
       fst (resolve_faulty f email phoneNumber s) = internalError /\
       Permutation (rows (snd (resolve_faulty f email phoneNumber s)))
         (updatedRows (succeeded f 2 ids) d (now s) (rows s))) /\
      (noFailure f 2 (List.length ids) = true ->
       f (2 + List.length ids)%nat = true ->
       fst (resolve_faulty f email phoneNumber s) = internalError /\
       Permutation (rows (snd (resolve_faulty f email phoneNumber s)))
         (updatedRows ids d (now s) (rows s))) /\
      (noFailure f 2 (List.length ids) = true ->
       introducesNewInfo email phoneNumber
         (allLinkedContacts email phoneNumber (rows s)) = true ->
       f (2 + List.length ids)%nat = false ->
       f (3 + List.length ids)%nat = true ->
       fst (resolve_faulty f email phoneNumber s) = internalError /\
       Permutation (rows (snd (resolve_faulty f email phoneNumber s)))
         (rows (snd (resolve email phoneNumber s))))) /\
  (forall c,
      In c (rows (snd (resolve_faulty f email phoneNumber s))) ->
      In c (rows s) \/ In c (rows (snd (resolve email phoneNumber s)))).
Proof.
  split; [|split; [|split]].
  - (* no call fails *)
    intros Hf. unfold calls in Hf.
    destruct (rejected email phoneNumber) eqn:R.
    { rewrite resolve_rejected by assumption.
      unfold resolve_faulty, identify. fold (rejected email phoneNumber).
      now rewrite R. }
    destruct (existingContacts email phoneNumber (rows s)) as [|sd sds] eqn:Es.
    + apply resolve_faulty_unseeded; try assumption; apply Hf; lia.
    + assert (Hne : existingContacts email phoneNumber (rows s) <> [])
        by (rewrite Es; discriminate).
      destruct (seeded_selects email phoneNumber (rows s) R Hne)
        as [sd' [sds' [first [rest [_ [Ea _]]]]]].
      rewrite Ea in Hf.
      rewrite (resolve_faulty_seeded f email phoneNumber s first rest R Hne Ea)
        by (apply Hf; lia).
      rewrite run_faulty_consolidate
        by (rewrite <- Ea; apply allLinkedContacts_has_id).
      cbn zeta. rewrite length_map.
      set (len := List.length
                    (toDowngrade (selectPrimary first (first :: rest))
                       (first :: rest))) in *.
      assert (NF : noFailure f 2 len = true).
      { apply noFailure_spec. intros j Hj. apply Hf. lia. }
      rewrite NF, resolve_cases, R, Es, Ea.
      destruct (introducesNewInfo email phoneNumber (first :: rest)).
      * rewrite (Hf (2 + len)%nat) by lia.
        rewrite (Hf (S (2 + len))) by lia. reflexivity.
      * rewrite (Hf (2 + len)%nat) by lia. reflexivity.
  - (* some call fails *)
    intros [n [Hn Fn]]. unfold calls in Hn.
    destruct (rejected email phoneNumber) eqn:R; [lia|].
    destruct (f 0%nat) eqn:F0.
    { rewrite resolve_faulty_early; auto. }
    destruct (f 1%nat) eqn:F1.
    { rewrite resolve_faulty_early; auto. }
    destruct (existingContacts email phoneNumber (rows s)) as [|sd sds] eqn:Es.
    + exfalso. destruct n as [|[|n]]; [congruence | congruence | lia].
    + assert (Hne : existingContacts email phoneNumber (rows s) <> [])
        by (rewrite Es; discriminate).
      destruct (seeded_selects email phoneNumber (rows s) R Hne)
        as [sd' [sds' [first [rest [_ [Ea _]]]]]].
      rewrite Ea in Hn.
      rewrite (resolve_faulty_seeded f email phoneNumber s first rest R Hne Ea
                 F0 F1).
      rewrite run_faulty_consolidate
        by (rewrite <- Ea; apply allLinkedContacts_has_id).
      cbn zeta. rewrite length_map.
      set (len := List.length
                    (toDowngrade (selectPrimary first (first :: rest))
                       (first :: rest))) in *.
      destruct (noFailure f 2 len) eqn:NF; [|reflexivity].
      assert (Hup : forall j, (j < len)%nat -> f (2 + j)%nat = false)
        by now apply noFailure_spec.
      destruct (introducesNewInfo email phoneNumber (first :: rest)).
      * destruct (f (2 + len)%nat) eqn:Fk; [reflexivity|].
        destruct (f (S (2 + len))) eqn:Fk1; [reflexivity|].
        exfalso.
        destruct (Nat.lt_ge_cases n 2) as [H2|H2].
        { destruct n as [|[|n]]; [congruence | congruence | lia]. }
        destruct (Nat.lt_ge_cases n (2 + len)) as [H3|H3].
        { specialize (Hup (n - 2)%nat).
          replace (2 + (n - 2))%nat with n in Hup by lia.
          rewrite Hup in Fn by lia. discriminate. }
        assert (n = (2 + len)%nat \/ n = S (2 + len)) as [->| ->] by lia;
          congruence.
      * destruct (f (2 + len)%nat) eqn:Fk; [reflexivity|].
        exfalso.
        destruct (Nat.lt_ge_cases n 2) as [H2|H2].
        { destruct n as [|[|n]]; [congruence | congruence | lia]. }
        destruct (Nat.lt_ge_cases n (2 + len)) as [H3|H3].
        { specialize (Hup (n - 2)%nat).
          replace (2 + (n - 2))%nat with n in Hup by lia.
          rewrite Hup in Fn by lia. discriminate. }
        assert (n = (2 + len)%nat) as -> by lia. congruence.
  - (* which writes stay *)
    intros thePrimary R Hsel F0 F1. unfold selectedPrimary in Hsel.
    destruct (existingContacts email phoneNumber (rows s)) as [|sd sds] eqn:Es;
      [discriminate|].
    assert (Hne : existingContacts email phoneNumber (rows s) <> [])
      by (rewrite Es; discriminate).
    pose proof (allLinkedContacts_has_id email phoneNumber s) as Hids.
    pose proof (resolve_cases email phoneNumber s) as Eres.
    rewrite R, Es in Eres.
    destruct (allLinkedContacts email phoneNumber (rows s))
      as [|first rest] eqn:Ea; [discriminate|].
    assert (thePrimary = selectPrimary first (first :: rest)) as ->
        by congruence.
    rewrite (resolve_faulty_seeded f email phoneNumber s first rest R Hne Ea
               F0 F1).
    rewrite (run_faulty_consolidate f 2 email phoneNumber first (first :: rest)
               s Hids).
    cbn zeta. rewrite Eres. cbn [snd].
    split; [|split].
    + intros NF. rewrite NF. cbn [fst snd rows].
      split; [reflexivity | apply appliedUpdates_updatedRows].
    + intros NF Fk. rewrite NF, Fk.
      rewrite (succeeded_all f _ 2 NF).
      destruct (introducesNewInfo email phoneNumber (first :: rest));
        cbn [fst snd rows];
        (split; [reflexivity | apply appliedUpdates_updatedRows]).
    + intros NF I Fk Fk1. rewrite NF, I, Fk.
      change (S (2 + List.length
                      (map id (toDowngrade (selectPrimary first (first :: rest))
                                 (first :: rest)))))
        with (3 + List.length
                    (map id (toDowngrade (selectPrimary first (first :: rest))
                               (first :: rest))))%nat.
      rewrite Fk1. cbn [fst snd].
      split; [reflexivity | apply Permutation_refl].
  - apply (faulty_rows_old_or_new f email phoneNumber s).
Qed.

Lemma writes_commit_one_by_one_witness :
  fst (resolve_faulty fourthCallFails (Str "a@x") (Str "2") storeTwoComponents)
  = internalError /\
  Permutation
    (rows (snd (resolve_faulty fourthCallFails (Str "a@x") (Str "2")
                  storeTwoComponents)))
    [ mkContact 1 (Some "a@x") (Some "1") primary None 1 1;
      mkContact 2 (Some "b@x") (Some "2") secondary (Some 1) 2 1000;
      mkContact 3 (Some "c@x") (Some "2") secondary (Some 2) 3 3 ].
Proof.
  exact (proj1 (proj1 (proj2 (proj2 (writes_commit_one_by_one fourthCallFails
                                       (Str "a@x") (Str "2")
                                       storeTwoComponents)))
                  (mkContact 1 (Some "a@x") (Some "1") primary None 1 1)
                  eq_refl eq_refl eq_refl eq_refl)
           eq_refl).
Defined.

(** ** Two requests *)

(** C9, counterexample: two requests with the same email and phone on an
    empty store.  Both seed lookups run before either insert, both find
    nothing, and each request inserts a primary: rows 1 and 2 share their
    email and are both primary. *)
Lemma serialized_fails :
  ~ serialized_as_stated lookupsFirst
      (Str "a@x") (Str "1") (Str "a@x") (Str "1") emptyStore.
Proof.
  intros H.
  assert (Hov : overlapping (Str "a@x") (Str "1") (Str "a@x") (Str "1")).
  { left. exists "a@x". split; reflexivity. }
  assert (Hpre : onePrimaryPerComponent (rows emptyStore)).
  { intros c d []. }
  specialize (H Hov Hpre
                (mkContact 1 (Some "a@x") (Some "1") primary None 1000 1000)
                (mkContact 2 (Some "a@x") (Some "1") primary None 1000 1000)).
  assert (E : mkContact 1 (Some "a@x") (Some "1") primary None 1000 1000
              = mkContact 2 (Some "a@x") (Some "1") primary None 1000 1000).
  { apply H; try reflexivity.
    - vm_compute. tauto.
    - vm_compute. tauto.
    - apply rt_step. split; [vm_compute; tauto|]. split; [vm_compute; tauto|].
      left. exists "a@x". split; reflexivity. }
  discriminate E.
Qed.

(** ** Invariants of the store *)

(** A row that shares nothing with the other rows is its own component. *)
Lemma isolated_connected (l : list Contact) (x : Contact) :
  (forall y, In y l -> shares x y -> y = x) ->
  forall a b, connected l a b -> a = x -> b = x.
Proof.
  intros Hiso a b C. unfold connected in C.
  induction C as [a b [_ [Hb Hs]] | a | a b c _ IH1 _ IH2]; intros E.
  - subst a. now apply Hiso.
  - assumption.
  - auto.
Qed.

Ltac shares_nothing :=
  let y := fresh "y" in
  let Hy := fresh "Hy" in
  let Hs := fresh "Hs" in
  let v := fresh "v" in
  let E1 := fresh "E" in
  let E2 := fresh "E" in
  intros y Hy Hs; cbn in Hy;
  repeat (destruct Hy as [<-|Hy]; [try reflexivity|]); try contradiction;
  destruct Hs as [[v [E1 E2]]|[v [E1 E2]]]; cbn in E1, E2; congruence.

Lemma storeTwoPrimaries_invariants :
  componentInvariants (rows storeTwoPrimaries).
Proof.
  split.
  - intros c Hc.
    assert (Hiso : forall y, In y (rows storeTwoPrimaries) ->
                             shares c y -> y = c).
    { cbn in Hc. destruct Hc as [<-|[<-|[]]]; shares_nothing. }
    exists c. split; [assumption|]. split; [apply rt_refl|].
    split; [cbn in Hc; destruct Hc as [<-|[<-|[]]]; reflexivity|].
    split.
    + intros q _ C _. now apply (isolated_connected _ c Hiso c q).
    + intros d _ C N. exfalso. apply N.
      now apply (isolated_connected _ c Hiso c d).
  - intros c d Hc _ Hsec. cbn in Hc.
    destruct Hc as [<-|[<-|[]]]; discriminate Hsec.
Qed.

(** C1, counterexample: two primaries that share nothing; the request
    brings the email of one and the phone of the other.  The younger one
    becomes a secondary of the older one and, both sides being known, no
    row is inserted: the younger row still shares nothing with any other
    row, and its component is left without a primary. *)
Lemma invariants_preserved_fails :
  ~ invariants_preserved_as_stated (Str "a@x") (Str "2") storeTwoPrimaries.
Proof.
  intros H. specialize (H eq_refl storeTwoPrimaries_invariants).
  assert (E : rows (snd (resolve (Str "a@x") (Str "2") storeTwoPrimaries))
              = [ mkContact 1 (Some "d@x") (Some "2") primary None 3 3;
                  mkContact 2 (Some "a@x") (Some "1") secondary (Some 1)
                    5 1000 ])
    by reflexivity.
  rewrite E in H. destruct H as [Hcomp _].
  destruct (Hcomp (mkContact 2 (Some "a@x") (Some "1") secondary (Some 1)
                     5 1000))
    as [p [_ [C [Hp _]]]]; [cbn; tauto|].
  assert (p = mkContact 2 (Some "a@x") (Some "1") secondary (Some 1) 5 1000).
  { eapply isolated_connected; [|exact C|reflexivity]. shares_nothing. }
  subst p. discriminate Hp.
Qed.

Lemma NoDup_id_eq (l : list Contact) (c d : Contact) :
  NoDup (map id l) -> In c l -> In d l -> id c = id d -> c = d.
Proof.
  induction l as [|a l IH]; intros N Hc Hd E; [contradiction|].
  cbn [map] in N. inversion N as [|x xs Hnot Hnd]; subst.
  destruct Hc as [<-|Hc], Hd as [<-|Hd].
  - reflexivity.
  - exfalso. apply Hnot. rewrite E. now apply in_map.
  - exfalso. apply Hnot. rewrite <- E. now apply in_map.
  - now apply IH.
Qed.

Lemma NoDup_snoc (l : list Z) (x : Z) :
  NoDup l -> ~ In x l -> NoDup (l ++ [x]).
Proof.
  induction l as [|a l IH]; intros N Hx; cbn.
  - constructor; [intros [] | constructor].
  - inversion N as [|y ys Hnot Hnd]; subst. constructor.
    + intros H. apply in_app_or in H. destruct H as [H|[H|[]]].
      * contradiction.
      * subst. apply Hx. now left.
    + apply IH; [assumption|]. intros H. apply Hx. now right.
Qed.

Lemma uniqueIds_insert (l1 : list Contact) (c : Contact) (s : Store) :
  uniqueIds s -> Permutation (map id l1) (map id (rows s)) ->
  id c = next_id s ->
  uniqueIds (mkStore (l1 ++ [c]) (next_id s + 1) (now s)).
Proof.
  intros [N B] E Hc. unfold uniqueIds. cbn [rows next_id].
  assert (B1 : forall x, In x l1 -> id x < next_id s).
  { intros x Hx. apply (in_map id) in Hx. apply (Permutation_in _ E) in Hx.
    apply in_map_iff in Hx. destruct Hx as [y [<- Hy]]. now apply B. }
  split.
  - rewrite map_app. cbn [map]. apply NoDup_snoc.
    + apply (Permutation_NoDup (Permutation_sym E) N).
    + rewrite Hc. intros H. apply in_map_iff in H.
      destruct H as [x [Hx1 Hx2]]. specialize (B1 x Hx2). lia.
  - intros x Hx. apply in_app_or in Hx. destruct Hx as [Hx|[<-|[]]].
    + specialize (B1 x Hx). lia.
    + lia.
Qed.

Lemma uniqueIds_update (l1 : list Contact) (s : Store) :
  uniqueIds s -> Permutation (map id l1) (map id (rows s)) ->
  uniqueIds (mkStore l1 (next_id s) (now s)).
Proof.
  intros [N B] E. unfold uniqueIds. cbn [rows next_id]. split.
  - apply (Permutation_NoDup (Permutation_sym E) N).
  - intros x Hx. apply (in_map id) in Hx. apply (Permutation_in _ E) in Hx.
    apply in_map_iff in Hx. destruct Hx as [y [<- Hy]]. now apply B.
Qed.

Lemma LinkPrecedence_eqb_eq (a b : LinkPrecedence) :
  LinkPrecedence_eqb a b = true <-> a = b.
Proof. destruct a, b; cbn; split; congruence. Qed.

Lemma opt_Z_eqb_eq (a b : option Z) : opt_Z_eqb a b = true <-> a = b.
Proof.
  destruct a as [x|], b as [y|]; cbn; try (split; congruence).
  rewrite Z.eqb_eq. split; congruence.
Qed.

(** A row found that step 5 leaves alone is the selected primary or is
    already a secondary linked to it. *)
Lemma not_downgraded (p c : Contact) (found : list Contact) :
  In c found -> ~ In c (toDowngrade p found) ->
  id c = id p \/
  (linkPrecedence c = secondary /\ linkedId c = Some (id p)).
Proof.
  intros Hc N. unfold toDowngrade in N. rewrite filter_In in N.
  destruct (id c =? id p) eqn:E; [left; now apply Z.eqb_eq|].
  right.
  destruct (LinkPrecedence_eqb (linkPrecedence c) secondary) eqn:L;
    destruct (opt_Z_eqb (linkedId c) (Some (id p))) eqn:O;
    try (exfalso; apply N; split; [assumption | reflexivity]).
  apply LinkPrecedence_eqb_eq in L. apply opt_Z_eqb_eq in O. tauto.
Qed.

Lemma downgraded_not_primary (p c : Contact) (found : list Contact) :
  In c (toDowngrade p found) -> In c found /\ id c <> id p.
Proof.
  unfold toDowngrade. rewrite filter_In. intros [Hc H].
  split; [assumption|]. apply andb_true_iff in H. destruct H as [H _].
  apply negb_true_iff, Z.eqb_neq in H. exact H.
Qed.

Lemma selectPrimary_In (first : Contact) (rest : list Contact) :
  In (selectPrimary first (first :: rest)) (first :: rest).
Proof.
  destruct (selectPrimary_first_minimum first rest) as [b [a [E _]]].
  rewrite E at 2. apply in_or_app. right. now left.
Qed.

(** * Further properties of the handler's code *)

(** ** [uniqueNonNull] *)

Lemma set_from_seen_ext (l : list string) :
  forall seen seen' : list string,
    (forall y, In y seen <-> In y seen') ->
    set_from seen l = set_from seen' l.
Proof.
  induction l as [|a l IH]; intros seen seen' E; cbn [set_from];
    [reflexivity|].
  assert (M : mem_string a seen = mem_string a seen').
  { destruct (mem_string a seen) eqn:M1, (mem_string a seen') eqn:M2;
      try reflexivity.
    - apply mem_string_In, E, mem_string_In in M1. congruence.
    - apply mem_string_In, E, mem_string_In in M2. congruence. }
  rewrite M. destruct (mem_string a seen').
  - now apply IH.
  - f_equal. apply IH. intros y. cbn. rewrite E. tauto.
Qed.

Lemma filter_out_absent (x : string) (l : list string) :
  ~ In x l -> filter (fun y => negb (y =? x)%string) l = l.
Proof.
  induction l as [|a l IH]; intros N; cbn; [reflexivity|].
  destruct (a =? x)%string eqn:E.
  - apply String.eqb_eq in E. subst. exfalso. apply N. now left.
  - cbn. f_equal. apply IH. intros H. apply N. now right.
Qed.

Lemma set_from_seen_cons (x : string) (l : list string) :
  forall seen : list string,
    set_from (x :: seen) l
    = filter (fun y => negb (y =? x)%string) (set_from seen l).
Proof.
  induction l as [|a l IH]; intros seen; cbn [set_from]; [reflexivity|].
  cbn [mem_string existsb]. fold (mem_string a seen).
  destruct (x =? a)%string eqn:Ex; cbn [orb].
  - apply String.eqb_eq in Ex. subst a.
    destruct (mem_string x seen); [apply IH|].
    cbn [filter]. rewrite String.eqb_refl. cbn [negb].
    symmetry. apply filter_out_absent.
    rewrite set_from_In. cbn. tauto.
  - destruct (mem_string a seen); [apply IH|].
    cbn [filter]. rewrite String.eqb_sym, Ex. cbn [negb]. f_equal.
    rewrite <- IH. apply set_from_seen_ext.
    intros y. cbn. tauto.
Qed.

(** X1: [uniqueNonNull] drops the nulls and the repeated values and keeps
    the others in the order of their first occurrence: the result has no
    duplicates, holds exactly the non-null values of the array, and a
    leading value stays in front, the rest being the result for the tail
    without that value. *)
Theorem uniqueNonNull_first_occurrences :
  (forall arr, NoDup (uniqueNonNull arr)) /\
  (forall arr x, In x (uniqueNonNull arr) <-> In (Some x) arr) /\
  (forall arr, uniqueNonNull (None :: arr) = uniqueNonNull arr) /\
  (forall arr x,
      uniqueNonNull (Some x :: arr)
      = x :: filter (fun y => negb (y =? x)%string) (uniqueNonNull arr)) /\
  (forall arr, uniqueNonNull (map Some (uniqueNonNull arr)) = uniqueNonNull arr).
Proof.
  assert (Hcons : forall arr x,
             uniqueNonNull (Some x :: arr)
             = x :: filter (fun y => negb (y =? x)%string) (uniqueNonNull arr)).
  { intros arr x. unfold uniqueNonNull. cbn [filter_non_null set_from].
    cbn [mem_string existsb]. f_equal. apply set_from_seen_cons. }
  split; [apply uniqueNonNull_NoDup|].
  split; [apply uniqueNonNull_In|].
  split; [reflexivity|]. split; [exact Hcons|].
  intros arr. pose proof (uniqueNonNull_NoDup arr) as N.
  induction (uniqueNonNull arr) as [|a l IH]; [reflexivity|].
  cbn [map]. rewrite Hcons. inversion N as [|y ys Hnot Hnd]; subst.
  rewrite (IH Hnd). f_equal. now apply filter_out_absent.
Qed.

(** ** [buildWhereOrForSingleLookup] *)

(** X2: the [OR] of the single lookup is never empty, so it is never a
    broad match: a row it matches carries the given email or the given
    phone; without either value the only clause is [{ id: -1 }], and the
    query returns nothing from rows whose ids are not -1. *)
Theorem single_lookup_never_broad (email phoneNumber : option string)
    (l : list Contact) :
  buildWhereOrForSingleLookup email phoneNumber <> [] /\
  (forall c, In c (findMany (buildWhereOrForSingleLookup email phoneNumber) l) ->
             In c l /\
             ((exists v, email = Some v /\ Contact_email c = Some v) \/
              (exists v, phoneNumber = Some v /\ Contact_phoneNumber c = Some v) \/
              (email = None /\ phoneNumber = None /\ id c = -1))) /\
  (email = None -> phoneNumber = None ->
   (forall c, In c l -> id c <> -1) ->
   findMany (buildWhereOrForSingleLookup email phoneNumber) l = []).
Proof.
  split; [destruct email, phoneNumber; discriminate|]. split.
  - intros c Hc. apply findMany_In in Hc. destruct Hc as [Hin Hm].
    split; [assumption|].
    destruct email as [e|], phoneNumber as [p|]; cbn in Hm;
      rewrite ?orb_false_r in Hm.
    + apply orb_true_iff in Hm. destruct Hm as [Hm|Hm].
      * left. exists e. split; [reflexivity|]. now apply matches_EmailEq.
      * right. left. exists p. split; [reflexivity|].
        now apply matches_PhoneEq.
    + left. exists e. split; [reflexivity|]. now apply matches_EmailEq.
    + right. left. exists p. split; [reflexivity|]. now apply matches_PhoneEq.
    + right. right. repeat split. now apply Z.eqb_eq.
  - intros -> -> Hids. unfold findMany. cbn.
    induction l as [|c l IH]; cbn; [reflexivity|].
    assert (E : (id c =? -1) = false).
    { apply Z.eqb_neq. apply Hids. now left. }
    rewrite E. cbn. apply IH. intros x Hx. apply Hids. now right.
Qed.

(** ** [prependIfPresent] *)

(** X3: [prependIfPresent] loses no value and adds none but the one it is
    given: with a non-empty value, the result holds that value and the
    values of the array, the others in their order; with [null] or the
    empty string the array is returned as it is; an array without
    duplicates that holds the value keeps its length. *)
Theorem prependIfPresent_keeps_values (arr : list string) :
  prependIfPresent arr None = arr /\
  prependIfPresent arr (Some "") = arr /\
  (forall v, v <> "" ->
     prependIfPresent arr (Some v)
     = v :: filter (fun x => negb (x =? v)%string) arr /\
     (forall x, In x (prependIfPresent arr (Some v)) <-> x = v \/ In x arr) /\
     (NoDup arr -> In v arr ->
      List.length (prependIfPresent arr (Some v)) = List.length arr)).
Proof.
  split; [reflexivity|]. split; [reflexivity|].
  intros v Hv. unfold prependIfPresent. rewrite (eqb_empty_false v Hv).
  split; [reflexivity|]. split.
  - intros x. cbn [In]. rewrite filter_In. split.
    + intros [H|[H _]]; [left; now symmetry | now right].
    + intros [H|H]; [left; now symmetry|].
      destruct (x =? v)%string eqn:E.
      * apply String.eqb_eq in E. left. now symmetry.
      * right. split; [assumption | reflexivity].
  - intros N Hin. cbn [List.length].
    induction arr as [|a arr IH]; [contradiction|].
    inversion N as [|y ys Hnot Hnd]; subst. cbn [filter].
    destruct (a =? v)%string eqn:E.
    + apply String.eqb_eq in E. subst a. cbn [negb List.length].
      now rewrite filter_out_absent.
    + cbn [negb List.length]. f_equal. apply IH; [assumption|].
      destruct Hin as [H|H]; [|assumption].
      subst a. rewrite String.eqb_refl in E. discriminate.
Qed.

(** ** Primary selection and the other columns *)

Lemma fold_older_map (g : Contact -> Contact) (l : list Contact) :
  (forall c, createdAt (g c) = createdAt c) ->
  forall init, fold_left older (map g l) (g init) = g (fold_left older l init).
Proof.
  intros Hg. induction l as [|a l IH]; intros init; cbn [map fold_left];
    [reflexivity|].
  assert (E : older (g init) (g a) = g (older init a)).
  { unfold older. rewrite !Hg. destruct (createdAt a <? createdAt init);
      reflexivity. }
  rewrite E. apply IH.
Qed.

(** X5: which row step 4 selects depends on the [createdAt] of the rows
    and on their order only: rewriting the other columns of every row, as
    a downgrade does, selects the row at the same place. *)
Theorem selection_ignores_other_columns (g : Contact -> Contact)
    (first : Contact) (l : list Contact) :
  (forall c, createdAt (g c) = createdAt c) ->
  selectPrimary (g first) (map g l) = g (selectPrimary first l).
Proof.
  intros Hg. unfold selectPrimary. now apply fold_older_map.
Qed.

Lemma selection_ignores_other_columns_witness :
  selectPrimary
    (apply_update (mkUpdate secondary (Some 7)) 9
       (mkContact 1 (Some "a@x") (Some "1") primary None 1 1))
    (map (apply_update (mkUpdate secondary (Some 7)) 9)
       (rows storeTwoComponents))
  = apply_update (mkUpdate secondary (Some 7)) 9
      (selectPrimary (mkContact 1 (Some "a@x") (Some "1") primary None 1 1)
         (rows storeTwoComponents)).
Proof.
  apply (selection_ignores_other_columns
           (apply_update (mkUpdate secondary (Some 7)) 9)).
  intros c. reflexivity.
Defined.

(** ** The defensive branches *)

(** X6: after validation the defensive branches of the handler are dead:
    the clauses of the seed lookup are equalities on the request's own
    email and phone, never [{ id: -1 }]; and with a seed, the clauses of
    the expansion query are non-empty [in] lists, never the fallback to
    the single lookup, and the query returns at least one row, so the
    handler does not fall back to creating a primary. *)
Theorem defensive_branches_unreachable (email phoneNumber : field)
    (l : list Contact) :
  rejected email phoneNumber = false ->
  (forall cl,
      In cl (buildWhereOrForSingleLookup
               (orUndefined email) (orUndefined phoneNumber)) ->
      (exists v, email = Str v /\ cl = EmailEq v) \/
      (exists v, phoneNumber = Str v /\ cl = PhoneEq v)) /\
  (existingContacts email phoneNumber l <> [] ->
   (forall cl,
       In cl (whereExpansion email phoneNumber
                (existingContacts email phoneNumber l)) ->
       (exists es, cl = EmailIn es /\ es <> []) \/
       (exists ps, cl = PhoneIn ps /\ ps <> [])) /\
   allLinkedContacts email phoneNumber l <> []).
Proof.
  intros R. split.
  - intros cl Hcl.
    destruct email as [| |e], phoneNumber as [| |p];
      try (cbn in R; discriminate R); cbn in Hcl;
      repeat (destruct Hcl as [<-|Hcl]; eauto); contradiction.
  - intros Hne. split.
    + destruct (existingContacts email phoneNumber l) as [|sd sds] eqn:Es;
        [contradiction|].
      assert (Hsd : In sd (existingContacts email phoneNumber l))
        by (rewrite Es; now left).
      destruct (seed_carries_input _ _ _ _ R Hsd) as [_ Hv].
      rewrite <- Es. unfold whereExpansion.
      set (E := uniqueNonNull
                  (map Contact_email (existingContacts email phoneNumber l))).
      set (P := uniqueNonNull
                  (map Contact_phoneNumber
                     (existingContacts email phoneNumber l))).
      assert (HEP : E <> [] \/ P <> []).
      { destruct Hv as [[v [_ Hv]]|[v [_ Hv]]]; [left | right].
        - assert (In v E).
          { unfold E. apply uniqueNonNull_In, in_map_iff. eauto. }
          intros Z0. rewrite Z0 in H. contradiction.
        - assert (In v P).
          { unfold P. apply uniqueNonNull_In, in_map_iff. eauto. }
          intros Z0. rewrite Z0 in H. contradiction. }
      intros cl Hcl.
      destruct E as [|e0 E], P as [|p0 P]; cbn in Hcl.
      * destruct HEP as [N|N]; now contradiction N.
      * destruct Hcl as [<-|[]]. right. eexists. split; [reflexivity|].
        discriminate.
      * destruct Hcl as [<-|[]]. left. eexists. split; [reflexivity|].
        discriminate.
      * destruct Hcl as [<-|[<-|[]]].
        -- left. eexists. split; [reflexivity | discriminate].
        -- right. eexists. split; [reflexivity | discriminate].
    + destruct (seeded_selects email phoneNumber l R Hne)
        as [sd [sds [first [rest [_ [Ea _]]]]]].
      rewrite Ea. discriminate.
Qed.

Lemma defensive_branches_unreachable_witness :
  rejected (Str "a@x") (Str "2") = false /\
  allLinkedContacts (Str "a@x") (Str "2") (rows storeTwoComponents) <> [].
Proof.
  split; [reflexivity|].
  refine (proj2 (proj2 (defensive_branches_unreachable (Str "a@x") (Str "2")
                          (rows storeTwoComponents) eq_refl) _)).
  vm_compute. discriminate.
Defined.

(** ** When a primary is created *)

Lemma updatedRows_In (done : list Z) (d : updateData) (t : Z)
    (l : list Contact) (c' : Contact) :
  In c' (updatedRows done d t l) <->
  exists c, In c l /\
            c' = if mem_Z (id c) done then apply_update d t c else c.
Proof.
  unfold updatedRows. rewrite in_map_iff.
  split; intros [c [H1 H2]]; exists c; split; auto.
Qed.

(** X7: an accepted request creates a primary row exactly when no stored
    row carries its email or its phone; the response is then the view of
    that single row.  When some row carries one of them, every primary row
    of the store after the request was a primary row before it. *)
Theorem primary_created_only_when_unseen (email phoneNumber : field)
    (s : Store) :
  rejected email phoneNumber = false ->
  ((forall c, In c (rows s) -> ~ carries email phoneNumber c) ->
   resolve email phoneNumber s
   = (contactView (next_id s)
        (uniqueNonNull [orNull email]) (uniqueNonNull [orNull phoneNumber]) [],
      mkStore (rows s ++ [newPrimary email phoneNumber s])
        (next_id s + 1) (now s))) /\
  ((exists c, In c (rows s) /\ carries email phoneNumber c) ->
   forall c, In c (rows (snd (resolve email phoneNumber s))) ->
             linkPrecedence c = primary -> In c (rows s)).
Proof.
  intros R. split.
  - intros Hno.
    assert (E : existingContacts email phoneNumber (rows s) = []).
    { destruct (existingContacts email phoneNumber (rows s)) as [|sd sds] eqn:Es;
        [reflexivity|].
      assert (Hsd : In sd (existingContacts email phoneNumber (rows s)))
        by (rewrite Es; now left).
      apply existingContacts_In in Hsd; [|assumption].
      destruct Hsd as [Hin Hc]. now apply Hno in Hc. }
    rewrite resolve_cases, R, E. reflexivity.
  - intros [c0 [Hc0 Hcar]].
    assert (Hne : existingContacts email phoneNumber (rows s) <> []).
    { intros E.
      assert (H : In c0 (existingContacts email phoneNumber (rows s))).
      { apply existingContacts_In; [assumption|]. now split. }
      rewrite E in H. contradiction. }
    destruct (resolve_seeded email phoneNumber s R Hne)
      as [first [rest [_ [_ ->]]]].
    pose proof (afterWrites_updated email phoneNumber first (first :: rest) s)
      as Hrows.
    set (p := selectPrimary first (first :: rest)) in *.
    assert (Hkept : forall c,
               In c (updatedRows (map id (toDowngrade p (first :: rest)))
                       (mkUpdate secondary (Some (id p))) (now s) (rows s)) ->
               linkPrecedence c = primary -> In c (rows s)).
    { intros c Hc Hp. apply updatedRows_In in Hc.
      destruct Hc as [c1 [Hc1 E]].
      destruct (mem_Z (id c1) (map id (toDowngrade p (first :: rest)))).
      - subst c. discriminate Hp.
      - now subst c. }
    intros c Hc Hp. apply (Permutation_in _ Hrows) in Hc.
    apply in_app_or in Hc. destruct Hc as [Hc|Hc]; [now apply Hkept|].
    destruct (introducesNewInfo email phoneNumber (first :: rest));
      [|contradiction].
    destruct Hc as [<-|[]]. discriminate Hp.
Qed.

Lemma primary_created_only_when_unseen_witness :
  rejected (Str "z@x") (Str "9") = false /\
  rows (snd (resolve (Str "z@x") (Str "9") storeOneContact))
  = rows storeOneContact ++ [newPrimary (Str "z@x") (Str "9") storeOneContact].
Proof.
  split; [reflexivity|].
  pose proof (proj1 (primary_created_only_when_unseen (Str "z@x") (Str "9")
                       storeOneContact eq_refl)) as T.
  rewrite T; [reflexivity|].
  intros c Hc. cbn in Hc. destruct Hc as [<-|[]].
  intros [[v [E1 E2]]|[v [E1 E2]]]; cbn in E2; congruence.
Defined.

(** X8: a lookup by one identifier alone, the other being absent or
    null, never inserts a row when some row carries that identifier: the
    store keeps its number of rows. *)
Theorem lookup_by_one_identifier_inserts_nothing (email phoneNumber : field)
    (s : Store) :
  In email [Absent; Null] \/ In phoneNumber [Absent; Null] ->
  rejected email phoneNumber = false ->
  existingContacts email phoneNumber (rows s) <> [] ->
  introducesNewInfo email phoneNumber
    (allLinkedContacts email phoneNumber (rows s)) = false /\
  List.length (rows (snd (resolve email phoneNumber s)))
  = List.length (rows s).
Proof.
  intros Hone R Hne.
  assert (Hno : introducesNewInfo email phoneNumber
                  (allLinkedContacts email phoneNumber (rows s)) = false).
  { destruct (introducesNewInfo email phoneNumber
                (allLinkedContacts email phoneNumber (rows s))) eqn:I;
      [|reflexivity].
    exfalso. apply introducesNewInfo_spec in I. destruct I as [_ Hnew].
    destruct (existingContacts email phoneNumber (rows s)) as [|sd sds] eqn:Es;
      [contradiction|].
    assert (Hsd : In sd (existingContacts email phoneNumber (rows s)))
      by (rewrite Es; now left).
    pose proof (seeds_in_allLinkedContacts _ _ _ _ R Hsd) as Hfound.
    destruct (seed_carries_input _ _ _ _ R Hsd) as [_ Hcar].
    destruct Hone as [He|Hp].
    - assert (Ne : forall v, email <> Str v).
      { intros v E. subst. cbn in He. destruct He as [H|[H|[]]]; discriminate H. }
      destruct Hcar as [[v [E _]]|[v [E Hv]]]; [now apply Ne in E|].
      destruct Hnew as [[w [E' _]]|[w [E' [_ Hw]]]]; [now apply Ne in E'|].
      assert (w = v) by congruence. subst w. now apply (Hw sd).
    - assert (Np : forall v, phoneNumber <> Str v).
      { intros v E. subst. cbn in Hp. destruct Hp as [H|[H|[]]]; discriminate H. }
      destruct Hcar as [[v [E Hv]]|[v [E _]]]; [|now apply Np in E].
      destruct Hnew as [[w [E' [_ Hw]]]|[w [E' _]]]; [|now apply Np in E'].
      assert (w = v) by congruence. subst w. now apply (Hw sd). }
  split; [exact Hno|].
  destruct (resolve_seeded email phoneNumber s R Hne)
    as [first [rest [Ea [_ ->]]]].
  unfold afterWrites. rewrite <- Ea, Hno. cbn [rows].
  apply length_downgradeRows.
Qed.

Lemma lookup_by_one_identifier_inserts_nothing_witness :
  List.length (rows (snd (resolve Absent (Str "2") storeTwoComponents)))
  = List.length (rows storeTwoComponents).
Proof.
  refine (proj2 (lookup_by_one_identifier_inserts_nothing Absent (Str "2")
                   storeTwoComponents _ eq_refl _)).
  - left. cbn. tauto.
  - vm_compute. discriminate.
Defined.

(** ** What the response holds *)

Lemma numbers_map_JNum (l : list Z) : numbers (map JNum l) = l.
Proof. induction l as [|x l IH]; cbn; [reflexivity | now rewrite IH]. Qed.

Lemma response_secondaryContactIds_contactView (i : Z) (es ps : list string)
    (ids : list Z) :
  response_secondaryContactIds (contactView i es ps ids) = ids.
Proof. cbn. apply numbers_map_JNum. Qed.

Lemma snapshot_In (p c : Contact) (l : list Contact) :
  In c (findMany [IdEq (id p); LinkedIdEq (id p)] l) <->
  In c l /\ inViewOf p c.
Proof.
  rewrite findMany_In. unfold inViewOf. cbn [existsb matches].
  rewrite orb_false_r, orb_true_iff, Z.eqb_eq.
  destruct (linkedId c) as [x|].
  - rewrite Z.eqb_eq. split; intros [H1 [H2|H2]]; split; auto;
      right; congruence.
  - split; intros [H1 [H2|H2]]; split; auto; discriminate.
Qed.

(** The selected primary is not a target of the downgrade pass and stays
    in the store as it was. *)
Lemma selected_primary_kept (email phoneNumber : field) (first : Contact)
    (found : list Contact) (s : Store) :
  In (selectPrimary first found) found -> incl found (rows s) ->
  mem_Z (id (selectPrimary first found))
    (map id (toDowngrade (selectPrimary first found) found)) = false /\
  In (selectPrimary first found)
    (rows (afterWrites email phoneNumber first found s)).
Proof.
  intros Hp Hsub. set (p := selectPrimary first found) in *.
  assert (M : mem_Z (id p) (map id (toDowngrade p found)) = false).
  { destruct (mem_Z (id p) (map id (toDowngrade p found))) eqn:M;
      [|reflexivity].
    apply mem_Z_In, in_map_iff in M. destruct M as [d [E Hd]].
    apply downgraded_not_primary in Hd. destruct Hd as [_ N].
    now contradiction N. }
  split; [exact M|].
  apply (Permutation_in _
           (Permutation_sym
              (afterWrites_updated email phoneNumber first found s))).
  fold p. apply in_or_app. left.
  apply updatedRows_In. exists p. rewrite M. split; [now apply Hsub|].
  reflexivity.
Qed.

(** A row found is in the view of the selected primary after the
    writes, with its email and phone. *)
Lemma found_in_view (email phoneNumber : field) (first : Contact)
    (found : list Contact) (s : Store) (c : Contact) :
  incl found (rows s) -> In c found ->
  exists c',
    In c' (rows (afterWrites email phoneNumber first found s)) /\
    inViewOf (selectPrimary first found) c' /\
    Contact_email c' = Contact_email c /\
    Contact_phoneNumber c' = Contact_phoneNumber c.
Proof.
  intros Hsub Hc. set (p := selectPrimary first found).
  set (targets := map id (toDowngrade p found)).
  set (d := mkUpdate secondary (Some (id p))).
  exists (if mem_Z (id c) targets then apply_update d (now s) c else c).
  split.
  { apply (Permutation_in _
             (Permutation_sym
                (afterWrites_updated email phoneNumber first found s))).
    fold p targets d. apply in_or_app. left.
    apply updatedRows_In. exists c. split; [now apply Hsub | reflexivity]. }
  unfold inViewOf. destruct (mem_Z (id c) targets) eqn:M.
  - cbn. auto.
  - assert (Hnd : ~ In c (toDowngrade p found)).
    { intros H. apply (in_map id) in H. fold targets in H.
      apply mem_Z_In in H. congruence. }
    destruct (not_downgraded p c found Hc Hnd) as [Ei | [_ El]]; auto.
Qed.

Lemma allLinkedContacts_stored (email phoneNumber : field) (l : list Contact) :
  incl (allLinkedContacts email phoneNumber l) l.
Proof. intros c Hc. apply findMany_In in Hc. tauto. Qed.

(** The response of an accepted request with a seed. *)
Lemma resolve_seeded_response (email phoneNumber : field) (s : Store)
    (thePrimary : Contact) :
  rejected email phoneNumber = false ->
  selectedPrimary email phoneNumber (rows s) = Some thePrimary ->
  fst (resolve email phoneNumber s)
  = formatView thePrimary
      (findMany [IdEq (id thePrimary); LinkedIdEq (id thePrimary)]
         (rows (snd (resolve email phoneNumber s)))) /\
  In thePrimary (rows (snd (resolve email phoneNumber s))) /\
  (forall c, In c (allLinkedContacts email phoneNumber (rows s)) ->
     exists c',
       In c' (rows (snd (resolve email phoneNumber s))) /\
       inViewOf thePrimary c' /\
       Contact_email c' = Contact_email c /\
       Contact_phoneNumber c' = Contact_phoneNumber c).
Proof.
  intros R Hsel. rewrite resolve_cases, R. unfold selectedPrimary in Hsel.
  pose proof (allLinkedContacts_stored email phoneNumber (rows s)) as Hsub.
  destruct (existingContacts email phoneNumber (rows s)) as [|sd sds];
    [discriminate|].
  destruct (allLinkedContacts email phoneNumber (rows s)) as [|first rest];
    [discriminate|].
  assert (thePrimary = selectPrimary first (first :: rest)) as ->
      by congruence.
  cbn [fst snd]. split; [reflexivity|]. split.
  - apply selected_primary_kept; [apply selectPrimary_In | exact Hsub].
  - intros c Hc. now apply found_in_view.
Qed.

Lemma prependIfPresent_In (arr : list string) (val : option string)
    (x : string) :
  (forall v, val = Some v -> v <> "" -> In v arr) ->
  (In x (prependIfPresent arr val) <-> In x arr).
Proof.
  intros Hval. unfold prependIfPresent. destruct val as [v|]; [|tauto].
  destruct (v =? "")%string eqn:E; [tauto|].
  apply String.eqb_neq in E. specialize (Hval v eq_refl E).
  cbn [In]. rewrite filter_In. split.
  - intros [<-|[H _]]; assumption.
  - intros H. destruct (x =? v)%string eqn:Ex.
    + apply String.eqb_eq in Ex. left. now symmetry.
    + right. split; [assumption | reflexivity].
Qed.

(** X10: with a seed, the response is the view of the selected primary
    over the store the request leaves: its emails (phone numbers) are
    exactly the emails (phones) of the rows that are the primary or are
    linked to it, and its [secondaryContactIds] are exactly the ids of
    those rows that are secondary. *)
Theorem response_is_view_of_primary (email phoneNumber : field) (s : Store)
    (thePrimary : Contact) :
  rejected email phoneNumber = false ->
  selectedPrimary email phoneNumber (rows s) = Some thePrimary ->
  (forall v,
      In v (response_emails (fst (resolve email phoneNumber s))) <->
      exists c, In c (rows (snd (resolve email phoneNumber s))) /\
                inViewOf thePrimary c /\ Contact_email c = Some v) /\
  (forall v,
      In v (response_phoneNumbers (fst (resolve email phoneNumber s))) <->
      exists c, In c (rows (snd (resolve email phoneNumber s))) /\
                inViewOf thePrimary c /\ Contact_phoneNumber c = Some v) /\
  (forall i,
      In i (response_secondaryContactIds (fst (resolve email phoneNumber s))) <->
      exists c, In c (rows (snd (resolve email phoneNumber s))) /\
                inViewOf thePrimary c /\ linkPrecedence c = secondary /\
                id c = i).
Proof.
  intros R Hsel.
  destruct (resolve_seeded_response email phoneNumber s thePrimary R Hsel)
    as [E [Hp _]].
  rewrite E. unfold formatView.
  rewrite response_emails_contactView, response_phoneNumbers_contactView,
    response_secondaryContactIds_contactView.
  set (l2 := rows (snd (resolve email phoneNumber s))) in *.
  assert (Hview : In thePrimary
                    (findMany [IdEq (id thePrimary); LinkedIdEq (id thePrimary)]
                       l2)).
  { apply snapshot_In. split; [assumption | now left]. }
  split; [|split].
  - intros v. rewrite prependIfPresent_In.
    + rewrite uniqueNonNull_In, in_map_iff. split.
      * intros [c [Hc Hin]]. apply snapshot_In in Hin. exists c. tauto.
      * intros [c [Hc [Hv He]]]. exists c. split; [assumption|].
        apply snapshot_In. tauto.
    + intros w Hw _. apply uniqueNonNull_In, in_map_iff.
      exists thePrimary. tauto.
  - intros v. rewrite prependIfPresent_In.
    + rewrite uniqueNonNull_In, in_map_iff. split.
      * intros [c [Hc Hin]]. apply snapshot_In in Hin. exists c. tauto.
      * intros [c [Hc [Hv He]]]. exists c. split; [assumption|].
        apply snapshot_In. tauto.
    + intros w Hw _. apply uniqueNonNull_In, in_map_iff.
      exists thePrimary. tauto.
  - intros i. rewrite in_map_iff. split.
    + intros [c [Hi Hc]]. apply filter_In in Hc. destruct Hc as [Hc Hs].
      apply snapshot_In in Hc. apply LinkPrecedence_eqb_eq in Hs.
      exists c. tauto.
    + intros [c [Hc [Hv [Hs Hi]]]]. exists c. split; [assumption|].
      apply filter_In. split; [apply snapshot_In; tauto|].
      now apply LinkPrecedence_eqb_eq.
Qed.

Lemma response_is_view_of_primary_witness :
  In "c@x" (response_emails
              (fst (resolve (Str "a@x") (Str "2") storeTwoComponents))).
Proof.
  apply (proj1 (response_is_view_of_primary (Str "a@x") (Str "2")
                  storeTwoComponents
                  (mkContact 1 (Some "a@x") (Some "1") primary None 1 1)
                  eq_refl eq_refl)).
  exists (mkContact 3 (Some "c@x") (Some "2") secondary (Some 1) 3 1000).
  split; [vm_compute; tauto|]. split; [right; reflexivity | reflexivity].
Defined.

(** X11: the response of an accepted request holds the request's own
    email and phone, when they are non-empty strings: a value that no row
    found carries is on the row the request inserts, and a value that some
    row found carries is on a row that is, after the downgrade pass, the
    primary or linked to it. *)
Theorem response_holds_request_values (email phoneNumber : field) (s : Store) :
  rejected email phoneNumber = false ->
  (forall v, email = Str v -> v <> "" ->
             In v (response_emails (fst (resolve email phoneNumber s)))) /\
  (forall v, phoneNumber = Str v -> v <> "" ->
             In v (response_phoneNumbers (fst (resolve email phoneNumber s)))).
Proof.
  intros R.
  destruct (existingContacts email phoneNumber (rows s)) as [|sd sds] eqn:Es.
  - rewrite resolve_cases, R, Es. cbn [fst].
    rewrite response_emails_contactView, response_phoneNumbers_contactView.
    split; intros v -> _; apply uniqueNonNull_In; now left.
  - assert (Hne : existingContacts email phoneNumber (rows s) <> [])
      by (rewrite Es; discriminate).
    destruct (resolve_seeded email phoneNumber s R Hne)
      as [first [rest [Ea [Ep Eq]]]].
    set (p := selectPrimary first (first :: rest)) in *.
    destruct (resolve_seeded_response email phoneNumber s p R Ep)
      as [E [Hp Hview]].
    assert (Hnew : introducesNewInfo email phoneNumber (first :: rest) = true ->
                   In (newSecondary email phoneNumber p s)
                     (rows (snd (resolve email phoneNumber s)))).
    { intros I. rewrite Eq. unfold afterWrites. rewrite I. cbn [rows].
      apply in_or_app. right. now left. }
    rewrite E. unfold formatView.
    rewrite response_emails_contactView, response_phoneNumbers_contactView.
    assert (Hprim : In p (findMany [IdEq (id p); LinkedIdEq (id p)]
                            (rows (snd (resolve email phoneNumber s))))).
    { apply snapshot_In. split; [assumption | now left]. }
    split.
    + intros v -> Hv. rewrite prependIfPresent_In.
      2:{ intros w Hw _. apply uniqueNonNull_In, in_map_iff. exists p. tauto. }
      apply uniqueNonNull_In, in_map_iff.
      destruct (existsb (fun c => opt_string_eqb (Contact_email c) (Some v))
                  (first :: rest)) eqn:X.
      * apply existsb_exists in X. destruct X as [c [Hc Hv']].
        apply opt_string_eqb_eq in Hv'.
        rewrite <- Ea in Hc. destruct (Hview c Hc) as [c' [H1 [H2 [H3 _]]]].
        exists c'. split; [congruence|]. apply snapshot_In. tauto.
      * exists (newSecondary (Str v) phoneNumber p s).
        split; [reflexivity|]. apply snapshot_In.
        split; [|right; reflexivity]. apply Hnew.
        apply introducesNewInfo_spec.
        assert (Hun : forall c, In c (first :: rest) ->
                                Contact_email c <> Some v).
        { intros c Hc Hv'. rewrite existsb_false_forall in X.
          specialize (X c Hc). rewrite Hv' in X. cbn in X.
          rewrite String.eqb_refl in X. discriminate. }
        split.
        -- intros [c [Hc [He _]]]. now apply (Hun c Hc).
        -- left. exists v. repeat split; assumption.
    + intros v -> Hv. rewrite prependIfPresent_In.
      2:{ intros w Hw _. apply uniqueNonNull_In, in_map_iff. exists p. tauto. }
      apply uniqueNonNull_In, in_map_iff.
      destruct (existsb (fun c => opt_string_eqb (Contact_phoneNumber c) (Some v))
                  (first :: rest)) eqn:X.
      * apply existsb_exists in X. destruct X as [c [Hc Hv']].
        apply opt_string_eqb_eq in Hv'.
        rewrite <- Ea in Hc. destruct (Hview c Hc) as [c' [H1 [H2 [_ H3]]]].
        exists c'. split; [congruence|]. apply snapshot_In. tauto.
      * exists (newSecondary email (Str v) p s).
        split; [reflexivity|]. apply snapshot_In.
        split; [|right; reflexivity]. apply Hnew.
        apply introducesNewInfo_spec.
        assert (Hun : forall c, In c (first :: rest) ->
                                Contact_phoneNumber c <> Some v).
        { intros c Hc Hv'. rewrite existsb_false_forall in X.
          specialize (X c Hc). rewrite Hv' in X. cbn in X.
          rewrite String.eqb_refl in X. discriminate. }
        split.
        -- intros [c [Hc [_ He]]]. now apply (Hun c Hc).
        -- right. exists v. repeat split; assumption.
Qed.

Lemma response_holds_request_values_witness :
  In "a@x" (response_emails
              (fst (resolve (Str "a@x") (Str "2") storeTwoComponents))) /\
  In "2" (response_phoneNumbers
            (fst (resolve (Str "a@x") (Str "2") storeTwoComponents))).
Proof.
  pose proof (response_holds_request_values (Str "a@x") (Str "2")
                storeTwoComponents eq_refl) as [T1 T2].
  split.
  - apply (T1 "a@x"); [reflexivity | discriminate].
  - apply (T2 "2"); [reflexivity | discriminate].
Defined.

Lemma resolve_uniqueIds (email phoneNumber : field) (s : Store) :
  uniqueIds s -> uniqueIds (snd (resolve email phoneNumber s)).
Proof.
  intros U. destruct (rejected email phoneNumber) eqn:R.
  - now rewrite resolve_rejected.
  - destruct (existingContacts email phoneNumber (rows s)) as [|sd sds] eqn:Es.
    + rewrite resolve_unseeded by assumption. now apply uniqueIds_insert.
    + assert (Hne : existingContacts email phoneNumber (rows s) <> [])
        by (rewrite Es; discriminate).
      destruct (resolve_seeded email phoneNumber s R Hne)
        as [first [rest [_ [_ ->]]]].
      unfold afterWrites, downgradeRows.
      destruct (introducesNewInfo email phoneNumber (first :: rest)).
      * apply uniqueIds_insert; [assumption | | reflexivity].
        apply map_id_fold_update.
      * apply uniqueIds_update; [assumption|]. apply map_id_fold_update.
Qed.

Lemma NoDup_map_id_filter (f : Contact -> bool) (l : list Contact) :
  NoDup (map id l) -> NoDup (map id (filter f l)).
Proof.
  induction l as [|c l IH]; intros N; cbn; [constructor|].
  inversion N as [|x xs Hnot Hnd]; subst.
  destruct (f c); [|now apply IH].
  cbn. constructor; [|now apply IH].
  intros H. apply Hnot. apply in_map_iff in H. destruct H as [d [E Hd]].
  apply filter_In in Hd. rewrite <- E. apply in_map. tauto.
Qed.

(** X12: in a store with unique ids, the [secondaryContactIds] of a
    response have no duplicates, and when the row step 4 selects is a
    primary its id is not among them. *)
Theorem secondary_ids_exclude_primary (email phoneNumber : field) (s : Store) :
  uniqueIds s ->
  NoDup (response_secondaryContactIds (fst (resolve email phoneNumber s))) /\
  (selectedIsPrimary email phoneNumber (rows s) ->
   ~ In (id (primaryOf email phoneNumber s))
       (response_secondaryContactIds (fst (resolve email phoneNumber s)))).
Proof.
  intros U.
  destruct (rejected email phoneNumber) eqn:R.
  { rewrite resolve_rejected by assumption. cbn.
    split; [constructor | tauto]. }
  destruct (selectedPrimary email phoneNumber (rows s)) as [p|] eqn:Ep.
  - destruct (resolve_seeded_response email phoneNumber s p R Ep)
      as [E [Hp _]].
    pose proof (resolve_uniqueIds email phoneNumber s U) as [N _].
    unfold primaryOf. rewrite Ep, E. unfold formatView.
    rewrite response_secondaryContactIds_contactView. split.
    + unfold findMany. now apply NoDup_map_id_filter, NoDup_map_id_filter.
    + intros Hsel H. apply in_map_iff in H. destruct H as [c [Ei Hc]].
      apply filter_In in Hc. destruct Hc as [Hc Hs].
      apply LinkPrecedence_eqb_eq in Hs. apply snapshot_In in Hc.
      destruct Hc as [Hc _].
      assert (c = p) by (apply (NoDup_id_eq _ c p N); assumption).
      subst c. rewrite (Hsel p Ep) in Hs. discriminate.
  - rewrite resolve_cases, R. unfold selectedPrimary in Ep.
    destruct (existingContacts email phoneNumber (rows s)) as [|sd sds].
    + cbn. split; [constructor | tauto].
    + destruct (allLinkedContacts email phoneNumber (rows s)) as [|f r];
        [|discriminate].
      cbn. split; [constructor | tauto].
Qed.

Lemma secondary_ids_exclude_primary_witness :
  NoDup (response_secondaryContactIds
           (fst (resolve (Str "a@x") (Str "2") storeTwoComponents))) /\
  ~ In 1 (response_secondaryContactIds
            (fst (resolve (Str "a@x") (Str "2") storeTwoComponents))).
Proof.
  assert (U : uniqueIds storeTwoComponents).
  { split.
    - cbn. repeat constructor; cbn; intuition discriminate.
    - intros c Hc. cbn in Hc.
      destruct Hc as [<-|[<-|[<-|[]]]]; cbn; lia. }
  destruct (secondary_ids_exclude_primary (Str "a@x") (Str "2")
              storeTwoComponents U) as [T1 T2].
  split; [exact T1|]. apply T2.
  intros q Hq. vm_compute in Hq. injection Hq as <-. reflexivity.
Defined.

(** ** The same request again *)

Lemma filter_none {A : Type} (f : A -> bool) (l : list A) :
  (forall x, In x l -> f x = false) -> filter f l = [].
Proof.
  induction l as [|a l IH]; intros H; cbn; [reflexivity|].
  rewrite (H a (or_introl eq_refl)). apply IH.
  intros x Hx. apply H. now right.
Qed.

Lemma keepsColumns_fields (g : Contact -> Contact) (c : Contact) :
  keepsColumns g ->
  id (g c) = id c /\ Contact_email (g c) = Contact_email c /\
  Contact_phoneNumber (g c) = Contact_phoneNumber c /\
  createdAt (g c) = createdAt c.
Proof.
  intros K. specialize (K c). unfold frozen in K.
  injection K as H1 H2 H3 H4. auto.
Qed.

Lemma downgradeRow_keepsColumns (targets : list Z) (d : updateData) (t : Z) :
  keepsColumns (downgradeRow targets d t).
Proof.
  intros c. unfold downgradeRow. destruct (mem_Z (id c) targets); reflexivity.
Qed.

(** After the downgrade pass nothing is left to downgrade. *)
Lemma toDowngrade_after (p : Contact) (found : list Contact) (t : Z) :
  toDowngrade p
    (map (downgradeRow (map id (toDowngrade p found))
            (mkUpdate secondary (Some (id p))) t) found) = [].
Proof.
  unfold toDowngrade at 1. apply filter_none.
  intros c' Hc'. apply in_map_iff in Hc'. destruct Hc' as [c [<- Hc]].
  unfold downgradeRow.
  destruct (mem_Z (id c) (map id (toDowngrade p found))) eqn:M.
  - cbn. rewrite Z.eqb_refl. cbn. apply andb_false_r.
  - assert (Hnd : ~ In c (toDowngrade p found)).
    { intros H. apply (in_map id) in H. apply mem_Z_In in H. congruence. }
    unfold toDowngrade in Hnd. rewrite filter_In in Hnd.
    match goal with |- ?b = false => destruct b eqn:B end;
      [|reflexivity].
    exfalso. apply Hnd. split; [assumption | first [exact B | reflexivity]].
Qed.

Lemma afterWrites_noop (email phoneNumber : field) (first : Contact)
    (found : list Contact) (s : Store) :
  toDowngrade (selectPrimary first found) found = [] ->
  introducesNewInfo email phoneNumber found = false ->
  afterWrites email phoneNumber first found s = s.
Proof.
  intros D I. unfold afterWrites, downgradeRows. rewrite D, I.
  destruct s. reflexivity.
Qed.

(** A request whose expansion leaves nothing to write. *)
Lemma resolve_noop (email phoneNumber : field) (s : Store)
    (first : Contact) (rest : list Contact) :
  rejected email phoneNumber = false ->
  existingContacts email phoneNumber (rows s) <> [] ->
  allLinkedContacts email phoneNumber (rows s) = first :: rest ->
  toDowngrade (selectPrimary first (first :: rest)) (first :: rest) = [] ->
  introducesNewInfo email phoneNumber (first :: rest) = false ->
  resolve email phoneNumber s
  = (formatView (selectPrimary first (first :: rest))
       (findMany [IdEq (id (selectPrimary first (first :: rest)));
                  LinkedIdEq (id (selectPrimary first (first :: rest)))]
          (rows s)),
     s).
Proof.
  intros R Hne Ea D I. rewrite resolve_cases, R, Ea.
  destruct (existingContacts email phoneNumber (rows s)) as [|sd sds];
    [contradiction|].
  now rewrite (afterWrites_noop email phoneNumber first (first :: rest) s D I).
Qed.

Lemma bool_eq_of_iff (a b : bool) : (a = true <-> b = true) -> a = b.
Proof. destruct a, b; intros [H1 H2]; auto; symmetry; auto. Qed.

Lemma opt_string_eqb_refl (a : option string) : opt_string_eqb a a = true.
Proof. now apply opt_string_eqb_eq. Qed.

(** A row with the email and the phone of an accepted request carries
    one of them, and what it shares with a row, that row carries. *)
Lemma request_row_carries (email phoneNumber : field) (n : Contact) :
  rejected email phoneNumber = false ->
  Contact_email n = orNull email ->
  Contact_phoneNumber n = orNull phoneNumber ->
  carries email phoneNumber n /\ shares n n /\
  forall c, shares n c -> carries email phoneNumber c.
Proof.
  intros R He Hp.
  assert (Hc : carries email phoneNumber n).
  { unfold carries. rewrite He, Hp.
    destruct email as [| |e], phoneNumber as [| |p];
      try (cbn in R; discriminate R); cbn; eauto. }
  split; [exact Hc|]. split.
  - destruct Hc as [[v [_ H]]|[v [_ H]]]; [left | right]; exists v; tauto.
  - intros c [[v [H1 H2]]|[v [H1 H2]]]; [left | right]; exists v;
      (split; [|assumption]).
    + rewrite He in H1. destruct email; cbn in H1; congruence.
    + rewrite Hp in H1. destruct phoneNumber; cbn in H1; congruence.
Qed.

Lemma expansion_pred_iff (email phoneNumber : field) (l : list Contact)
    (c : Contact) :
  rejected email phoneNumber = false ->
  existingContacts email phoneNumber l <> [] ->
  (existsb (matches c)
     (whereExpansion email phoneNumber (existingContacts email phoneNumber l))
   = true <->
   exists sd, In sd (existingContacts email phoneNumber l) /\ shares sd c).
Proof.
  intros R Hne. apply whereExpansion_matches.
  destruct (existingContacts email phoneNumber l) as [|sd sds] eqn:Es;
    [contradiction|].
  assert (Hsd : In sd (existingContacts email phoneNumber l))
    by (rewrite Es; now left).
  destruct (seed_carries_input _ _ _ _ R Hsd) as [_ [[v [_ H]]|[v [_ H]]]];
    exists sd, v; split; try (now left); tauto.
Qed.

(** The expansion query once a row with the request's own email and
    phone has been appended: it returns what it returned, and that
    row. *)
Lemma allLinkedContacts_snoc (email phoneNumber : field) (l : list Contact)
    (n : Contact) :
  rejected email phoneNumber = false ->
  Contact_email n = orNull email ->
  Contact_phoneNumber n = orNull phoneNumber ->
  existingContacts email phoneNumber (l ++ [n]) <> [] /\
  allLinkedContacts email phoneNumber (l ++ [n])
  = match existingContacts email phoneNumber l with
    | [] => []
    | _ :: _ => allLinkedContacts email phoneNumber l
    end ++ [n].
Proof.
  intros R He Hp.
  destruct (request_row_carries email phoneNumber n R He Hp)
    as [Hcar [Hself Hsh]].
  assert (Hn : In n (existingContacts email phoneNumber (l ++ [n]))).
  { apply existingContacts_In; [assumption|]. split; [|exact Hcar].
    apply in_or_app. right. now left. }
  assert (Hne2 : existingContacts email phoneNumber (l ++ [n]) <> []).
  { intros E. rewrite E in Hn. contradiction. }
  split; [exact Hne2|].
  unfold allLinkedContacts at 1. unfold findMany. rewrite filter_app. f_equal.
  - destruct (existingContacts email phoneNumber l) as [|sd0 sds0] eqn:Es.
    + apply filter_none. intros c Hc.
      match goal with |- ?b = false => destruct b eqn:B end; [|reflexivity].
      exfalso. apply (expansion_pred_iff _ _ _ _ R Hne2) in B.
      destruct B as [sd [Hsd Hs]].
      apply existingContacts_In in Hsd; [|assumption].
      destruct Hsd as [Hin Hcsd].
      assert (Hin' : In c (existingContacts email phoneNumber l)).
      { apply existingContacts_In; [assumption|]. split; [assumption|].
        apply in_app_or in Hin. destruct Hin as [Hin|[<-|[]]].
        - assert (X : In sd (existingContacts email phoneNumber l)).
          { apply existingContacts_In; [assumption|]. now split. }
          rewrite Es in X. contradiction.
        - now apply Hsh. }
      rewrite Es in Hin'. contradiction.
    + assert (Hne1 : existingContacts email phoneNumber l <> [])
        by (rewrite Es; discriminate).
      unfold allLinkedContacts, findMany.
      apply filter_ext_in. intros c Hc. apply bool_eq_of_iff.
      rewrite (expansion_pred_iff _ _ _ _ R Hne2),
        (expansion_pred_iff _ _ _ _ R Hne1).
      split; intros [sd [Hsd Hs]].
      * apply existingContacts_In in Hsd; [|assumption].
        destruct Hsd as [Hin Hcsd]. apply in_app_or in Hin.
        destruct Hin as [Hin|[<-|[]]].
        -- exists sd. split; [|assumption].
           apply existingContacts_In; [assumption|]. now split.
        -- exists c. split.
           ++ apply existingContacts_In; [assumption|].
              split; [assumption | now apply Hsh].
           ++ destruct (Hsh c Hs) as [[v [_ H]]|[v [_ H]]];
                [left | right]; exists v; tauto.
      * exists sd. split; [|assumption].
        apply existingContacts_In in Hsd; [|assumption].
        apply existingContacts_In; [assumption|].
        split; [apply in_or_app; left; tauto | tauto].
  - cbn [filter].
    assert (B : existsb (matches n)
                  (whereExpansion email phoneNumber
                     (existingContacts email phoneNumber (l ++ [n]))) = true).
    { apply (expansion_pred_iff _ _ _ _ R Hne2). exists n. now split. }
    now rewrite B.
Qed.

Lemma prepend_singleton (x : option string) :
  prependIfPresent (uniqueNonNull [x]) x = uniqueNonNull [x].
Proof.
  destruct x as [v|]; [|reflexivity].
  cbn. destruct (v =? "")%string; [reflexivity|].
  cbn. now rewrite String.eqb_refl.
Qed.

(** The second run after a request that found no seed. *)
Lemma repeat_unseeded (email phoneNumber : field) (s : Store) (t : Z) :
  rejected email phoneNumber = false ->
  existingContacts email phoneNumber (rows s) = [] ->
  resolve email phoneNumber
    (mkStore (rows s ++ [newPrimary email phoneNumber s]) (next_id s + 1) t)
  = (formatView (newPrimary email phoneNumber s)
       (findMany [IdEq (next_id s); LinkedIdEq (next_id s)]
          (rows s ++ [newPrimary email phoneNumber s])),
     mkStore (rows s ++ [newPrimary email phoneNumber s]) (next_id s + 1) t).
Proof.
  intros R Es. set (n := newPrimary email phoneNumber s).
  destruct (allLinkedContacts_snoc email phoneNumber (rows s) n R
              eq_refl eq_refl) as [Hne Ea].
  rewrite Es in Ea. cbn [app] in Ea.
  assert (Hsel : selectPrimary n [n] = n).
  { unfold selectPrimary. cbn [fold_left]. unfold older.
    now rewrite Z.ltb_irrefl. }
  rewrite (resolve_noop email phoneNumber
             (mkStore (rows s ++ [n]) (next_id s + 1) t) n [] R Hne Ea).
  - rewrite Hsel. reflexivity.
  - rewrite Hsel. unfold toDowngrade. cbn [filter].
    now rewrite Z.eqb_refl.
  - unfold introducesNewInfo, hasSameTuple. cbn [existsb].
    unfold n at 1 2. cbn [newPrimary Contact_email Contact_phoneNumber].
    now rewrite !opt_string_eqb_refl.
Qed.

Lemma filter_all {A : Type} (f : A -> bool) (l : list A) :
  (forall x, In x l -> f x = true) -> filter f l = l.
Proof.
  induction l as [|a l IH]; intros H; cbn; [reflexivity|].
  rewrite (H a (or_introl eq_refl)). f_equal. apply IH.
  intros x Hx. apply H. now right.
Qed.

Lemma filter_filter_andb {A : Type} (f g : A -> bool) (l : list A) :
  filter f (filter g l) = filter (fun x => g x && f x) l.
Proof.
  induction l as [|a l IH]; cbn; [reflexivity|].
  destruct (g a); cbn; [destruct (f a)|]; now rewrite IH.
Qed.

Lemma filter_nil_forall {A : Type} (f : A -> bool) (l : list A) :
  filter f l = [] -> forall x, In x l -> f x = false.
Proof.
  intros E x Hx. destruct (f x) eqn:F; [|reflexivity].
  assert (H : In x (filter f l)) by (apply filter_In; now split).
  rewrite E in H. contradiction.
Qed.

(** What a filter returns around one of the rows it returns comes from
    around that row. *)
Lemma filter_decompose {A : Type} (f : A -> bool) (l : list A) (x : A)
    (b : list A) :
  forall a, filter f l = a ++ x :: b ->
  exists X Y, l = X ++ x :: Y /\ filter f X = a /\ filter f Y = b.
Proof.
  induction l as [|h l IH]; intros a E; cbn in E.
  - destruct a; discriminate E.
  - destruct (f h) eqn:F.
    + destruct a as [|a0 a].
      * cbn in E. injection E as -> E. exists [], l. now repeat split.
      * cbn in E. injection E as -> E.
        destruct (IH a E) as [X [Y [-> [HX HY]]]].
        exists (a0 :: X), Y. cbn. rewrite F, HX. now repeat split.
    + destruct (IH a E) as [X [Y [-> [HX HY]]]].
      exists (h :: X), Y. cbn. rewrite F. now repeat split.
Qed.

(** The rows after the updates of step 5, in storage return order: the
    rows that are not updated, in their order, and then the updated
    ones. *)
Lemma appliedUpdates_split (d : updateData) (t : Z) (ids : list Z) :
  forall l,
  exists moved,
    appliedUpdates ids d t l
    = filter (fun c => negb (mem_Z (id c) ids)) l ++ moved /\
    forall m, In m moved ->
      exists c, In c l /\ mem_Z (id c) ids = true /\ m = apply_update d t c.
Proof.
  induction ids as [|i ids IH]; intros l.
  - exists []. split; [|intros m []].
    unfold appliedUpdates. cbn [fold_left]. rewrite app_nil_r.
    symmetry. apply filter_all. reflexivity.
  - unfold appliedUpdates. cbn [fold_left].
    fold (appliedUpdates ids d t (update_rows i d t l)).
    destruct (IH (update_rows i d t l)) as [mv [E Hmv]]. rewrite E.
    unfold update_rows at 1. rewrite filter_app, filter_filter_andb.
    exists (filter (fun c => negb (mem_Z (id c) ids))
              (map (apply_update d t) (filter (fun c => id c =? i) l)) ++ mv).
    split.
    + rewrite <- app_assoc. f_equal. apply filter_ext. intros c.
      unfold mem_Z. cbn [existsb]. now rewrite negb_orb.
    + intros m Hm. apply in_app_or in Hm. destruct Hm as [Hm|Hm].
      * apply filter_In in Hm. destruct Hm as [Hm _].
        apply in_map_iff in Hm. destruct Hm as [c [<- Hc]].
        apply filter_In in Hc. destruct Hc as [Hc Ei].
        exists c. split; [assumption|]. split; [|reflexivity].
        unfold mem_Z. cbn [existsb]. now rewrite Ei.
      * destruct (Hmv m Hm) as [c1 [Hc1 [M1 ->]]].
        unfold update_rows in Hc1. apply in_app_or in Hc1.
        destruct Hc1 as [Hc1|Hc1].
        -- apply filter_In in Hc1. exists c1. split; [tauto|].
           split; [|reflexivity].
           unfold mem_Z in *. cbn [existsb]. rewrite M1. apply orb_true_r.
        -- apply in_map_iff in Hc1. destruct Hc1 as [c0 [<- Hc0]].
           apply filter_In in Hc0. destruct Hc0 as [Hc0 Ei].
           exists c0. split; [assumption|]. split; [|reflexivity].
           unfold mem_Z. cbn [existsb]. now rewrite Ei.
Qed.

(** The row step 4 selects is the only row with nothing older after it
    and only younger rows before it. *)
Lemma first_minimum_unique (B : list Contact) :
  forall (B2 A A2 : list Contact) (p q : Contact),
    B ++ p :: A = B2 ++ q :: A2 ->
    (forall c, In c B -> createdAt p < createdAt c) ->
    (forall c, In c A -> createdAt p <= createdAt c) ->
    (forall c, In c B2 -> createdAt q < createdAt c) ->
    (forall c, In c A2 -> createdAt q <= createdAt c) ->
    p = q.
Proof.
  induction B as [|b B IH]; intros [|b2 B2] A A2 p q E HB HA HB2 HA2;
    cbn in E.
  - now injection E.
  - injection E as Ep EA. subst b2 A.
    assert (createdAt p <= createdAt q)
      by (apply HA, in_or_app; right; now left).
    assert (createdAt q < createdAt p) by (apply HB2; now left). lia.
  - injection E as Ep EA. subst b A2.
    assert (createdAt q <= createdAt p)
      by (apply HA2, in_or_app; right; now left).
    assert (createdAt p < createdAt q) by (apply HB; now left). lia.
  - injection E as Eb E. subst b2.
    apply (IH B2 A A2 p q E); auto.
    + intros c Hc. apply HB. now right.
    + intros c Hc. apply HB2. now right.
Qed.

Lemma selectPrimary_unique (first : Contact) (rest B A : list Contact)
    (p : Contact) :
  first :: rest = B ++ p :: A ->
  (forall c, In c B -> createdAt p < createdAt c) ->
  (forall c, In c A -> createdAt p <= createdAt c) ->
  selectPrimary first (first :: rest) = p.
Proof.
  intros E HB HA.
  destruct (selectPrimary_first_minimum first rest) as [B2 [A2 [E2 [HB2 HA2]]]].
  rewrite E in E2 at 1. symmetry.
  exact (first_minimum_unique B B2 A A2 p _ E2 HB HA HB2 HA2).
Qed.

Lemma carries_keepsColumns (g : Contact -> Contact)
    (email phoneNumber : field) (c : Contact) :
  keepsColumns g -> (carries email phoneNumber (g c) <-> carries email phoneNumber c).
Proof.
  intros K. destruct (keepsColumns_fields g c K) as [_ [E [P _]]].
  unfold carries. now rewrite E, P.
Qed.

Lemma shares_keepsColumns_l (g : Contact -> Contact) (a b : Contact) :
  keepsColumns g -> (shares (g a) b <-> shares a b).
Proof.
  intros K. destruct (keepsColumns_fields g a K) as [_ [E [P _]]].
  unfold shares. now rewrite E, P.
Qed.

Lemma shares_keepsColumns (g : Contact -> Contact) (a b : Contact) :
  keepsColumns g -> (shares (g a) (g b) <-> shares a b).
Proof.
  intros K.
  destruct (keepsColumns_fields g a K) as [_ [Ea [Pa _]]].
  destruct (keepsColumns_fields g b K) as [_ [Eb [Pb _]]].
  unfold shares. now rewrite Ea, Pa, Eb, Pb.
Qed.

(** The second run after a request that found a seed. *)
Lemma repeat_seeded (email phoneNumber : field) (s : Store) (t : Z)
    (first : Contact) (rest : list Contact) :
  rejected email phoneNumber = false ->
  existingContacts email phoneNumber (rows s) <> [] ->
  allLinkedContacts email phoneNumber (rows s) = first :: rest ->
  (forall c, In c (rows s) -> createdAt c <= now s) ->
  resolve email phoneNumber
    (at_time t (afterWrites email phoneNumber first (first :: rest) s))
  = (formatView (selectPrimary first (first :: rest))
       (findMany [IdEq (id (selectPrimary first (first :: rest)));
                  LinkedIdEq (id (selectPrimary first (first :: rest)))]
          (rows (afterWrites email phoneNumber first (first :: rest) s))),
     at_time t (afterWrites email phoneNumber first (first :: rest) s)).
Proof.
  intros R Hne Ea Hclock.
  set (p := selectPrimary first (first :: rest)).
  set (targets := map id (toDowngrade p (first :: rest))).
  set (d := mkUpdate secondary (Some (id p))).
  set (g := downgradeRow targets d (now s)).
  set (n := newSecondary email phoneNumber p s).
  set (s1 := afterWrites email phoneNumber first (first :: rest) s).
  assert (K : keepsColumns g) by apply downgradeRow_keepsColumns.
  assert (Hpf : In p (first :: rest)) by apply selectPrimary_In.
  assert (Hsub : incl (first :: rest) (rows s)).
  { rewrite <- Ea. apply allLinkedContacts_stored. }
  destruct (selected_primary_kept email phoneNumber first (first :: rest) s
              Hpf Hsub) as [Mp _].
  fold p targets in Mp.
  assert (Hgp : g p = p).
  { unfold g, downgradeRow. now rewrite Mp. }
  (* the rows of the store after the first run, up to their order *)
  pose proof (afterWrites_updated email phoneNumber first (first :: rest) s)
    as Hperm.
  fold p targets d n s1 in Hperm.
  change (updatedRows targets d (now s) (rows s)) with (map g (rows s))
    in Hperm.
  assert (F1 : forall c0, In c0 (rows s) -> In (g c0) (rows s1)).
  { intros c0 H0. apply (Permutation_in _ (Permutation_sym Hperm)).
    apply in_or_app. left. now apply in_map. }
  assert (F2 : forall c', In c' (rows s1) ->
                          (exists c0, In c0 (rows s) /\ c' = g c0) \/ c' = n).
  { intros c' H'. apply (Permutation_in _ Hperm) in H'.
    apply in_app_or in H'. destruct H' as [H'|H'].
    - left. apply in_map_iff in H'. destruct H' as [c0 [E H0]].
      exists c0. now split.
    - right. destruct (introducesNewInfo email phoneNumber (first :: rest));
        [|contradiction].
      destruct H' as [<-|[]]. reflexivity. }
  destruct (request_row_carries email phoneNumber n R eq_refl eq_refl)
    as [Hncar [_ Hnsh]].
  (* its seeds *)
  assert (S1 : forall c0,
             In c0 (existingContacts email phoneNumber (rows s)) ->
             In (g c0) (existingContacts email phoneNumber (rows s1))).
  { intros c0 H0. apply existingContacts_In in H0; [|assumption].
    destruct H0 as [H0 Hc].
    apply existingContacts_In; [assumption|]. split; [now apply F1|].
    exact (proj2 (carries_keepsColumns g email phoneNumber c0 K) Hc). }
  assert (S2 : forall c',
             In c' (existingContacts email phoneNumber (rows s1)) ->
             (exists c0, In c0 (existingContacts email phoneNumber (rows s)) /\
                         c' = g c0) \/ c' = n).
  { intros c' H'. apply existingContacts_In in H'; [|assumption].
    destruct H' as [H' Hc].
    destruct (F2 c' H') as [[c0 [H0 ->]]|E]; [left | now right].
    exists c0. split; [|reflexivity].
    apply existingContacts_In; [assumption|]. split; [assumption|].
    exact (proj1 (carries_keepsColumns g email phoneNumber c0 K) Hc). }
  assert (Hne1 : existingContacts email phoneNumber (rows s1) <> []).
  { intros E.
    destruct (existingContacts email phoneNumber (rows s)) as [|sd sds] eqn:Es;
      [contradiction|].
    specialize (S1 sd (or_introl eq_refl)). rewrite E in S1. contradiction. }
  (* the rows its expansion finds *)
  assert (Fd1 : forall c0,
             In c0 (first :: rest) ->
             In (g c0) (allLinkedContacts email phoneNumber (rows s1))).
  { intros c0 H0. rewrite <- Ea in H0.
    apply allLinkedContacts_In in H0; [|assumption|assumption].
    destruct H0 as [H0 [sd [Hsd Hs]]].
    apply allLinkedContacts_In; [assumption|assumption|].
    split; [now apply F1|].
    exists (g sd). split; [now apply S1|].
    exact (proj2 (shares_keepsColumns g sd c0 K) Hs). }
  assert (Fd2 : forall c',
             In c' (allLinkedContacts email phoneNumber (rows s1)) ->
             (exists c0, In c0 (first :: rest) /\ c' = g c0) \/ c' = n).
  { intros c' H'.
    apply allLinkedContacts_In in H'; [|assumption|assumption].
    destruct H' as [H' [sd' [Hsd' Hs]]].
    destruct (F2 c' H') as [[c0 [H0 ->]]|E]; [left | now right].
    exists c0. split; [|reflexivity]. rewrite <- Ea.
    destruct (S2 sd' Hsd') as [[sd0 [Hsd0 ->]]| ->].
    - apply allLinkedContacts_In; [assumption|assumption|].
      split; [assumption|].
      exists sd0. split; [assumption|].
      exact (proj1 (shares_keepsColumns g sd0 c0 K) Hs).
    - apply seeds_in_allLinkedContacts; [assumption|].
      apply existingContacts_In; [assumption|]. split; [assumption|].
      apply (proj1 (carries_keepsColumns g email phoneNumber c0 K)).
      now apply Hnsh. }
  assert (Fback : forall c,
             In c (rows s) ->
             In c (allLinkedContacts email phoneNumber (rows s1)) ->
             In c (first :: rest)).
  { intros c Hc H'. rewrite <- Ea.
    apply allLinkedContacts_In in H'; [|assumption|assumption].
    destruct H' as [_ [sd' [Hsd' Hs]]].
    destruct (S2 sd' Hsd') as [[sd0 [Hsd0 ->]]| ->].
    - apply allLinkedContacts_In; [assumption|assumption|].
      split; [assumption|].
      exists sd0. split; [assumption|].
      exact (proj1 (shares_keepsColumns_l g sd0 c K) Hs).
    - apply seeds_in_allLinkedContacts; [assumption|].
      apply existingContacts_In; [assumption|]. split; [assumption|].
      now apply Hnsh. }
  assert (Hn1 : introducesNewInfo email phoneNumber (first :: rest) = true ->
                In n (allLinkedContacts email phoneNumber (rows s1))).
  { intros I. apply seeds_in_allLinkedContacts; [assumption|].
    apply existingContacts_In; [assumption|]. split; [|exact Hncar].
    apply (Permutation_in _ (Permutation_sym Hperm)).
    apply in_or_app. right. rewrite I. now left. }
  assert (Hmin : forall c, In c (first :: rest) -> createdAt p <= createdAt c).
  { destruct (selectPrimary_first_minimum first rest) as [b [a [E [Hb Ha]]]].
    fold p in E, Hb, Ha.
    intros c Hc. rewrite E in Hc. apply in_app_or in Hc.
    destruct Hc as [Hc|[<-|Hc]].
    - specialize (Hb c Hc). lia.
    - lia.
    - now apply Ha. }
  assert (Hge : forall c',
             In c' (allLinkedContacts email phoneNumber (rows s1)) ->
             createdAt p <= createdAt c').
  { intros c' H'. destruct (Fd2 c' H') as [[c0 [H0 ->]]| ->].
    - destruct (keepsColumns_fields g c0 K) as [_ [_ [_ Ec]]]. rewrite Ec.
      now apply Hmin.
    - unfold n. cbn [newSecondary createdAt]. apply Hclock, Hsub, Hpf. }
  (* the selected primary is not moved: the rows found before it were
     found before it by the first run *)
  assert (Hdec : exists B A,
             allLinkedContacts email phoneNumber (rows s1) = B ++ p :: A /\
             forall c, In c B -> createdAt p < createdAt c).
  { destruct (selectPrimary_first_minimum first rest) as [b [a [E [Hb _]]]].
    fold p in E, Hb. rewrite <- Ea in E.
    unfold allLinkedContacts at 1, findMany in E.
    destruct (filter_decompose _ _ _ _ _ E) as [X [Y [EX [HX _]]]].
    destruct (appliedUpdates_split d (now s) targets (rows s))
      as [mv [Emv _]].
    assert (Erows : exists tail,
               rows s1
               = filter (fun c => negb (mem_Z (id c) targets)) (rows s) ++
                 tail).
    { unfold s1, afterWrites, downgradeRows. fold p targets d.
      unfold appliedUpdates in Emv. rewrite Emv.
      destruct (introducesNewInfo email phoneNumber (first :: rest));
        cbn [rows]; [rewrite <- app_assoc|]; eexists; reflexivity. }
    destruct Erows as [tail Erows].
    set (found1 := fun c =>
                     existsb (matches c)
                       (whereExpansion email phoneNumber
                          (existingContacts email phoneNumber (rows s1)))).
    assert (Hpp : found1 p = true).
    { specialize (Fd1 p Hpf). rewrite Hgp in Fd1.
      apply findMany_In in Fd1. tauto. }
    assert (EU : filter (fun c => negb (mem_Z (id c) targets)) (rows s)
                 = filter (fun c => negb (mem_Z (id c) targets)) X ++
                   p :: filter (fun c => negb (mem_Z (id c) targets)) Y).
    { rewrite EX at 1. rewrite filter_app. cbn [filter]. now rewrite Mp. }
    exists (filter found1 (filter (fun c => negb (mem_Z (id c) targets)) X)),
      (filter found1 (filter (fun c => negb (mem_Z (id c) targets)) Y) ++
       filter found1 tail).
    split.
    - unfold allLinkedContacts, findMany. fold found1.
      rewrite Erows, EU, !filter_app. cbn [filter]. rewrite Hpp.
      now rewrite <- app_assoc.
    - intros c Hc. apply filter_In in Hc. destruct Hc as [Hc Hf].
      assert (Hc1 : In c (rows s1)).
      { rewrite Erows, EU. apply in_or_app. left. apply in_or_app. now left. }
      apply filter_In in Hc. destruct Hc as [Hc _].
      apply Hb. rewrite <- HX. apply filter_In. split; [assumption|].
      assert (Hin : In c (rows s)).
      { rewrite EX. apply in_or_app. now left. }
      assert (Hfd : In c (first :: rest)).
      { apply Fback; [assumption|]. apply findMany_In. now split. }
      rewrite <- Ea in Hfd. apply findMany_In in Hfd. tauto. }
  destruct Hdec as [B [A [Edec HB]]].
  assert (HA : forall c, In c A -> createdAt p <= createdAt c).
  { intros c Hc. apply Hge. rewrite Edec. apply in_or_app. right. now right. }
  destruct (allLinkedContacts email phoneNumber (rows s1))
    as [|first1 rest1] eqn:Ea1.
  { destruct B; discriminate Edec. }
  assert (Hsel1 : selectPrimary first1 (first1 :: rest1) = p)
    by (apply (selectPrimary_unique _ _ B A); assumption).
  rewrite (resolve_noop email phoneNumber (at_time t s1) first1 rest1 R).
  - rewrite Hsel1. reflexivity.
  - exact Hne1.
  - exact Ea1.
  - rewrite Hsel1. unfold toDowngrade. apply filter_none. intros c' H'.
    destruct (Fd2 c' H') as [[c0 [H0 ->]]| ->].
    + pose proof (toDowngrade_after p (first :: rest) (now s)) as TD.
      unfold toDowngrade at 1 in TD.
      apply (filter_nil_forall _ _ TD). fold targets d g. now apply in_map.
    + cbn. rewrite Z.eqb_refl. cbn. now rewrite andb_false_r.
  - destruct (introducesNewInfo email phoneNumber (first1 :: rest1)) eqn:I1;
      [|reflexivity].
    exfalso. apply introducesNewInfo_spec in I1. destruct I1 as [Npair Hnew].
    destruct (introducesNewInfo email phoneNumber (first :: rest)) eqn:I.
    + apply Npair. exists n. split; [now apply Hn1|]. split; reflexivity.
    + assert (I' : introducesNewInfo email phoneNumber (first :: rest) = true).
      { apply introducesNewInfo_spec. split.
        - intros [c [Hc [He Hp]]]. apply Npair. exists (g c).
          split; [now apply Fd1|].
          destruct (keepsColumns_fields g c K) as [_ [E1 [E2 _]]].
          rewrite E1, E2. now split.
        - destruct Hnew as [[v [Ev [Nv Hun]]]|[v [Ev [Nv Hun]]]];
            [left | right]; exists v; repeat split; try assumption;
            intros c Hc Hcv; apply (Hun (g c)); try (now apply Fd1);
            destruct (keepsColumns_fields g c K) as [_ [E1 [E2 _]]];
            congruence. }
      congruence.
Qed.

(** X13: the same request again changes nothing.  In a store whose rows
    were created no later than its clock shows, after a request the same
    request, at whatever later time, leaves the store as it finds it: it
    selects the same primary, has nothing to downgrade and inserts
    nothing.  Its response is the response of the first run, provided no
    stored row had or was linked to the id the first run gave to the row
    it created. *)
Theorem repeated_request_changes_nothing (email phoneNumber : field)
    (s : Store) (t : Z) :
  (forall c, In c (rows s) -> createdAt c <= now s) ->
  snd (resolve email phoneNumber (at_time t (snd (resolve email phoneNumber s))))
  = at_time t (snd (resolve email phoneNumber s)) /\
  ((forall c, In c (rows s) ->
              id c <> next_id s /\ linkedId c <> Some (next_id s)) ->
   fst (resolve email phoneNumber
          (at_time t (snd (resolve email phoneNumber s))))
   = fst (resolve email phoneNumber s)).
Proof.
  intros Hclock.
  destruct (rejected email phoneNumber) eqn:R.
  { rewrite (resolve_rejected email phoneNumber s R). cbn [fst snd].
    rewrite (resolve_rejected email phoneNumber (at_time t s) R).
    split; reflexivity. }
  destruct (existingContacts email phoneNumber (rows s)) as [|sd sds] eqn:Es.
  - rewrite (resolve_unseeded email phoneNumber s R Es).
    assert (Ecase : resolve email phoneNumber s
                    = (contactView (next_id s)
                         (uniqueNonNull [orNull email])
                         (uniqueNonNull [orNull phoneNumber]) [],
                       mkStore (rows s ++ [newPrimary email phoneNumber s])
                         (next_id s + 1) (now s))).
    { rewrite resolve_cases, R, Es. reflexivity. }
    rewrite Ecase. unfold at_time. cbn [fst rows next_id].
    rewrite (repeat_unseeded email phoneNumber s t R Es). cbn [fst snd].
    split; [reflexivity|].
    intros Hfresh.
    assert (Eview : findMany [IdEq (next_id s); LinkedIdEq (next_id s)]
                      (rows s ++ [newPrimary email phoneNumber s])
                    = [newPrimary email phoneNumber s]).
    { unfold findMany. rewrite filter_app.
      rewrite filter_none.
      - cbn. now rewrite Z.eqb_refl.
      - intros c Hc. destruct (Hfresh c Hc) as [H1 H2]. cbn.
        apply Z.eqb_neq in H1. rewrite H1. cbn.
        destruct (linkedId c) as [x|]; [|reflexivity].
        rewrite orb_false_r. apply Z.eqb_neq. congruence. }
    rewrite Eview. unfold formatView. cbn [map filter newPrimary
      Contact_email Contact_phoneNumber linkPrecedence LinkPrecedence_eqb id].
    now rewrite !prepend_singleton.
  - assert (Hne : existingContacts email phoneNumber (rows s) <> [])
      by (rewrite Es; discriminate).
    destruct (resolve_seeded email phoneNumber s R Hne)
      as [first [rest [Ea [Ep Eq]]]].
    destruct (resolve_seeded_response email phoneNumber s _ R Ep) as [E1 _].
    rewrite E1, Eq.
    rewrite (repeat_seeded email phoneNumber s t first rest R Hne Ea Hclock).
    cbn [fst snd]. split; reflexivity.
Qed.

Lemma repeated_request_changes_nothing_witness :
  resolve (Str "a@x") (Str "2")
    (at_time 2000 (snd (resolve (Str "a@x") (Str "2") storeTwoComponents)))
  = (fst (resolve (Str "a@x") (Str "2") storeTwoComponents),
     at_time 2000 (snd (resolve (Str "a@x") (Str "2") storeTwoComponents))).
Proof.
  assert (Hclock : forall c, In c (rows storeTwoComponents) ->
                             createdAt c <= now storeTwoComponents).
  { intros c Hc. cbn in Hc.
    destruct Hc as [<-|[<-|[<-|[]]]]; cbn; lia. }
  assert (Hfresh : forall c, In c (rows storeTwoComponents) ->
                             id c <> next_id storeTwoComponents /\
                             linkedId c <> Some (next_id storeTwoComponents)).
  { intros c Hc. cbn in Hc.
    destruct Hc as [<-|[<-|[<-|[]]]]; cbn; split; discriminate. }
  destruct (repeated_request_changes_nothing (Str "a@x") (Str "2")
              storeTwoComponents 2000 Hclock) as [T1 T2].
  rewrite <- T1 at 2. rewrite <- (T2 Hfresh).
  apply surjective_pairing.
Defined.

(** ** Validation and early failures *)

(** X14: the handler accepts exactly the requests that have a non-empty
    string as email or as phone; alone and on a store that does not fail,
    a request is answered with status 400 when rejected and 200 when
    accepted. *)
Theorem validation_accepts_nonempty (email phoneNumber : field) :
  (rejected email phoneNumber = false <->
   (exists v, email = Str v /\ v <> "") \/
   (exists v, phoneNumber = Str v /\ v <> "")) /\
  (forall s, status (fst (resolve email phoneNumber s))
             = if rejected email phoneNumber then 400 else 200).
Proof.
  split; [|intros s; apply resolve_status].
  unfold rejected.
  destruct email as [| |e], phoneNumber as [| |p]; cbn;
    try (split; [discriminate | intros [[v [H _]]|[v [H _]]]; discriminate H]).
  - destruct (p =? "")%string eqn:E; cbn.
    + apply String.eqb_eq in E. split; [discriminate|].
      intros [[v [H _]]|[v [[= <-] N]]]; [discriminate H | contradiction].
    + apply String.eqb_neq in E. split; [|reflexivity]. intros _. right. eauto.
  - destruct (p =? "")%string eqn:E; cbn.
    + apply String.eqb_eq in E. split; [discriminate|].
      intros [[v [H _]]|[v [[= <-] N]]]; [discriminate H | contradiction].
    + apply String.eqb_neq in E. split; [|reflexivity]. intros _. right. eauto.
  - destruct (e =? "")%string eqn:E; cbn.
    + apply String.eqb_eq in E. split; [discriminate|].
      intros [[v [[= <-] N]]|[v [H _]]]; [contradiction | discriminate H].
    + apply String.eqb_neq in E. split; [|reflexivity]. intros _. left. eauto.
  - destruct (e =? "")%string eqn:E; cbn.
    + apply String.eqb_eq in E. split; [discriminate|].
      intros [[v [[= <-] N]]|[v [H _]]]; [contradiction | discriminate H].
    + apply String.eqb_neq in E. split; [|reflexivity]. intros _. left. eauto.
  - destruct (e =? "")%string eqn:E1, (p =? "")%string eqn:E2; cbn.
    + apply String.eqb_eq in E1, E2. split; [discriminate|].
      intros [[v [[= <-] N]]|[v [[= <-] N]]]; contradiction.
    + apply String.eqb_neq in E2. split; [|reflexivity]. intros _. right. eauto.
    + apply String.eqb_neq in E1. split; [|reflexivity]. intros _. left. eauto.
    + apply String.eqb_neq in E1. split; [|reflexivity]. intros _. left. eauto.
Qed.

(** X15: when the first or the second storage call of an accepted
    request throws, the request is answered with the server error of the
    [catch] branch and the store is as it was: both calls come before any
    write, or are the only write. *)
Theorem early_failure_changes_nothing (f : faults)
    (email phoneNumber : field) (s : Store) :
  rejected email phoneNumber = false ->
  f 0%nat = true \/ f 1%nat = true ->
  resolve_faulty f email phoneNumber s = (internalError, s).
Proof.
  intros R Hf. unfold resolve_faulty, identify.
  fold (rejected email phoneNumber). rewrite R. cbn [run_faulty].
  destruct (f 0%nat) eqn:F0; [reflexivity|].
  destruct Hf as [Hf|Hf]; [discriminate Hf|].
  destruct (Z.of_nat _ =? 0).
  - unfold createNewPrimary. cbn [run_faulty]. now rewrite Hf.
  - unfold expand. cbn [run_faulty]. now rewrite Hf.
Qed.

Lemma early_failure_changes_nothing_witness :
  resolve_faulty secondCallFails (Str "a@x") (Str "2") storeTwoComponents
  = (internalError, storeTwoComponents).
Proof.
  apply early_failure_changes_nothing; [reflexivity|].
  right. reflexivity.
Defined.

(** * One primary per component *)

Lemma shares_sym (a b : Contact) : shares a b -> shares b a.
Proof.
  intros [[v [H1 H2]]|[v [H1 H2]]]; [left | right]; exists v; tauto.
Qed.

Lemma shares_self (a b : Contact) : shares a b -> shares a a /\ shares b b.
Proof.
  intros [[v [H1 H2]]|[v [H1 H2]]]; split;
    first [left; exists v; tauto | right; exists v; tauto].
Qed.

Lemma connected_sym (l : list Contact) (a b : Contact) :
  connected l a b -> connected l b a.
Proof.
  unfold connected. intros C.
  induction C as [a b [Ha [Hb Hs]] | a | a b c _ IH1 _ IH2].
  - apply rt_step. split; [assumption|]. split; [assumption|].
    now apply shares_sym.
  - apply rt_refl.
  - eapply rt_trans; eassumption.
Qed.

Lemma connected_step (l : list Contact) (a b : Contact) :
  In a l -> In b l -> shares a b -> connected l a b.
Proof. intros Ha Hb Hs. apply rt_step. tauto. Qed.

Lemma componentInvariants_onePrimary (l : list Contact) :
  componentInvariants l -> onePrimaryPerComponent l.
Proof.
  intros [H _] c d Hc Hd C Pc Pd.
  destruct (H c Hc) as [p [_ [_ [_ [Huniq _]]]]].
  rewrite (Huniq c Hc (rt_refl _ _ c) Pc).
  now rewrite (Huniq d Hd C Pd).
Qed.

(** A row added at the end whose neighbours all share a value with each
    other connects no two rows that were not connected. *)
Lemma connected_snoc (l1 : list Contact) (n : Contact) :
  (forall x y, In x l1 -> In y l1 -> shares n x -> shares n y -> shares x y) ->
  forall a b,
    connected (l1 ++ [n]) a b -> In a l1 ->
    (In b l1 /\ connected l1 a b) \/
    (b = n /\ exists x, In x l1 /\ connected l1 a x /\ shares x n).
Proof.
  intros H a b C Ha. unfold connected in C. apply clos_rt_rtn1 in C.
  induction C as [|y b [Hy [Hb Hs]] C IH].
  - left. split; [assumption | apply rt_refl].
  - apply in_app_or in Hb.
    destruct IH as [[Hy1 Cy] | [-> [x [Hx [Cx Hxn]]]]].
    + destruct Hb as [Hb | [<- | []]].
      * left. split; [assumption|].
        eapply rt_trans; [exact Cy | now apply connected_step].
      * right. split; [reflexivity|]. exists y. tauto.
    + destruct Hb as [Hb | [<- | []]].
      * left. split; [assumption|].
        eapply rt_trans; [exact Cx|]. apply connected_step; try assumption.
        apply H; try assumption. now apply shares_sym.
      * right. split; [reflexivity|]. exists x. tauto.
Qed.

Lemma same_image_shares (g : Contact -> Contact) (x y z : Contact) :
  keepsColumns g -> g x = g y -> shares y z -> shares x z.
Proof.
  intros K E Hs.
  destruct (keepsColumns_fields g x K) as [_ [Ex [Px _]]].
  destruct (keepsColumns_fields g y K) as [_ [Ey [Py _]]].
  rewrite E in Ex, Px. unfold shares in *.
  rewrite <- Ex, <- Px. now rewrite Ey, Py.
Qed.

(** Rows connected after a rewriting that keeps emails and phones were
    connected before it. *)
Lemma connected_map (g : Contact -> Contact) (l : list Contact) :
  keepsColumns g ->
  forall a' b',
    connected (map g l) a' b' ->
    a' = b' \/
    exists a b, In a l /\ In b l /\ g a = a' /\ g b = b' /\
                connected l a b /\ shares a a /\ shares b b.
Proof.
  intros K a' b' C. unfold connected in C. apply clos_rt_rtn1 in C.
  induction C as [|y' b' [Hy [Hb Hs]] C IH].
  - now left.
  - right. apply in_map_iff in Hy. destruct Hy as [y2 [Ey Hy2]].
    apply in_map_iff in Hb. destruct Hb as [b2 [Eb Hb2]].
    subst y' b'. apply (shares_keepsColumns g y2 b2 K) in Hs.
    destruct (shares_self y2 b2 Hs) as [Sy Sb].
    destruct IH as [-> | [a [y [Ha [Hy1 [Ea [Ey [Cay [Sa _]]]]]]]]].
    + exists y2, b2. repeat split; try assumption.
      now apply connected_step.
    + exists a, b2. repeat split; try assumption.
      eapply rt_trans; [exact Cay|]. apply connected_step; try assumption.
      now apply (same_image_shares g y y2 b2 K).
Qed.

Lemma downgradeRow_primary (targets : list Z) (p : Contact) (t : Z)
    (l : list Contact) (c' : Contact) :
  In c' (map (downgradeRow targets (mkUpdate secondary (Some (id p))) t) l) ->
  linkPrecedence c' = primary ->
  In c' l /\
  downgradeRow targets (mkUpdate secondary (Some (id p))) t c' = c'.
Proof.
  intros Hc Hp. apply in_map_iff in Hc. destruct Hc as [c [E Hc]].
  unfold downgradeRow in E.
  destruct (mem_Z (id c) targets) eqn:M.
  - subst c'. discriminate Hp.
  - subst c'. split; [assumption|]. unfold downgradeRow. now rewrite M.
Qed.

(** After the downgrade pass alone. *)
Lemma onePrimary_downgraded (targets : list Z) (p : Contact) (t : Z)
    (l : list Contact) :
  onePrimaryPerComponent l ->
  onePrimaryPerComponent
    (map (downgradeRow targets (mkUpdate secondary (Some (id p))) t) l).
Proof.
  intros Hpre c' d' Hc Hd C Pc Pd.
  set (g := downgradeRow targets (mkUpdate secondary (Some (id p))) t) in *.
  assert (K : keepsColumns g) by apply downgradeRow_keepsColumns.
  destruct (downgradeRow_primary targets p t l c' Hc Pc) as [Hcl Ec].
  destruct (downgradeRow_primary targets p t l d' Hd Pd) as [Hdl Ed].
  fold g in Ec, Ed.
  destruct (connected_map g l K c' d' C)
    as [E | [a [b [Ha [Hb [Ea [Eb [Cab [Sa Sb]]]]]]]]]; [exact E|].
  apply Hpre; try assumption.
  eapply rt_trans; [|eapply rt_trans; [exact Cab|]].
  - apply connected_step; try assumption.
    apply (same_image_shares g c' a a K); [congruence | assumption].
  - apply connected_step; try assumption. apply shares_sym.
    apply (same_image_shares g d' b b K); [congruence | assumption].
Qed.

Lemma afterWrites_rows (email phoneNumber : field) (first : Contact)
    (found : list Contact) (s : Store) :
  Permutation (rows (afterWrites email phoneNumber first found s))
    (map (downgradeRow
            (map id (toDowngrade (selectPrimary first found) found))
            (mkUpdate secondary (Some (id (selectPrimary first found))))
            (now s))
         (rows s) ++
     (if introducesNewInfo email phoneNumber found
      then [newSecondary email phoneNumber (selectPrimary first found) s]
      else [])).
Proof. apply afterWrites_updated. Qed.

Lemma connected_incl (l l' : list Contact) (a b : Contact) :
  incl l l' -> connected l a b -> connected l' a b.
Proof.
  intros H C. unfold connected in *.
  induction C as [a b [Ha [Hb Hs]] | a | a b c _ IH1 _ IH2].
  - apply rt_step. split; [now apply H|]. split; [now apply H | assumption].
  - apply rt_refl.
  - eapply rt_trans; eassumption.
Qed.

(** The order of the rows does not matter. *)
Lemma onePrimary_Permutation (l l' : list Contact) :
  Permutation l l' ->
  onePrimaryPerComponent l -> onePrimaryPerComponent l'.
Proof.
  intros P H c d Hc Hd C Pc Pd.
  apply H; try assumption.
  - now apply (Permutation_in _ (Permutation_sym P)).
  - now apply (Permutation_in _ (Permutation_sym P)).
  - apply (connected_incl l'); [|assumption].
    intros x Hx. now apply (Permutation_in _ (Permutation_sym P)).
Qed.

(** The rows that share a value with the row step 6 inserts share a
    value with each other: the side of the request that is new is on no
    stored row. *)
Lemma inserted_row_bridges_nothing (email phoneNumber : field)
    (l : list Contact) (g : Contact -> Contact) (n : Contact) :
  keepsColumns g ->
  rejected email phoneNumber = false ->
  existingContacts email phoneNumber l <> [] ->
  introducesNewInfo email phoneNumber
    (allLinkedContacts email phoneNumber l) = true ->
  Contact_email n = orNull email ->
  Contact_phoneNumber n = orNull phoneNumber ->
  forall x y, In x (map g l) -> In y (map g l) ->
              shares n x -> shares n y -> shares x y.
Proof.
  intros K R Hne I En Pn x y Hx Hy Sx Sy.
  apply introducesNewInfo_spec in I. destruct I as [_ Hnew].
  assert (Hfound : forall c v, In c l ->
             (email = Str v /\ Contact_email c = Some v) \/
             (phoneNumber = Str v /\ Contact_phoneNumber c = Some v) ->
             In c (allLinkedContacts email phoneNumber l)).
  { intros c v Hc Hv. apply seeds_in_allLinkedContacts; [assumption|].
    apply existingContacts_In; [assumption|]. split; [assumption|].
    destruct Hv as [Hv|Hv]; [left | right]; exists v; exact Hv. }
  apply in_map_iff in Hx. destruct Hx as [x0 [<- Hx0]].
  apply in_map_iff in Hy. destruct Hy as [y0 [<- Hy0]].
  destruct (keepsColumns_fields g x0 K) as [_ [Ex [Px _]]].
  destruct (keepsColumns_fields g y0 K) as [_ [Ey [Py _]]].
  unfold shares in *. rewrite Ex, Px in *. rewrite Ey, Py in *.
  rewrite En, Pn in Sx, Sy.
  destruct Hnew as [[v [-> [_ Hun]]] | [v [-> [_ Hun]]]].
  - cbn [orNull] in Sx, Sy.
    destruct Sx as [[w [H1 H2]]|[w [H1 H2]]].
    { exfalso. injection H1 as <-. apply (Hun x0); [|assumption].
      apply (Hfound x0 v); auto. }
    destruct Sy as [[w' [H3 H4]]|[w' [H3 H4]]].
    { exfalso. injection H3 as <-. apply (Hun y0); [|assumption].
      apply (Hfound y0 v); auto. }
    right. exists w. split; [assumption | congruence].
  - cbn [orNull] in Sx, Sy.
    destruct Sx as [[w [H1 H2]]|[w [H1 H2]]].
    2:{ exfalso. injection H1 as <-. apply (Hun x0); [|assumption].
        apply (Hfound x0 v); auto. }
    destruct Sy as [[w' [H3 H4]]|[w' [H3 H4]]].
    2:{ exfalso. injection H3 as <-. apply (Hun y0); [|assumption].
        apply (Hfound y0 v); auto. }
    left. exists w. split; [assumption | congruence].
Qed.

(** No request gives a component a second primary. *)
Lemma resolve_keeps_onePrimary (email phoneNumber : field) (s : Store) :
  onePrimaryPerComponent (rows s) ->
  onePrimaryPerComponent (rows (snd (resolve email phoneNumber s))).
Proof.
  intros Hpre.
  destruct (rejected email phoneNumber) eqn:R.
  { now rewrite resolve_rejected. }
  destruct (existingContacts email phoneNumber (rows s)) as [|sd sds] eqn:Es.
  - (* a new primary, which shares nothing with the rows of the store *)
    rewrite (resolve_unseeded email phoneNumber s R Es). cbn [rows].
    set (n := newPrimary email phoneNumber s).
    assert (Hiso : forall x, In x (rows s) -> shares n x -> False).
    { intros x Hx Hs.
      destruct (request_row_carries email phoneNumber n R eq_refl eq_refl)
        as [_ [_ Hcar]].
      assert (H : In x (existingContacts email phoneNumber (rows s))).
      { apply existingContacts_In; [assumption|]. split; [assumption|].
        now apply Hcar. }
      rewrite Es in H. contradiction. }
    assert (Hbr : forall x y, In x (rows s) -> In y (rows s) ->
                              shares n x -> shares n y -> shares x y).
    { intros x y Hx _ Sx _. exfalso. now apply (Hiso x). }
    assert (Hfrom : forall a b, In a (rows s) ->
                                connected (rows s ++ [n]) a b ->
                                In b (rows s) /\ connected (rows s) a b).
    { intros a b Ha C.
      destruct (connected_snoc (rows s) n Hbr a b C Ha)
        as [H | [_ [x [Hx [_ Sx]]]]]; [exact H|].
      exfalso. apply (Hiso x Hx). now apply shares_sym. }
    intros c d Hc Hd C Pc Pd.
    apply in_app_or in Hc. apply in_app_or in Hd.
    destruct Hc as [Hc | [<- | []]].
    + destruct (Hfrom c d Hc C) as [Hd' C']. now apply Hpre.
    + destruct Hd as [Hd | [<- | []]]; [|reflexivity].
      destruct (Hfrom d n Hd (connected_sym _ _ _ C)) as [Hn C'].
      symmetry. now apply Hpre.
  - assert (Hne : existingContacts email phoneNumber (rows s) <> [])
      by (rewrite Es; discriminate).
    destruct (resolve_seeded email phoneNumber s R Hne)
      as [first [rest [Ea [_ ->]]]].
    apply (onePrimary_Permutation _ _
             (Permutation_sym
                (afterWrites_rows email phoneNumber first (first :: rest) s))).
    set (p := selectPrimary first (first :: rest)).
    set (g := downgradeRow (map id (toDowngrade p (first :: rest)))
                (mkUpdate secondary (Some (id p))) (now s)).
    pose proof (onePrimary_downgraded
                  (map id (toDowngrade p (first :: rest))) p (now s) (rows s)
                  Hpre) as H1.
    fold g in H1.
    destruct (introducesNewInfo email phoneNumber (first :: rest)) eqn:I;
      [|now rewrite app_nil_r].
    set (n := newSecondary email phoneNumber p s).
    assert (Hbr : forall x y, In x (map g (rows s)) -> In y (map g (rows s)) ->
                              shares n x -> shares n y -> shares x y).
    { apply (inserted_row_bridges_nothing email phoneNumber (rows s) g n);
        try assumption; try reflexivity.
      - apply downgradeRow_keepsColumns.
      - now rewrite Ea. }
    intros c d Hc Hd C Pc Pd.
    apply in_app_or in Hc.
    destruct Hc as [Hc | [<- | []]]; [|discriminate Pc].
    destruct (connected_snoc (map g (rows s)) n Hbr c d C Hc)
      as [[Hd' C'] | [-> _]]; [|discriminate Pd].
    now apply H1.
Qed.

(** After the downgrade pass every row the expansion query found, the
    selected one apart, is a secondary linked to the selected row. *)
Lemma found_rows_linked (email phoneNumber : field) (s : Store)
    (thePrimary c : Contact) :
  rejected email phoneNumber = false ->
  selectedPrimary email phoneNumber (rows s) = Some thePrimary ->
  In c (allLinkedContacts email phoneNumber (rows s)) ->
  id c <> id thePrimary ->
  exists c',
    In c' (rows (snd (resolve email phoneNumber s))) /\
    frozen c' = frozen c /\
    linkPrecedence c' = secondary /\ linkedId c' = Some (id thePrimary).
Proof.
  intros R Hsel Hc Nc. unfold selectedPrimary in Hsel.
  destruct (existingContacts email phoneNumber (rows s)) as [|sd sds] eqn:Es;
    [discriminate|].
  assert (Hne : existingContacts email phoneNumber (rows s) <> [])
    by (rewrite Es; discriminate).
  destruct (resolve_seeded email phoneNumber s R Hne)
    as [first [rest [Ea [_ ->]]]].
  rewrite Ea in Hsel, Hc.
  assert (thePrimary = selectPrimary first (first :: rest)) as ->
      by congruence.
  set (p := selectPrimary first (first :: rest)) in *.
  set (targets := map id (toDowngrade p (first :: rest))).
  set (d := mkUpdate secondary (Some (id p))).
  exists (downgradeRow targets d (now s) c). split; [|split].
  - apply (Permutation_in _
             (Permutation_sym
                (afterWrites_rows email phoneNumber first (first :: rest) s))).
    apply in_or_app. left. fold p targets d. apply in_map.
    apply (allLinkedContacts_stored email phoneNumber (rows s)).
    rewrite Ea. exact Hc.
  - apply downgradeRow_keepsColumns.
  - unfold downgradeRow. destruct (mem_Z (id c) targets) eqn:M.
    + split; reflexivity.
    + assert (Hnd : ~ In c (toDowngrade p (first :: rest))).
      { intros H. apply (in_map id) in H. fold targets in H.
        apply mem_Z_In in H. congruence. }
      destruct (not_downgraded p c (first :: rest) Hc Hnd) as [E|H];
        [contradiction | exact H].
Qed.

(** C1, amended: no request gives a connected component a second
    primary: in every store in which no component has two primaries, as
    in every store that satisfies the component invariants, the store
    after [resolve], whatever the input, has no component with two
    primaries.  And every row the expansion query found, the selected one
    apart, is then a secondary linked to the selected row, with its id,
    email, phone and [createdAt].  (The selected row is the oldest row
    found; it need not be a primary, and a component can be left without
    one.) *)
Theorem component_keeps_one_primary (email phoneNumber : field) (s : Store) :
  onePrimaryPerComponent (rows s) ->
  onePrimaryPerComponent (rows (snd (resolve email phoneNumber s))) /\
  (forall thePrimary c,
      rejected email phoneNumber = false ->
      selectedPrimary email phoneNumber (rows s) = Some thePrimary ->
      In c (allLinkedContacts email phoneNumber (rows s)) ->
      id c <> id thePrimary ->
      exists c',
        In c' (rows (snd (resolve email phoneNumber s))) /\
        frozen c' = frozen c /\
        linkPrecedence c' = secondary /\
        linkedId c' = Some (id thePrimary)).
Proof.
  intros Hpre. split.
  - now apply resolve_keeps_onePrimary.
  - intros thePrimary c. apply found_rows_linked.
Qed.

Lemma component_keeps_one_primary_witness :
  onePrimaryPerComponent (rows storeTwoPrimaries) /\
  onePrimaryPerComponent
    (rows (snd (resolve (Str "a@x") (Str "2") storeTwoPrimaries))) /\
  exists c',
    In c' (rows (snd (resolve (Str "a@x") (Str "2") storeTwoPrimaries))) /\
    frozen c' = (2, Some "a@x", Some "1", 5) /\
    linkPrecedence c' = secondary /\ linkedId c' = Some 1.
Proof.
  assert (H : onePrimaryPerComponent (rows storeTwoPrimaries)).
  { apply componentInvariants_onePrimary, storeTwoPrimaries_invariants. }
  destruct (component_keeps_one_primary (Str "a@x") (Str "2")
              storeTwoPrimaries H) as [T1 T2].
  split; [exact H|]. split; [exact T1|].
  apply (T2 (mkContact 1 (Some "d@x") (Some "2") primary None 3 3)
            (mkContact 2 (Some "a@x") (Some "1") primary None 5 5)).
  - reflexivity.
  - reflexivity.
  - vm_compute. tauto.
  - discriminate.
Defined.

(** What the other invariants of C1 lose beyond one sharing hop.  The
    store holds a primary and two secondaries linked to it, and satisfies
    the invariants; a lookup by the phone of the last row finds the two
    secondaries and not their primary (the expansion is one query); the
    older secondary is selected and the younger one is linked to it: a
    secondary linked to a secondary. *)
Example links_beyond_one_hop :
  componentInvariants (rows storeThreeRequests) /\
  In (mkContact 2 (Some "e2") (Some "p1") secondary (Some 1) 2000 2000)
     (rows (snd (resolve Absent (Str "p3") storeThreeRequests))) /\
  In (mkContact 3 (Some "e2") (Some "p3") secondary (Some 2) 3000 4000)
     (rows (snd (resolve Absent (Str "p3") storeThreeRequests))) /\
  ~ invariants_preserved_as_stated Absent (Str "p3") storeThreeRequests.
Proof.
  assert (Hpre : componentInvariants (rows storeThreeRequests)).
  { set (r1 := mkContact 1 (Some "e1") (Some "p1") primary None 1000 1000).
    set (r2 := mkContact 2 (Some "e2") (Some "p1") secondary (Some 1)
                 2000 2000).
    set (r3 := mkContact 3 (Some "e2") (Some "p3") secondary (Some 1)
                 3000 3000).
    change (componentInvariants [r1; r2; r3]).
    assert (C21 : connected [r1; r2; r3] r2 r1).
    { apply connected_step; [cbn; tauto | cbn; tauto|].
      right. exists "p1". split; reflexivity. }
    assert (C32 : connected [r1; r2; r3] r3 r2).
    { apply connected_step; [cbn; tauto | cbn; tauto|].
      left. exists "e2". split; reflexivity. }
    split.
    - intros c Hc. exists r1.
      split; [cbn; tauto|]. split.
      { cbn in Hc. destruct Hc as [<-|[<-|[<-|[]]]].
        - apply rt_refl.
        - exact C21.
        - eapply rt_trans; [exact C32 | exact C21]. }
      split; [reflexivity|]. split.
      + intros q Hq _ Pq. cbn in Hq.
        destruct Hq as [<-|[<-|[<-|[]]]];
          [reflexivity | discriminate Pq | discriminate Pq].
      + intros d Hd _ Nd. cbn in Hd.
        destruct Hd as [<-|[<-|[<-|[]]]];
          [now contradiction Nd | split; reflexivity | split; reflexivity].
    - intros c d Hc Hd Sc Lc. cbn in Hc, Hd.
      destruct Hc as [<-|[<-|[<-|[]]]]; try discriminate Sc;
        destruct Hd as [<-|[<-|[<-|[]]]]; cbn in Lc;
        try discriminate Lc; discriminate. }
  assert (H2 : In (mkContact 2 (Some "e2") (Some "p1") secondary (Some 1)
                     2000 2000)
                 (rows (snd (resolve Absent (Str "p3") storeThreeRequests))))
    by (vm_compute; tauto).
  assert (H3 : In (mkContact 3 (Some "e2") (Some "p3") secondary (Some 2)
                     3000 4000)
                 (rows (snd (resolve Absent (Str "p3") storeThreeRequests))))
    by (vm_compute; tauto).
  split; [exact Hpre|]. split; [exact H2|]. split; [exact H3|].
  intros H. destruct (H eq_refl Hpre) as [_ Hflat].
  now apply (Hflat _ _ H3 H2).
Qed.

(** C9, amended: the handler takes no lock and opens no transaction, so
    nothing serializes two requests.  When two requests with an email or
    a phone in common run one after the other, their storage calls not
    interleaved, the store they leave has no two primaries in one
    component, if the store they found had none. *)
Theorem serial_requests_keep_one_primary
    (email1 phoneNumber1 email2 phoneNumber2 : field) (s : Store) :
  overlapping email1 phoneNumber1 email2 phoneNumber2 ->
  onePrimaryPerComponent (rows s) ->
  onePrimaryPerComponent
    (rows (snd (run2 [] (identify email1 phoneNumber1)
                  (identify email2 phoneNumber2) s))).
Proof.
  intros _ Hpre. cbn [run2].
  change (run (identify email1 phoneNumber1) s)
    with (resolve email1 phoneNumber1 s).
  pose proof (resolve_keeps_onePrimary email1 phoneNumber1 s Hpre) as H1.
  destruct (resolve email1 phoneNumber1 s) as [r1 s1]. cbn [snd] in H1.
  change (run (identify email2 phoneNumber2) s1)
    with (resolve email2 phoneNumber2 s1).
  pose proof (resolve_keeps_onePrimary email2 phoneNumber2 s1 H1) as H2.
  destruct (resolve email2 phoneNumber2 s1) as [r2 s2]. exact H2.
Qed.

Lemma serial_requests_keep_one_primary_witness :
  overlapping (Str "a@x") (Str "1") (Str "a@x") (Str "1") /\
  onePrimaryPerComponent (rows emptyStore) /\
  onePrimaryPerComponent
    (rows (snd (run2 [] (identify (Str "a@x") (Str "1"))
                  (identify (Str "a@x") (Str "1")) emptyStore))).
Proof.
  assert (Hov : overlapping (Str "a@x") (Str "1") (Str "a@x") (Str "1")).
  { left. exists "a@x". split; reflexivity. }
  assert (Hpre : onePrimaryPerComponent (rows emptyStore)).
  { intros c d []. }
  split; [exact Hov|]. split; [exact Hpre|].
  exact (serial_requests_keep_one_primary
           (Str "a@x") (Str "1") (Str "a@x") (Str "1") emptyStore Hov Hpre).
Defined.

(** * The empty string as a value *)

(** The rows of the store after a request, up to their order: the rows
    it had, with their ids, and the row the request created, if any; that
    row carries the request's own email and phone. *)
Lemma resolve_rows (email phoneNumber : field) (s : Store) :
  exists kept created,
    Permutation (rows (snd (resolve email phoneNumber s))) (kept ++ created) /\
    Permutation (map id kept) (map id (rows s)) /\
    forall c, In c created ->
              Contact_email c = orNull email /\
              Contact_phoneNumber c = orNull phoneNumber /\
              id c = next_id s.
Proof.
  destruct (rejected email phoneNumber) eqn:R.
  { rewrite resolve_rejected by assumption. exists (rows s), [].
    cbn [snd]. rewrite app_nil_r.
    split; [reflexivity|]. split; [reflexivity|]. intros c []. }
  destruct (existingContacts email phoneNumber (rows s)) as [|sd sds] eqn:Es.
  - rewrite (resolve_unseeded email phoneNumber s R Es). cbn [rows].
    exists (rows s), [newPrimary email phoneNumber s].
    split; [reflexivity|]. split; [reflexivity|].
    intros c [<-|[]]. repeat split.
  - assert (Hne : existingContacts email phoneNumber (rows s) <> [])
      by (rewrite Es; discriminate).
    destruct (resolve_seeded email phoneNumber s R Hne)
      as [first [rest [_ [_ ->]]]].
    eexists _, _.
    split; [apply afterWrites_rows|]. split.
    + rewrite map_map.
      rewrite (map_ext (fun x => id (downgradeRow _ _ _ x)) id);
        [reflexivity|].
      intros c. unfold downgradeRow. destruct (mem_Z _ _); reflexivity.
    + intros c Hc.
      destruct (introducesNewInfo email phoneNumber (first :: rest));
        [|contradiction].
      destruct Hc as [<-|[]]. repeat split.
Qed.

(** A request with a non-empty side that no stored row carries stores a
    row with its own email and phone. *)
Lemma new_value_is_stored (email phoneNumber : field) (s : Store) :
  rejected email phoneNumber = false ->
  (exists v, email = Str v /\ v <> "" /\
             forall c, In c (rows s) -> Contact_email c <> Some v) \/
  (exists v, phoneNumber = Str v /\ v <> "" /\
             forall c, In c (rows s) -> Contact_phoneNumber c <> Some v) ->
  exists c,
    In c (rows (snd (resolve email phoneNumber s))) /\
    id c = next_id s /\
    Contact_email c = orNull email /\
    Contact_phoneNumber c = orNull phoneNumber.
Proof.
  intros R Hnew.
  destruct (existingContacts email phoneNumber (rows s)) as [|sd sds] eqn:Es.
  - rewrite (resolve_unseeded email phoneNumber s R Es). cbn [rows].
    exists (newPrimary email phoneNumber s).
    split; [apply in_or_app; right; now left|]. repeat split.
  - assert (Hne : existingContacts email phoneNumber (rows s) <> [])
      by (rewrite Es; discriminate).
    destruct (resolve_seeded email phoneNumber s R Hne)
      as [first [rest [Ea [_ ->]]]].
    pose proof (allLinkedContacts_stored email phoneNumber (rows s)) as Hsub.
    rewrite Ea in Hsub.
    assert (I : introducesNewInfo email phoneNumber (first :: rest) = true).
    { apply introducesNewInfo_spec.
      destruct Hnew as [[v [-> [Hv Hun]]] | [v [-> [Hv Hun]]]].
      - split.
        + intros [c [Hc [He _]]]. apply (Hun c); [now apply Hsub | exact He].
        + left. exists v. repeat split; try assumption.
          intros c Hc. apply Hun. now apply Hsub.
      - split.
        + intros [c [Hc [_ Hp]]]. apply (Hun c); [now apply Hsub | exact Hp].
        + right. exists v. repeat split; try assumption.
          intros c Hc. apply Hun. now apply Hsub. }
    exists (newSecondary email phoneNumber
              (selectPrimary first (first :: rest)) s).
    split; [|repeat split].
    apply (Permutation_in _
             (Permutation_sym
                (afterWrites_rows email phoneNumber first (first :: rest) s))).
    rewrite I. apply in_or_app. right. now left.
Qed.

(** C10: a request with the empty string on one side and a non-empty
    string on the other is accepted; the empty string is a value of the
    seed lookup (an equality clause of the first query), and the row the
    request creates carries it as given: a row is created, with the empty
    string as its email (phone), whenever no stored row carries the
    request's phone (email), and no created row carries anything else. *)
Theorem empty_string_is_a_value (p : string) (s : Store) :
  p <> "" ->
  (rejected (Str "") (Str p) = false /\
   status (fst (resolve (Str "") (Str p) s)) = 200 /\
   (exists k, identify (Str "") (Str p) = FindMany [EmailEq ""; PhoneEq p] k) /\
   (forall c, In c (existingContacts (Str "") (Str p) (rows s)) <->
              In c (rows s) /\
              (Contact_email c = Some "" \/ Contact_phoneNumber c = Some p)) /\
   ((forall c, In c (rows s) -> Contact_phoneNumber c <> Some p) ->
    exists c, In c (rows (snd (resolve (Str "") (Str p) s))) /\
              id c = next_id s /\
              Contact_email c = Some "" /\ Contact_phoneNumber c = Some p) /\
   (exists kept created,
       Permutation (rows (snd (resolve (Str "") (Str p) s)))
         (kept ++ created) /\
       Permutation (map id kept) (map id (rows s)) /\
       forall c, In c created ->
                 Contact_email c = Some "" /\ Contact_phoneNumber c = Some p))
  /\
  (rejected (Str p) (Str "") = false /\
   status (fst (resolve (Str p) (Str "") s)) = 200 /\
   (exists k, identify (Str p) (Str "") = FindMany [EmailEq p; PhoneEq ""] k) /\
   (forall c, In c (existingContacts (Str p) (Str "") (rows s)) <->
              In c (rows s) /\
              (Contact_email c = Some p \/ Contact_phoneNumber c = Some "")) /\
   ((forall c, In c (rows s) -> Contact_email c <> Some p) ->
    exists c, In c (rows (snd (resolve (Str p) (Str "") s))) /\
              id c = next_id s /\
              Contact_email c = Some p /\ Contact_phoneNumber c = Some "") /\
   (exists kept created,
       Permutation (rows (snd (resolve (Str p) (Str "") s)))
         (kept ++ created) /\
       Permutation (map id kept) (map id (rows s)) /\
       forall c, In c created ->
                 Contact_email c = Some p /\ Contact_phoneNumber c = Some "")).
Proof.
  intros Hp.
  assert (R1 : rejected (Str "") (Str p) = false).
  { unfold rejected. cbn. rewrite (eqb_empty_false p Hp). reflexivity. }
  assert (R2 : rejected (Str p) (Str "") = false).
  { unfold rejected. cbn. rewrite (eqb_empty_false p Hp). reflexivity. }
  split.
  - split; [exact R1|]. split; [rewrite resolve_status, R1; reflexivity|].
    split.
    { unfold identify. fold (rejected (Str "") (Str p)). rewrite R1.
      eexists. reflexivity. }
    split.
    { intros c. rewrite (existingContacts_In _ _ _ _ R1). split.
      - intros [Hc [[v [[= <-] H]]|[v [[= <-] H]]]]; auto.
      - intros [Hc [H|H]]; (split; [assumption|]).
        + left. eexists. split; [reflexivity | exact H].
        + right. eexists. split; [reflexivity | exact H]. }
    split.
    { intros Hun.
      destruct (new_value_is_stored (Str "") (Str p) s R1) as [c Hc].
      - right. exists p. repeat split; assumption.
      - exists c. exact Hc. }
    destruct (resolve_rows (Str "") (Str p) s) as [kept [created [E [K C]]]].
    exists kept, created. repeat split; try assumption; apply C; assumption.
  - split; [exact R2|]. split; [rewrite resolve_status, R2; reflexivity|].
    split.
    { unfold identify. fold (rejected (Str p) (Str "")). rewrite R2.
      eexists. reflexivity. }
    split.
    { intros c. rewrite (existingContacts_In _ _ _ _ R2). split.
      - intros [Hc [[v [[= <-] H]]|[v [[= <-] H]]]]; auto.
      - intros [Hc [H|H]]; (split; [assumption|]).
        + left. eexists. split; [reflexivity | exact H].
        + right. eexists. split; [reflexivity | exact H]. }
    split.
    { intros Hun.
      destruct (new_value_is_stored (Str p) (Str "") s R2) as [c Hc].
      - left. exists p. repeat split; assumption.
      - exists c. exact Hc. }
    destruct (resolve_rows (Str p) (Str "") s) as [kept [created [E [K C]]]].
    exists kept, created. repeat split; try assumption; apply C; assumption.
Qed.

Lemma empty_string_is_a_value_witness :
  "1" <> "" /\
  (exists c, In c (rows (snd (resolve (Str "") (Str "1") emptyStore))) /\
             id c = 1 /\
             Contact_email c = Some "" /\ Contact_phoneNumber c = Some "1") /\
  (exists c, In c (rows (snd (resolve (Str "1") (Str "") storeOneContact))) /\
             id c = 2 /\
             Contact_email c = Some "1" /\ Contact_phoneNumber c = Some "").
Proof.
  assert (H : "1" <> "") by discriminate.
  split; [exact H|]. split.
  - refine (proj1 (proj2 (proj2 (proj2 (proj2 (proj1
              (empty_string_is_a_value "1" emptyStore H)))))) _).
    intros c [].
  - refine (proj1 (proj2 (proj2 (proj2 (proj2 (proj2
              (empty_string_is_a_value "1" storeOneContact H)))))) _).
    intros c Hc. cbn in Hc. destruct Hc as [<-|[]]. discriminate.
Defined.
